(** * Bela engine: a shallow embedding of [engine/types.ts] and
    [engine/rules.ts], of the two bots and of the hints and grades of the
    analysis, and the properties of the rule core and of the bots.

    Conventions of the embedding.
    - JavaScript numbers that hold points, scores, levels and rank indices
      are [Z]; array lengths and positions are [nat]. [Z] is exact for
      whole numbers of magnitude below 2^53; beyond that range, and for
      fractions, the code computes with doubles and the embedding does
      not follow it.
    - A nullable field ([Suit | null], [PlayerId | null]) is an [option].
    - A function that can [throw] returns an [option]; [None] is the throw.
      Every transition starts with [JSON.parse(JSON.stringify(state))] and
      mutates only that copy, so a transition is a function from the old
      state to the new one, and the old state is never touched.
    - [Record<PlayerId, A>] is the four-field record [PerPlayer A].
    - [Set<string>] is a [gset string]. *)

From stdpp Require Import base decidable option list strings gmap sorting.
From Stdlib Require Import ZArith Lia.
From Stdlib Require Ascii String.

(** ** types.ts *)

Inductive Suit := hearts | diamonds | clubs | spades.
Inductive Rank := R7 | R8 | R9 | R10 | RJ | RQ | RK | RA.

Record Card := mkCard { suit : Suit; rank : Rank }.

Inductive PlayerId := north | east | south | west.
Inductive TeamId := team1 | team2.

#[global] Instance Suit_eq_dec : EqDecision Suit.
Proof. solve_decision. Defined.
#[global] Instance Rank_eq_dec : EqDecision Rank.
Proof. solve_decision. Defined.
#[global] Instance Card_eq_dec : EqDecision Card.
Proof. solve_decision. Defined.
#[global] Instance PlayerId_eq_dec : EqDecision PlayerId.
Proof. solve_decision. Defined.
#[global] Instance TeamId_eq_dec : EqDecision TeamId.
Proof. solve_decision. Defined.

Record TrumpCall := mkCall {
  call_suit : Suit;
  call_playerId : PlayerId;
  level : Z
}.

Record Player := mkPlayer {
  player_id : PlayerId;
  name : string;
  team : TeamId;
  hand : list Card;
  isDeclarer : bool
}.

Inductive Phase := deal | bidding | dealerChoice | play | scoring | gameOver.

#[global] Instance Phase_eq_dec : EqDecision Phase.
Proof. solve_decision. Defined.

(** One entry of [Trick.cards]. *)
Record Played := mkPlayed { playerId : PlayerId; card : Card }.

#[global] Instance Played_eq_dec : EqDecision Played.
Proof. solve_decision. Defined.

Record Trick := mkTrick {
  cards : list Played;
  winner : option PlayerId;
  points : Z
}.

Inductive DeclarationType := bela | tierce | quarte | quint | belot.

Record Declaration := mkDecl {
  decl_type : DeclarationType;
  decl_playerId : PlayerId;
  decl_cards : list Card;
  decl_points : Z
}.

(** [Record<TeamId, number>]. *)
Record Scores := mkScores { of_team1 : Z; of_team2 : Z }.

(** The result object of [endOfHandScoring]. *)
Record HandResult := mkResult {
  res_handScores : Scores;
  res_matchScores : Scores;
  contractBonus : Z
}.

(** [GameEvent.type] takes five string values in rules.ts. *)
Inductive EventType := ev_bid | ev_pass | ev_play_card | ev_trick_complete | ev_hand_complete.

#[global] Instance EventType_eq_dec : EqDecision EventType.
Proof. solve_decision. Defined.

(** [GameEvent.data : unknown]: the payloads rules.ts stores. *)
Inductive EventData :=
| data_null
| data_card (c : Card)
| data_call (b : TrumpCall)
| data_trick (w : option PlayerId) (pts : Z)
| data_scores (r : HandResult).

(** The [id] and [timestamp] of an event come from [Date.now()] and
    [Math.random()]; a transition receives them from its caller. *)
Record Stamp := mkStamp { stamp_id : string; stamp_time : Z }.

Record GameEvent := mkEvent {
  event_id : string;
  event_type : EventType;
  timestamp : Z;
  event_playerId : option PlayerId;
  data : EventData
}.

Record GameConfig := mkConfig {
  mustFollowSuit : bool;
  mustTrumpWhenVoid : bool;
  overtrumpRequired : bool;
  declarationsEnabled : bool;
  lastTrickBonus : bool;
  matchTargetScore : Z
}.

Record PerPlayer (A : Type) := mkPerPlayer {
  at_north : A; at_east : A; at_south : A; at_west : A
}.
Arguments mkPerPlayer {A}.
Arguments at_north {A}.
Arguments at_east {A}.
Arguments at_south {A}.
Arguments at_west {A}.

(** [rec[p]] *)
Definition getP {A} (p : PlayerId) (r : PerPlayer A) : A :=
  match p with
  | north => at_north r | east => at_east r
  | south => at_south r | west => at_west r
  end.

(** [rec[p] = x] *)
Definition setP {A} (p : PlayerId) (x : A) (r : PerPlayer A) : PerPlayer A :=
  match p with
  | north => mkPerPlayer x (at_east r) (at_south r) (at_west r)
  | east => mkPerPlayer (at_north r) x (at_south r) (at_west r)
  | south => mkPerPlayer (at_north r) (at_east r) x (at_west r)
  | west => mkPerPlayer (at_north r) (at_east r) (at_south r) x
  end.

Record GameState := mkState {
  phase : Phase;
  deck : list Card;
  players : PerPlayer Player;
  currentPlayer : PlayerId;
  declarer : option PlayerId;
  trump : option Suit;
  currentTrick : Trick;
  tricks : list Trick;
  currentBid : option TrumpCall;
  bids : list TrumpCall;
  declarations : list Declaration;
  handScores : Scores;
  matchScores : Scores;
  events : list GameEvent;
  config : GameConfig;
  dealer : PlayerId;
  talon : list Card
}.

Definition CARD_VALUES (r : Rank) : Z :=
  match r with
  | R7 => 0 | R8 => 0 | R9 => 0 | R10 => 10
  | RJ => 2 | RQ => 3 | RK => 4 | RA => 11
  end%Z.

Definition RANK_ORDER : list Rank := [R7; R8; R9; R10; RJ; RQ; RK; RA].
Definition PLAYER_ORDER : list PlayerId := [north; east; south; west].

(** [Array.prototype.indexOf]: the first position of [x], or -1. *)
Fixpoint indexOf {A} `{EqDecision A} (x : A) (l : list A) : Z :=
  match l with
  | [] => (-1)%Z
  | y :: l' =>
      if decide (x = y) then 0%Z
      else let r := indexOf x l' in if decide (r = -1)%Z then (-1)%Z else (r + 1)%Z
  end.

Definition getRankIndex (r : Rank) : Z := indexOf r RANK_ORDER.

Definition getPlayerTeam (p : PlayerId) : TeamId :=
  if bool_decide (p = north) || bool_decide (p = south) then team1 else team2.

(** [getPlayerTeam(trick.winner!)]: the [!] is erased at run time, and a
    [null] is neither ['north'] nor ['south']. *)
Definition getPlayerTeamOf (w : option PlayerId) : TeamId :=
  match w with Some p => getPlayerTeam p | None => team2 end.

Definition getNextPlayer (p : PlayerId) : PlayerId :=
  let idx := indexOf p PLAYER_ORDER in
  default north (PLAYER_ORDER !! Z.to_nat ((idx + 1) mod 4)).

(** ** rules.ts: trick evaluation *)

Definition isTrump (c : Card) (trump : option Suit) : bool :=
  bool_decide (Some (suit c) = trump).

(** [trump] is typed [Suit] but [applyMove] passes [state.trump!], which is
    [null] before trump is fixed; the [!trump] test is kept. *)
Definition cardBeats (c leadCard : Card) (trump : option Suit) (isFirstTrump : bool) : bool :=
  let cardIsTrump := isTrump c trump in
  let leadIsTrump := isTrump leadCard trump in
  if bool_decide (trump = None) then
    bool_decide (suit c = suit leadCard) && bool_decide (getRankIndex (rank c) > getRankIndex (rank leadCard))%Z
  else if cardIsTrump && negb leadIsTrump then true
  else if negb cardIsTrump && leadIsTrump then false
  else if cardIsTrump && leadIsTrump then
    if isFirstTrump then true
    else bool_decide (getRankIndex (rank c) > getRankIndex (rank leadCard))%Z
  else if bool_decide (suit c = suit leadCard) then
    bool_decide (getRankIndex (rank c) > getRankIndex (rank leadCard))%Z
  else false.

(** The three loop variables of [evaluateTrick]. *)
Record Best := mkBest { bestCard : Card; bestPlayer : PlayerId; firstTrump : bool }.

(** One iteration of the [for] loop of [evaluateTrick]. *)
Definition evalStep (trump : option Suit) (st : Best) (cur : Played) : Best :=
  if cardBeats (card cur) (bestCard st) trump (firstTrump st) then
    mkBest (card cur) (playerId cur)
      (if bool_decide (Some (suit (card cur)) = trump) && negb (firstTrump st)
       then true else firstTrump st)
  else st.

Definition evalInit (trump : option Suit) (lead : Played) : Best :=
  mkBest (card lead) (playerId lead) (bool_decide (Some (suit (card lead)) = trump)).

(** The loop variables when the loop is about to look at position [j]
    (positions count from 0; the loop starts at 1). *)
Definition loopAt (cs : list Played) (trump : option Suit) (j : nat) : option Best :=
  match cs with
  | [] => None
  | lead :: rest => Some (foldl (evalStep trump) (evalInit trump lead) (take (j - 1) rest))
  end.

Definition flagAt (cs : list Played) (trump : option Suit) (j : nat) : bool :=
  from_option firstTrump false (loopAt cs trump j).

Definition evaluateTrick (trick : Trick) (trump : option Suit) : option PlayerId :=
  match cards trick with
  | [] => None
  | [only] => Some (playerId only)
  | lead :: rest => Some (bestPlayer (foldl (evalStep trump) (evalInit trump lead) rest))
  end.

Definition scoreTrick (trick : Trick) (trump : option Suit) : Z :=
  foldl (fun pts pc =>
           let isTrumpCard := bool_decide (Some (suit (card pc)) = trump) in
           let values := if isTrumpCard then CARD_VALUES else CARD_VALUES in
           (pts + values (rank (card pc)))%Z)
        0%Z (cards trick).

(** ** JavaScript array and string helpers *)

(** The position [slice] uses for an index [i] of an array of length [len]:
    a negative index counts from the end. *)
Definition sliceIndex (len : nat) (i : Z) : nat :=
  if decide (i < 0)%Z then Z.to_nat (Z.max (Z.of_nat len + i) 0)
  else Nat.min (Z.to_nat i) len.

(** [arr.slice(from, to)]; [to = None] is the one-argument form. *)
Definition slice {A} (l : list A) (from : Z) (to : option Z) : list A :=
  let a := sliceIndex (length l) from in
  let b := from_option (sliceIndex (length l)) (length l) to in
  take (b - a) (drop a l).

(** [str.slice(from, to)] *)
Definition strSlice (s : string) (from : Z) (to : option Z) : string :=
  let len := String.length s in
  let a := sliceIndex len from in
  let b := from_option (sliceIndex len) len to in
  String.substring a (b - a) s.

Definition upperChar (a : Ascii.ascii) : Ascii.ascii :=
  let n := Ascii.nat_of_ascii a in
  if bool_decide (97 ≤ n) && bool_decide (n ≤ 122) then Ascii.ascii_of_nat (n - 32) else a.

Definition lowerChar (a : Ascii.ascii) : Ascii.ascii :=
  let n := Ascii.nat_of_ascii a in
  if bool_decide (65 ≤ n) && bool_decide (n ≤ 90) then Ascii.ascii_of_nat (n + 32) else a.

Fixpoint mapChars (f : Ascii.ascii → Ascii.ascii) (s : string) : string :=
  match s with
  | EmptyString => EmptyString
  | String a s' => String (f a) (mapChars f s')
  end.

Definition toUpperCase : string → string := mapChars upperChar.
Definition toLowerCase : string → string := mapChars lowerChar.

(** [a.localeCompare(b)] on the lower-case ASCII suit names. *)
Definition localeCompare (a b : string) : Z :=
  match String.compare a b with Lt => (-1)%Z | Eq => 0%Z | Gt => 1%Z end.

(** [arr.sort(cmp)]: a stable sort; an element goes in front of the first
    later element it does not exceed. *)
Fixpoint insertBy {A} (cmp : A → A → Z) (x : A) (l : list A) : list A :=
  match l with
  | [] => [x]
  | y :: l' => if decide (cmp x y ≤ 0)%Z then x :: y :: l' else y :: insertBy cmp x l'
  end.

Definition sortBy {A} (cmp : A → A → Z) (l : list A) : list A :=
  foldr (insertBy cmp) [] l.

(** [arr.pop()]: the last element and the array without it. *)
Definition pop {A} (l : list A) : option (A * list A) :=
  match last l with
  | Some x => Some (x, removelast l)
  | None => None
  end.

(** ** types.ts: the card text encoding *)

Definition suitName (s : Suit) : string :=
  match s with
  | hearts => "hearts" | diamonds => "diamonds"
  | clubs => "clubs" | spades => "spades"
  end.

Definition rankName (r : Rank) : string :=
  match r with
  | R7 => "7" | R8 => "8" | R9 => "9" | R10 => "10"
  | RJ => "J" | RQ => "Q" | RK => "K" | RA => "A"
  end.

(** A card as the object it is at run time: two string fields. The cast
    [as Rank], [as Suit] of [stringToCard] checks nothing. *)
Record RawCard := mkRaw { raw_suit : string; raw_rank : string }.

Definition rawOf (c : Card) : RawCard := mkRaw (suitName (suit c)) (rankName (rank c)).

(** [`${card.rank}${card.suit[0].toUpperCase()}`] *)
Definition cardToString (c : Card) : string :=
  rankName (rank c) +:+ toUpperCase (String.substring 0 1 (suitName (suit c))).

Definition stringToCard (str : string) : RawCard :=
  let rank := strSlice str 0 (Some (-1)%Z) in
  let suit := toLowerCase (strSlice str (-1) None) in
  mkRaw suit rank.

(** ** rules.ts: deck and deal *)

Definition DEFAULT_CONFIG : GameConfig :=
  mkConfig true true false true true 1001.

(** [Partial<GameConfig>] *)
Record PartialConfig := mkPartial {
  opt_mustFollowSuit : option bool;
  opt_mustTrumpWhenVoid : option bool;
  opt_overtrumpRequired : option bool;
  opt_declarationsEnabled : option bool;
  opt_lastTrickBonus : option bool;
  opt_matchTargetScore : option Z
}.

Definition noOverrides : PartialConfig := mkPartial None None None None None None.

(** [{ ...DEFAULT_CONFIG, ...config }] *)
Definition mergeConfig (c : PartialConfig) : GameConfig :=
  mkConfig
    (default (mustFollowSuit DEFAULT_CONFIG) (opt_mustFollowSuit c))
    (default (mustTrumpWhenVoid DEFAULT_CONFIG) (opt_mustTrumpWhenVoid c))
    (default (overtrumpRequired DEFAULT_CONFIG) (opt_overtrumpRequired c))
    (default (declarationsEnabled DEFAULT_CONFIG) (opt_declarationsEnabled c))
    (default (lastTrickBonus DEFAULT_CONFIG) (opt_lastTrickBonus c))
    (default (matchTargetScore DEFAULT_CONFIG) (opt_matchTargetScore c)).

Definition allSuits : list Suit := [hearts; diamonds; clubs; spades].

(** The deck before the shuffle: the two nested [for] loops. *)
Definition orderedDeck : list Card :=
  s ← allSuits; r ← RANK_ORDER; [mkCard s r].

(** [[deck[i], deck[j]] = [deck[j], deck[i]]] for positions inside the
    array. *)
Definition swap {A} (i j : nat) (l : list A) : list A :=
  match l !! i, l !! j with
  | Some x, Some y => <[j := x]> (<[i := y]> l)
  | _, _ => l
  end.

(** The Fisher-Yates loop from counter [i] down to 1. [rnd i] is the value
    of [Math.floor(Math.random() * (i + 1))] drawn at counter [i]; it lies
    in [0 .. i]. *)
Fixpoint shuffleFrom (rnd : nat → nat) (i : nat) (d : list Card) : list Card :=
  match i with
  | 0 => d
  | S i' => shuffleFrom rnd i' (swap (S i') (rnd (S i')) d)
  end.

Definition generateDeck (rnd : nat → nat) : list Card :=
  shuffleFrom rnd (length orderedDeck - 1) orderedDeck.

(** The innermost statement of the dealing loop:
    [if (deck.length > 0) players[player].push(deck.pop()!)]. *)
Definition dealOne (p : PlayerId) (st : PerPlayer (list Card) * list Card)
  : PerPlayer (list Card) * list Card :=
  match pop st.2 with
  | Some (c, d') => (setP p (getP p st.1 ++ [c]) st.1, d')
  | None => st
  end.

Definition dealFour (st : PerPlayer (list Card) * list Card) (p : PlayerId) :=
  Nat.iter 4 (dealOne p) st.

Definition dealRound (st : PerPlayer (list Card) * list Card) :=
  foldl dealFour st PLAYER_ORDER.

(** The comparator of the hand sort. *)
Definition handOrder (a b : Card) : Z :=
  if decide (suit a ≠ suit b) then localeCompare (suitName (suit a)) (suitName (suit b))
  else (indexOf (rank b) RANK_ORDER - indexOf (rank a) RANK_ORDER)%Z.

Definition mapP {A B} (f : A → B) (r : PerPlayer A) : PerPlayer B :=
  mkPerPlayer (f (at_north r)) (f (at_east r)) (f (at_south r)) (f (at_west r)).

Definition dealCards (d : list Card) : PerPlayer (list Card) :=
  let dealt := Nat.iter 2 dealRound (mkPerPlayer [] [] [] [], d) in
  mapP (sortBy handOrder) dealt.1.

Definition emptyTrick : Trick := mkTrick [] None 0.

(** The set [dealtCards] after the two nested loops over the hands. *)
Definition dealtStrings (hands : PerPlayer (list Card)) : gset string :=
  foldl (fun acc p => foldl (fun acc c => {[cardToString c]} ∪ acc) acc (getP p hands))
        ∅ PLAYER_ORDER.

Definition createInitialState (rnd : nat → nat) (cfg : PartialConfig) : GameState :=
  let fullConfig := mergeConfig cfg in
  let deck := generateDeck rnd in
  let hands := dealCards deck in
  let dealtCards := dealtStrings hands in
  let remainingDeck := filter (fun c => cardToString c ∉ dealtCards) deck in
  let talon := slice remainingDeck (-2) None in
  let dealer := south in
  {| phase := bidding;
     deck := slice remainingDeck 0 (Some (-2)%Z);
     players := mkPerPlayer
       (mkPlayer north "North" team1 (at_north hands) false)
       (mkPlayer east "East" team2 (at_east hands) false)
       (mkPlayer south "You" team1 (at_south hands) false)
       (mkPlayer west "West" team2 (at_west hands) false);
     currentPlayer := getNextPlayer dealer;
     declarer := None;
     trump := None;
     currentTrick := emptyTrick;
     tricks := [];
     currentBid := None;
     bids := [];
     declarations := [];
     handScores := mkScores 0 0;
     matchScores := mkScores 0 0;
     events := [];
     config := fullConfig;
     dealer := dealer;
     talon := talon |}.

(** ** rules.ts: the legal-move oracle *)

Definition getCardsOfSuit (h : list Card) (s : Suit) : list Card :=
  filter (fun c => suit c = s) h.

Definition getTrumpCards (h : list Card) (tr : Suit) : list Card :=
  filter (fun c => suit c = tr) h.

(** The entry [highestTrumpLead]: the trump entries of the trick sorted by
    falling rank, first one taken. *)
Definition highestTrumpLead (cs : list Played) (tr : Suit) : option Played :=
  head (sortBy (fun a b => (getRankIndex (rank (card b)) - getRankIndex (rank (card a)))%Z)
               (filter (fun c => suit (card c) = tr) cs)).

Definition legalMoves (state : GameState) (pid : PlayerId) : list Card :=
  let h := hand (getP pid (players state)) in
  match trump state with
  | None => h
  | Some tr =>
      match cards (currentTrick state) with
      | [] => h
      | lead :: _ =>
          let leadCard := card lead in
          let leadSuit := suit leadCard in
          let cardsOfLeadSuit := getCardsOfSuit h leadSuit in
          let trumpCards := getTrumpCards h tr in
          if bool_decide (0 < length cardsOfLeadSuit) then cardsOfLeadSuit
          else if bool_decide (Exists (fun c => suit (card c) = tr) (cards (currentTrick state)))
                  && bool_decide (0 < length trumpCards)
          then
            if overtrumpRequired (config state) then
              match highestTrumpLead (cards (currentTrick state)) tr with
              | Some top =>
                  let higherTrumps :=
                    filter (fun c => (getRankIndex (rank c) > getRankIndex (rank (card top)))%Z) trumpCards in
                  if bool_decide (0 < length higherTrumps) then higherTrumps else trumpCards
              | None => trumpCards
              end
            else trumpCards
          else h
      end
  end.

(** ** rules.ts: declarations *)

(** The value of [consecutive] for the start position whose suffix is [l]. *)
Fixpoint consecutiveFrom (l : list Card) : nat :=
  match l with
  | a :: (b :: _) as l' =>
      if decide (getRankIndex (rank b) = getRankIndex (rank a) + 1)%Z
      then S (consecutiveFrom l') else 1
  | _ => 1
  end.

(** The declaration pushed for one start position, if any. *)
Definition runDeclaration (pid : PlayerId) (suffix : list Card) : list Declaration :=
  let consecutive := consecutiveFrom suffix in
  if bool_decide (5 ≤ consecutive) then [mkDecl quint pid (take 5 suffix) 100]
  else if bool_decide (4 ≤ consecutive) then [mkDecl quarte pid (take 4 suffix) 50]
  else if bool_decide (3 ≤ consecutive) then [mkDecl tierce pid (take 3 suffix) 20]
  else [].

(** The loop over the start positions [i] of one suit. *)
Fixpoint runDeclarations (pid : PlayerId) (suitCards : list Card) : list Declaration :=
  match suitCards with
  | [] => []
  | _ :: rest => runDeclaration pid suitCards ++ runDeclarations pid rest
  end.

Definition checkDeclarations (state : GameState) (pid : PlayerId) : list Declaration :=
  match trump state with
  | None => []
  | Some tr =>
      if negb (declarationsEnabled (config state)) then []
      else
        let h := hand (getP pid (players state)) in
        let trumpCards := filter (fun c => suit c = tr) h in
        let hasK := bool_decide (Exists (fun c => rank c = RK) trumpCards) in
        let hasQ := bool_decide (Exists (fun c => rank c = RQ) trumpCards) in
        let belaDecl :=
          if hasK && hasQ
          then [mkDecl bela pid (filter (fun c => rank c = RK ∨ rank c = RQ) trumpCards) 20]
          else [] in
        belaDecl ++
        (s ← allSuits;
         runDeclarations pid
           (sortBy (fun a b => (getRankIndex (rank a) - getRankIndex (rank b))%Z)
                   (filter (fun c => suit c = s) h)))
  end.

(** ** rules.ts: end-of-hand scoring *)

(** [team1Points] and [team2Points] after the loop over the tricks. *)
Definition trickPoints (ts : list Trick) : Z * Z :=
  foldl (fun acc t =>
           if decide (getPlayerTeamOf (winner t) = team1)
           then (acc.1 + points t, acc.2)%Z
           else (acc.1, acc.2 + points t)%Z)
        (0, 0)%Z ts.

(** [team1Declarations] and [team2Declarations]. *)
Definition declarationPoints (ds : list Declaration) : Z * Z :=
  foldl (fun acc d =>
           if decide (getPlayerTeam (decl_playerId d) = team1)
           then (acc.1 + decl_points d, acc.2)%Z
           else (acc.1, acc.2 + decl_points d)%Z)
        (0, 0)%Z ds.

(** The two totals before the contract bonus. Reading [.winner] of
    [state.tricks[state.tricks.length - 1]] throws when there is no trick. *)
Definition preBonusPoints (state : GameState) : option (Z * Z) :=
  let tp := trickPoints (tricks state) in
  withBonus ←
    (if lastTrickBonus (config state) then
       lastTrick ← last (tricks state);
       Some (if decide (getPlayerTeamOf (winner lastTrick) = team1)
             then (tp.1 + 10, tp.2)%Z else (tp.1, tp.2 + 10)%Z)
     else Some tp);
  let dp := declarationPoints (declarations state) in
  Some (withBonus.1 + dp.1, withBonus.2 + dp.2)%Z.

Definition endOfHandScoring (state : GameState) : option HandResult :=
  match trump state, declarer state with
  | Some _, Some decl =>
      pts ← preBonusPoints state;
      let team1Points := pts.1 in
      let team2Points := pts.2 in
      let declarerTeam := getPlayerTeam decl in
      let contractThreshold := 162%Z in
      let team1MadeContract :=
        if decide (declarerTeam = team1)
        then bool_decide (team1Points > contractThreshold)%Z
        else bool_decide (team2Points > contractThreshold)%Z in
      let contractBonus := if team1MadeContract then 90%Z else 0%Z in
      let newHandScores :=
        mkScores (team1Points + (if team1MadeContract then contractBonus else 0))%Z
                 (team2Points + (if team1MadeContract then 0 else contractBonus))%Z in
      let newMatchScores :=
        mkScores (of_team1 (matchScores state) + of_team1 newHandScores)%Z
                 (of_team2 (matchScores state) + of_team2 newHandScores)%Z in
      Some (mkResult newHandScores newMatchScores contractBonus)
  | _, _ => Some (mkResult (handScores state) (matchScores state) 0)
  end.

(** ** rules.ts: transitions *)

Definition mkEventAt (st : Stamp) (ty : EventType) (p : option PlayerId) (d : EventData) : GameEvent :=
  mkEvent (stamp_id st) ty (stamp_time st) p d.

Definition withHand (h : list Card) (p : Player) : Player :=
  mkPlayer (player_id p) (name p) (team p) h (isDeclarer p).

Definition withDeclarer (p : Player) : Player :=
  mkPlayer (player_id p) (name p) (team p) (hand p) true.

Record Move := mkMove { move_playerId : PlayerId; move_card : Card }.

(** The stamps of the up to three events one [applyMove] pushes. *)
Record MoveStamps := mkStamps { stamp_play : Stamp; stamp_trick : Stamp; stamp_hand : Stamp }.

(** The state after the trick has been looked at (the first [if] of
    [applyMove]), for a card found at [cardIndex]. *)
Definition afterTrick (state : GameState) (move : Move) (st : MoveStamps) (cardIndex : nat)
  : option GameState :=
  let pid := move_playerId move in
  let player := getP pid (players state) in
  let players' := setP pid (withHand (delete cardIndex (hand player)) player) (players state) in
  let pushed :=
    mkTrick (cards (currentTrick state) ++ [mkPlayed pid (move_card move)])
            (winner (currentTrick state)) (points (currentTrick state)) in
  let events1 :=
    events state ++ [mkEventAt (stamp_play st) ev_play_card (Some pid) (data_card (move_card move))] in
  if decide (length (cards pushed) = 4) then
    w ← evaluateTrick pushed (trump state);
    let withWinner := mkTrick (cards pushed) (Some w) (points pushed) in
    let pts := scoreTrick withWinner (trump state) in
    let done := mkTrick (cards pushed) (Some w) pts in
    Some {| phase := phase state; deck := deck state; players := players';
            currentPlayer := w;
            declarer := declarer state; trump := trump state;
            currentTrick := emptyTrick;
            tricks := tricks state ++ [done];
            currentBid := currentBid state; bids := bids state;
            declarations := declarations state;
            handScores := handScores state; matchScores := matchScores state;
            events := events1 ++ [mkEventAt (stamp_trick st) ev_trick_complete None (data_trick (Some w) pts)];
            config := config state; dealer := dealer state; talon := talon state |}
  else
    Some {| phase := phase state; deck := deck state; players := players';
            currentPlayer := getNextPlayer pid;
            declarer := declarer state; trump := trump state;
            currentTrick := pushed;
            tricks := tricks state;
            currentBid := currentBid state; bids := bids state;
            declarations := declarations state;
            handScores := handScores state; matchScores := matchScores state;
            events := events1;
            config := config state; dealer := dealer state; talon := talon state |}.

Definition withPhase (ph : Phase) (s : GameState) : GameState :=
  {| phase := ph; deck := deck s; players := players s;
     currentPlayer := currentPlayer s; declarer := declarer s; trump := trump s;
     currentTrick := currentTrick s; tricks := tricks s;
     currentBid := currentBid s; bids := bids s; declarations := declarations s;
     handScores := handScores s; matchScores := matchScores s;
     events := events s; config := config s; dealer := dealer s; talon := talon s |}.

(** The second [if] of [applyMove]: the hand is over. *)
Definition afterHand (s : GameState) (move : Move) (st : MoveStamps) : option GameState :=
  let player := getP (move_playerId move) (players s) in
  if bool_decide (length (hand player) = 0) && bool_decide (phase s = play) then
    let s1 := withPhase scoring s in
    scores ← endOfHandScoring s1;
    Some {| phase := scoring; deck := deck s1; players := players s1;
            currentPlayer := currentPlayer s1; declarer := declarer s1; trump := trump s1;
            currentTrick := currentTrick s1; tricks := tricks s1;
            currentBid := currentBid s1; bids := bids s1; declarations := declarations s1;
            handScores := res_handScores scores;
            matchScores := res_matchScores scores;
            events := events s1 ++ [mkEventAt (stamp_hand st) ev_hand_complete None (data_scores scores)];
            config := config s1; dealer := dealer s1; talon := talon s1 |}
  else Some s.

(** [player.hand.findIndex(c => c.suit === card.suit && c.rank === card.rank)] *)
Definition findCard (h : list Card) (c : Card) : option nat :=
  fst <$> list_find (fun x => suit x = suit c ∧ rank x = rank c) h.

Definition applyMove (state : GameState) (move : Move) (st : MoveStamps) : option GameState :=
  match findCard (hand (getP (move_playerId move) (players state))) (move_card move) with
  | None => None
  | Some cardIndex =>
      s ← afterTrick state move st cardIndex;
      afterHand s move st
  end.

(** The four calls of [checkDeclarations] at the end of [applyBid] and
    [applyDealerChoice]. *)
Definition withDeclarations (s : GameState) : GameState :=
  if declarationsEnabled (config s) then
    {| phase := phase s; deck := deck s; players := players s;
       currentPlayer := currentPlayer s; declarer := declarer s; trump := trump s;
       currentTrick := currentTrick s; tricks := tricks s;
       currentBid := currentBid s; bids := bids s;
       declarations := declarations s ++ (p ← PLAYER_ORDER; checkDeclarations s p);
       handScores := handScores s; matchScores := matchScores s;
       events := events s; config := config s; dealer := dealer s; talon := talon s |}
  else s.

Definition applyBid (state : GameState) (bid : TrumpCall) (st : Stamp) : GameState :=
  let pid := call_playerId bid in
  let marked := setP pid (withDeclarer (getP pid (players state))) (players state) in
  let takesTalon := bool_decide (0 < length (talon state)) in
  let players' :=
    if takesTalon
    then setP pid (withHand (hand (getP pid marked) ++ talon state) (getP pid marked)) marked
    else marked in
  withDeclarations
    {| phase := play; deck := deck state; players := players';
       currentPlayer := pid;
       declarer := Some pid; trump := Some (call_suit bid);
       currentTrick := currentTrick state; tricks := tricks state;
       currentBid := Some bid; bids := bids state ++ [bid];
       declarations := declarations state;
       handScores := handScores state; matchScores := matchScores state;
       events := events state ++ [mkEventAt st ev_bid (Some pid) (data_call bid)];
       config := config state; dealer := dealer state;
       talon := if takesTalon then [] else talon state |}.

Definition countPasses (es : list GameEvent) : nat :=
  length (filter (fun e => event_type e = ev_pass) es).

Definition applyPass (state : GameState) (pid : PlayerId) (st : Stamp) : GameState :=
  let events' := events state ++ [mkEventAt st ev_pass (Some pid) data_null] in
  let next : Phase * PlayerId :=
    if bool_decide (0 < length (talon state)) then (phase state, getNextPlayer pid)
    else
      match currentBid state with
      | Some _ =>
          let lastActions := slice events' (-4) None in
          let passes := countPasses lastActions in
          if bool_decide (3 ≤ passes) then (play, getNextPlayer (dealer state))
          else (phase state, getNextPlayer pid)
      | None =>
          let passes := countPasses events' in
          if bool_decide (3 ≤ passes) then (dealerChoice, dealer state)
          else (phase state, getNextPlayer pid)
      end in
  {| phase := next.1; deck := deck state; players := players state;
     currentPlayer := next.2;
     declarer := declarer state; trump := trump state;
     currentTrick := currentTrick state; tricks := tricks state;
     currentBid := currentBid state; bids := bids state;
     declarations := declarations state;
     handScores := handScores state; matchScores := matchScores state;
     events := events';
     config := config state; dealer := dealer state; talon := talon state |}.

Definition applyDealerChoice (state : GameState) (s : Suit) (st : Stamp) : GameState :=
  let bid := mkCall s (dealer state) 1 in
  withDeclarations
    {| phase := play; deck := deck state;
       players := setP (dealer state) (withDeclarer (getP (dealer state) (players state))) (players state);
       currentPlayer := dealer state;
       declarer := Some (dealer state); trump := Some s;
       currentTrick := currentTrick state; tricks := tricks state;
       currentBid := Some bid; bids := bids state ++ [bid];
       declarations := declarations state;
       handScores := handScores state; matchScores := matchScores state;
       events := events state ++ [mkEventAt st ev_bid (Some (dealer state)) (data_call bid)];
       config := config state; dealer := dealer state; talon := talon state |}.

(** One call of a transition function that returns a state. The engine
    checks neither whose turn it is nor the phase. *)
Inductive transition (s : GameState) : GameState → Prop :=
| trans_move move st s' : applyMove s move st = Some s' → transition s s'
| trans_bid bid st : transition s (applyBid s bid st)
| trans_pass pid st : transition s (applyPass s pid st)
| trans_dealerChoice su st : transition s (applyDealerChoice s su st).

(** The states the engine can produce: an initial deal followed by any
    sequence of transitions. *)
Inductive reachable : GameState → Prop :=
| reach_init rnd cfg : (∀ i, rnd i ≤ i) → reachable (createInitialState rnd cfg)
| reach_step s s' : reachable s → transition s s' → reachable s'.

(** A run of passes, each with the seat that passes and its event stamp. *)
Definition applyPasses (s : GameState) (ps : list (PlayerId * Stamp)) : GameState :=
  foldl (fun s' x => applyPass s' x.1 x.2) s ps.

(** A trick still on the table: fewer than four cards, no winner, the
    points at their initial 0. *)
Definition trickOpen (t : Trick) : Prop :=
  length (cards t) < 4 ∧ winner t = None ∧ points t = 0%Z.

(** A trick in the history: four cards, a winner, and the points
    [scoreTrick] gives it. *)
Definition trickSettled (t : Trick) : Prop :=
  length (cards t) = 4 ∧ is_Some (winner t) ∧ ∀ tr, points t = scoreTrick t tr.

(** What invariant (b) asks of a single trick. *)
Definition trickWellFormed (t : Trick) : Prop :=
  length (cards t) ≤ 4 ∧
  (is_Some (winner t) ↔ length (cards t) = 4) ∧
  (length (cards t) = 4 → ∀ tr, points t = scoreTrick t tr) ∧
  (length (cards t) ≠ 4 → points t = 0%Z).

Definition tricksWellFormed (s : GameState) : Prop :=
  ∀ t, t = currentTrick s ∨ t ∈ tricks s → trickWellFormed t.

(** The number of entries of a trick that a seat played. *)
Definition playedBy (p : PlayerId) (t : Trick) : nat :=
  length (filter (fun pc => playerId pc = p) (cards t)).

(** The cards of a seat that the state accounts for: those in its hand
    and those it has put into the current trick and the finished tricks. *)
Definition seatCards (s : GameState) (p : PlayerId) : nat :=
  length (hand (getP p (players s))) + playedBy p (currentTrick s)
  + sum_list_with (playedBy p) (tricks s).

(** What the proofs carry along every run of the engine. *)
Definition engineInv (s : GameState) : Prop :=
  trickOpen (currentTrick s) ∧
  Forall trickSettled (tricks s) ∧
  ∀ p, 8 ≤ seatCards s p.

(** The hands before they are sorted. *)
Definition dealtHands (d : list Card) : PerPlayer (list Card) :=
  (Nat.iter 2 dealRound (mkPerPlayer [] [] [] [], d)).1.

(** ** Concrete inputs *)

(** The shuffle that draws [j = i] at every step and so leaves the deck in
    the order it was built. *)
Definition keepOrder (i : nat) : nat := i.

(** A trick led with the ace of trumps, followed by the seven of trumps. *)
Definition trumpLedTrick : Trick :=
  mkTrick [mkPlayed north (mkCard spades RA); mkPlayed east (mkCard spades R7);
           mkPlayed south (mkCard hearts R7); mkPlayed west (mkCard hearts R8)]
          None 0.

Definition stamp0 : Stamp := mkStamp "event_0_0" 0.
Definition stamps0 : MoveStamps := mkStamps stamp0 stamp0 stamp0.

(** A driver that plays, for the seat whose turn it is, the first card
    [legalMoves] lists. *)
Definition playFirstLegal (s : GameState) : option GameState :=
  c ← head (legalMoves s (currentPlayer s));
  applyMove s (mkMove (currentPlayer s) c) stamps0.

Fixpoint playOn (n : nat) (s : GameState) : option GameState :=
  match n with
  | 0 => Some s
  | S n' => s' ← playFirstLegal s; playOn n' s'
  end.

(** The unshuffled deal, with the default rules and with declarations
    switched off. *)
Definition dealtGame : GameState := createInitialState keepOrder noOverrides.

Definition dealtPlainGame : GameState :=
  createInitialState keepOrder (mkPartial None None None (Some false) None None).

(** West, the first seat to speak, bids hearts; then the driver plays 29
    cards: seven tricks and the card that empties west's hand. *)
Definition westBidsHearts (s : GameState) : GameState :=
  applyBid s (mkCall hearts west 1) stamp0.

Definition scoredGame (s : GameState) : option GameState :=
  playOn 29 (westBidsHearts s).

(** A deal with [mustTrumpWhenVoid] switched off. West bids spades and leads
    the ten of clubs; north, void in clubs, ruffs with the jack of spades;
    east is next, void in clubs, with four spades and four diamonds. *)
Definition looseGame : GameState :=
  createInitialState keepOrder (mkPartial None (Some false) None None None None).

Definition playCards (s : GameState) (ms : list Move) : option GameState :=
  foldl (fun os m => s' ← os; applyMove s' m stamps0) (Some s) ms.

Definition eastAfterRuff : option GameState :=
  playCards (applyBid looseGame (mkCall spades west 1) stamp0)
            [mkMove west (mkCard clubs R10); mkMove north (mkCard spades RJ)].

(** West bids spades and leads the ten of clubs; north and east, both void
    in clubs, throw diamonds; south holds four clubs. *)
Definition spadesBid : GameState := applyBid dealtGame (mkCall spades west 1) stamp0.

Definition clubLed : option GameState :=
  playCards spadesBid [mkMove west (mkCard clubs R10)].

Definition southToFollow : option GameState :=
  playCards spadesBid
            [mkMove west (mkCard clubs R10); mkMove north (mkCard diamonds RA);
             mkMove east (mkCard diamonds R10)].

(** The states above as values; the fallback is never taken. *)
Definition clubLedState : GameState := default dealtGame clubLed.
Definition southToFollowState : GameState := default dealtGame southToFollow.
Definition eastAfterRuffState : GameState := default looseGame eastAfterRuff.

(** The same state under another value of [config.mustTrumpWhenVoid]. *)
Definition withMustTrumpWhenVoid (b : bool) (s : GameState) : GameState :=
  {| phase := phase s; deck := deck s; players := players s;
     currentPlayer := currentPlayer s; declarer := declarer s; trump := trump s;
     currentTrick := currentTrick s; tricks := tricks s;
     currentBid := currentBid s; bids := bids s; declarations := declarations s;
     handScores := handScores s; matchScores := matchScores s;
     events := events s;
     config := mkConfig (mustFollowSuit (config s)) b (overtrumpRequired (config s))
                        (declarationsEnabled (config s)) (lastTrickBonus (config s))
                        (matchTargetScore (config s));
     dealer := dealer s; talon := talon s |}.

(** Scenario A of the spec: spades are trump, the ten of hearts is led. *)
Definition scenarioA : Trick :=
  mkTrick [mkPlayed south (mkCard hearts R10); mkPlayed west (mkCard spades RA);
           mkPlayed north (mkCard hearts R7); mkPlayed east (mkCard hearts RK)]
          None 0.

(** ** Further definitions for the properties of the deal *)

(** All cards of the four hands, in seat order. *)
Definition handsCards (hs : PerPlayer (list Card)) : list Card :=
  at_north hs ++ at_east hs ++ at_south hs ++ at_west hs.

(** The part of the deck copy that [dealCards] leaves unpopped. *)
Definition undealt (d : list Card) : list Card :=
  (Nat.iter 2 dealRound (mkPerPlayer [] [] [] [], d)).2.

(** The position of a suit name in alphabetical order, and the place of a
    card in the order the hand sort aims at: suits in alphabetical order,
    within a suit the ranks falling. *)
Definition suitRank (s : Suit) : Z :=
  match s with clubs => 0 | diamonds => 1 | hearts => 2 | spades => 3 end%Z.

Definition handKey (c : Card) : Z := (suitRank (suit c) * 8 + (7 - getRankIndex (rank c)))%Z.

(** ** Further definitions for the properties of the trick evaluator *)

(** What the loop of [evaluateTrick] keeps: the flag is set exactly when
    the best card so far is a trump. *)
Definition flagTracksTrump (tr : Suit) (st : Best) : Prop :=
  firstTrump st = bool_decide (suit (bestCard st) = tr).

(** ** Further definitions for the properties of the transitions *)

(** Every card the state holds: the four hands, the current trick, the
    finished tricks, the talon and the deck. *)
Definition allCards (s : GameState) : list Card :=
  handsCards (mapP hand (players s))
  ++ (card <$> cards (currentTrick s))
  ++ (t ← tricks s; card <$> cards t)
  ++ talon s ++ deck s.

(** Trump, declarer and the standing bid are unset together or set
    together by the same call, whose seat is marked as declarer. *)
Definition bidConsistent (s : GameState) : Prop :=
  match currentBid s with
  | None => trump s = None ∧ declarer s = None
  | Some b =>
      trump s = Some (call_suit b) ∧ declarer s = Some (call_playerId b) ∧
      isDeclarer (getP (call_playerId b) (players s)) = true
  end.

(** The card a move adds to the current trick. *)
Definition pushedTrick (s : GameState) (move : Move) : Trick :=
  mkTrick (cards (currentTrick s) ++ [mkPlayed (move_playerId move) (move_card move)])
          (winner (currentTrick s)) (points (currentTrick s)).

(** The four kinds of declaration [checkDeclarations] builds, with their
    points and, for the runs, their number of cards. *)
Definition declarationShape (d : Declaration) : Prop :=
  (decl_type d = bela ∧ decl_points d = 20%Z)
  ∨ (decl_type d = tierce ∧ decl_points d = 20%Z ∧ length (decl_cards d) = 3)
  ∨ (decl_type d = quarte ∧ decl_points d = 50%Z ∧ length (decl_cards d) = 4)
  ∨ (decl_type d = quint ∧ decl_points d = 100%Z ∧ length (decl_cards d) = 5).

(** The hand around the last card of the driven game: the state before the
    29th card and the state after it. *)
Definition lastCardState : GameState :=
  default dealtGame (playOn 28 (westBidsHearts dealtGame)).

Definition scoredState : GameState := default dealtGame (scoredGame dealtGame).

(** South follows with the ace of clubs and so completes the first
    trick. *)
Definition firstTrickDone : GameState :=
  default dealtGame (applyMove southToFollowState (mkMove south (mkCard clubs RA)) stamps0).

(** ** rules.ts: the remaining exported functions *)


Definition isGameOver (state : GameState) : bool :=
  if negb (bool_decide (phase state = scoring)) then false
  else bool_decide (of_team1 (matchScores state) >= matchTargetScore (config state))%Z
       || bool_decide (of_team2 (matchScores state) >= matchTargetScore (config state))%Z.

(** The card points of a list of cards, by the table [CARD_VALUES]. *)
Definition cardPoints (l : list Card) : Z :=
  foldr (fun c acc => (CARD_VALUES (rank c) + acc)%Z) 0%Z l.

(** A deal with [overtrumpRequired] on. West bids spades and leads the ten
    of clubs, east ruffs with the eight of spades; north, void in clubs,
    holds the four top spades. *)
Definition overtrumpGame : GameState :=
  default dealtGame
    (playCards (applyBid (createInitialState keepOrder
                            (mkPartial None None (Some true) None None None))
                         (mkCall spades west 1) stamp0)
               [mkMove west (mkCard clubs R10); mkMove east (mkCard spades R8)]).

(** ** bots.ts: the beginner bot [BotLevel1] *)

Record BotMove := mkBotMove { bot_card : Card; explanation : string }.

Definition rankWord (r : Rank) : string :=
  match r with
  | R7 => "Seven" | R8 => "Eight" | R9 => "Nine" | R10 => "Ten"
  | RJ => "Jack" | RQ => "Queen" | RK => "King" | RA => "Ace"
  end.

(** [`${rankNames[card.rank]} of ${card.suit}`] *)
Definition cardName (c : Card) : string := rankWord (rank c) +:+ " of " +:+ suitName (suit c).

(** The comparator [(a, b) => getRankIndex(a.rank) - getRankIndex(b.rank)]. *)
Definition byRank (a b : Card) : Z := (getRankIndex (rank a) - getRankIndex (rank b))%Z.

(** The inner loop of [chooseBid] and [chooseDealerChoice]: the sum of the
    rank indices of the cards of one suit. *)
Definition suitStrength (h : list Card) (su : Suit) : Z :=
  foldl (fun strength c => (strength + getRankIndex (rank c))%Z) 0%Z
        (filter (fun c => suit c = su) h).

(** The loop over the four suits, from the initial [bestSuit] the caller
    gives it and [maxStrength = 0]. *)
Definition strongestSuit {A} (h : list Card) (init : A) (found : Suit → A) : A * Z :=
  foldl (fun acc su =>
           let strength := suitStrength h su in
           if bool_decide (strength > acc.2)%Z then (found su, strength) else acc)
        (init, 0%Z) allSuits.

(** [chooseBid] of the bot at seat [self]; [None] is ['pass']. *)
Definition chooseBid1 (self : PlayerId) (state : GameState) : option TrumpCall :=
  let h := hand (getP self (players state)) in
  let '(bestSuit, maxStrength) := strongestSuit h None Some in
  match bestSuit with
  | Some su =>
      let bestSuitCards := filter (fun c => suit c = su) h in
      if bool_decide (3 ≤ length bestSuitCards) && bool_decide (maxStrength >= 10)%Z
      then Some (mkCall su self 1)
      else None
  | None => None
  end.

Definition chooseDealerChoice1 (self : PlayerId) (state : GameState) : Suit :=
  (strongestSuit (hand (getP self (players state))) hearts id).1.

(** [suitCounts[card.suit] = (suitCounts[card.suit] || 0) + 1]: the object
    keeps its keys in the order they were first set, which is the order
    [Object.entries] walks them in. *)
Fixpoint countSuit (counts : list (Suit * nat)) (su : Suit) : list (Suit * nat) :=
  match counts with
  | [] => [(su, 1)]
  | (k, n) :: rest => if decide (k = su) then (k, n + 1) :: rest else (k, n) :: countSuit rest su
  end.

Definition suitCountsOf (cs : list Card) : list (Suit * nat) :=
  foldl (fun counts c => countSuit counts (suit c)) [] cs.

(** [chooseLead]. It is private and [chooseMove] calls it with a [legal]
    that is not empty; [None] stands for reading a field of [undefined],
    which throws. *)
Definition chooseLead (legal : list Card) (tr : option Suit) : option BotMove :=
  match tr with
  | None => c ← legal !! 0; Some (mkBotMove c "Leading.")
  | Some t =>
      let trumps := filter (fun c => suit c = t) legal in
      if bool_decide (0 < length trumps) then
        c ← sortBy byRank trumps !! 0;
        Some (mkBotMove c ("Leading with " +:+ cardName c +:+ " - lowest trump."))
      else
        first ← legal !! 0;
        let longestSuit :=
          (foldl (fun acc e => if bool_decide (acc.2 < e.2) then (e.1, e.2) else acc)
                 (suit first, 0) (suitCountsOf legal)).1 in
        let suitCards := filter (fun c => suit c = longestSuit) legal in
        c ← sortBy byRank suitCards !! 0;
        Some (mkBotMove c ("Leading with " +:+ cardName c +:+ " from your longest suit."))
  end.

(** [cardCanWin]; [trump] is [state.trump!] and may be [null]. *)
Definition cardCanWin (c leadCard : Card) (tr : option Suit) (isTrumpInTrick : bool)
    (trick : Trick) : bool :=
  if bool_decide (Some (suit c) = tr) && negb isTrumpInTrick then true
  else if negb (bool_decide (Some (suit c) = tr)) && isTrumpInTrick then false
  else if bool_decide (suit c = suit leadCard) then
    let otherCards := filter (fun o => suit o = suit c) (card <$> cards trick) in
    forallb (fun other => negb (bool_decide (getRankIndex (rank c) ≤ getRankIndex (rank other))%Z))
            otherCards
  else false.

(** [chooseMove] of the bot at seat [self]; [None] is a throw. *)
Definition chooseMove1 (self : PlayerId) (state : GameState) : option BotMove :=
  let legal := legalMoves state self in
  if bool_decide (length legal = 0) then None
  else
    let trick := currentTrick state in
    match cards trick with
    | [] => chooseLead legal (trump state)
    | lead :: _ =>
        let leadCard := card lead in
        let isTrumpInTrick :=
          bool_decide (Exists (fun pc => Some (suit (card pc)) = trump state) (cards trick)) in
        let canWin :=
          filter (fun c => cardCanWin c leadCard (trump state) isTrumpInTrick trick = true) legal in
        if bool_decide (0 < length canWin) then
          c ← sortBy byRank canWin !! 0;
          Some (mkBotMove c ("Playing " +:+ cardName c +:+ " to win the trick."))
        else
          let sorted := sortBy byRank legal in
          let trumpCards := filter (fun c => Some (suit c) = trump state) sorted in
          if bool_decide (0 < length trumpCards) && isTrumpInTrick then
            c ← trumpCards !! 0;
            Some (mkBotMove c ("Discarding " +:+ cardName c +:+ " since you can't win."))
          else
            let nonTrump := filter (fun c => Some (suit c) ≠ trump state) sorted in
            if bool_decide (0 < length nonTrump) then
              c ← nonTrump !! 0;
              Some (mkBotMove c ("Discarding " +:+ cardName c +:+ " - lowest card."))
            else
              c ← sorted !! 0;
              Some (mkBotMove c ("Playing " +:+ cardName c +:+ "."))
    end.

(** ** analysis.ts: hints *)

(** The test inside [winningCards] of [getHint]. *)
Definition hintCanWin (state : GameState) (leadCard : Card) (isTrumpInTrick : bool)
    (c : Card) : bool :=
  if bool_decide (Some (suit c) = trump state) && negb isTrumpInTrick then true
  else if negb (bool_decide (Some (suit c) = trump state)) && isTrumpInTrick then false
  else if bool_decide (suit c = suit leadCard)
          && bool_decide (getRankIndex (rank c) > getRankIndex (rank leadCard))%Z
  then
    let higherCards :=
      filter (fun pc => (getRankIndex (rank (card pc)) > getRankIndex (rank c))%Z)
             (filter (fun pc => suit (card pc) = suit c) (cards (currentTrick state))) in
    bool_decide (length higherCards = 0)
  else false.

(** [getHint]; [None] is a throw. *)
Definition getHint (state : GameState) (pid : PlayerId) : option BotMove :=
  let legal := legalMoves state pid in
  if bool_decide (length legal = 0) then None
  else
    match cards (currentTrick state) with
    | [] =>
        let trumps := filter (fun c => Some (suit c) = trump state) legal in
        if bool_decide (0 < length trumps) then
          lowTrump ← sortBy byRank trumps !! 0;
          Some (mkBotMove lowTrump
                  "Consider leading with your lowest trump to control the game.")
        else
          lowCard ← sortBy byRank legal !! 0;
          Some (mkBotMove lowCard "Lead with your lowest card from your longest suit.")
    | lead :: _ =>
        let leadCard := card lead in
        let isTrumpInTrick :=
          bool_decide (Exists (fun pc => Some (suit (card pc)) = trump state)
                              (cards (currentTrick state))) in
        let winningCards :=
          filter (fun c => hintCanWin state leadCard isTrumpInTrick c = true) legal in
        if bool_decide (0 < length winningCards) then
          best ← sortBy byRank winningCards !! 0;
          Some (mkBotMove best
                  ("Play " +:+ rankName (rank best) +:+ " of " +:+ suitName (suit best)
                   +:+ " to win the trick!"))
        else
          lowCard ← sortBy byRank legal !! 0;
          Some (mkBotMove lowCard
                  "You can't win this trick. Play your lowest card to save high cards for later.")
    end.

(** ** analysis.ts: grading a decision *)

Inductive DecisionGrade := grade_best | grade_ok | grade_mistake | grade_blunder.

(** [decision.move]: [{ card?: Card; call?: TrumpCall }]. *)
Record MoveChoice := mkChoice { choice_card : option Card; choice_call : option TrumpCall }.

Record GradedInput := mkDecision {
  dec_playerId : PlayerId;
  dec_move : MoveChoice;
  dec_legalMoves : list Card
}.

(** [legal[legal.length - 1]], [undefined] for an empty array. *)
Definition determineOptimalMove (d : GradedInput) : option Card := last (dec_legalMoves d).

(** [`${card.rank}-${card.suit}`] *)
Definition gradeKey (c : Card) : string := rankName (rank c) +:+ "-" +:+ suitName (suit c).

Definition gradeDecision (d : GradedInput) (optimalMove : option Card) : DecisionGrade * string :=
  let legal := dec_legalMoves d in
  let optimalMove :=
    match optimalMove with Some o => Some o | None => determineOptimalMove d end in
  match choice_card (dec_move d), choice_call (dec_move d) with
  | None, None => (grade_mistake, "Player passed when they could have bid/called.")
  | Some c, _ =>
      let cardStr := gradeKey c in
      let optimalStr := from_option gradeKey "" optimalMove in
      if bool_decide (cardStr = optimalStr) then (grade_best, "This is the optimal move!")
      else
        let decisionRank := getRankIndex (rank c) in
        let optimalRank := from_option (fun o => getRankIndex (rank o)) (-1)%Z optimalMove in
        let isSameSuit := bool_decide (Some (suit c) = suit <$> optimalMove) in
        if isSameSuit && bool_decide (decisionRank >= optimalRank - 1)%Z
        then (grade_ok, "Good move, though not the best choice.")
        else if isSameSuit || bool_decide (Some (suit c) = suit <$> legal !! 0)
        then (grade_mistake, "This move could be better.")
        else (grade_blunder, "This is a poor choice in this situation.")
  | None, Some _ => (grade_ok, "Acceptable decision.")
  end.

(** ** bots.ts: the stronger bot [BotLevel2] *)

(** The [rankValues] table of [findBestSuit], with [|| 0] for the ranks it
    leaves out. *)
Definition highCardValue (r : Rank) : Z :=
  match r with
  | RA => 8 | RK => 7 | RQ => 6 | RJ => 5 | R10 => 4
  | R9 => 0 | R8 => 0 | R7 => 0
  end%Z.

Definition findBestSuit (h : list Card) : option Suit :=
  (foldl (fun acc su =>
            let suitCards := filter (fun c => suit c = su) h in
            let strength := foldl (fun sum c => (sum + highCardValue (rank c))%Z) 0%Z suitCards in
            if bool_decide (strength > acc.2)%Z && bool_decide (3 ≤ length suitCards)
            then (Some su, strength) else acc)
         (None, (-1)%Z) allSuits).1.

(** [this.findBestSuit(hand) || 'hearts'] *)
Definition chooseDealerChoice2 (self : PlayerId) (state : GameState) : Suit :=
  default hearts (findBestSuit (hand (getP self (players state)))).

(** [Array.prototype.findIndex]: the first position that passes, or -1. *)
Fixpoint findIndex {A} (f : A → bool) (l : list A) : Z :=
  match l with
  | [] => (-1)%Z
  | y :: l' =>
      if f y then 0%Z
      else let r := findIndex f l' in if decide (r = -1)%Z then (-1)%Z else (r + 1)%Z
  end.

(** [getSequenceBonus]. Each guard keeps the position it reads inside
    [sorted]. *)
Definition getSequenceBonus (h : list Card) (c : Card) : Z :=
  let suitCards := filter (fun x => suit x = suit c) h in
  let sorted := sortBy byRank suitCards in
  let cardIdx := findIndex (fun x => bool_decide (rank x = rank c)) sorted in
  let below :=
    if bool_decide (cardIdx > 0)%Z then
      match sorted !! Z.to_nat (cardIdx - 1) with
      | Some x => bool_decide (getRankIndex (rank x) = getRankIndex (rank c) - 1)%Z
      | None => false
      end
    else false in
  let above :=
    if bool_decide (cardIdx < Z.of_nat (length sorted) - 1)%Z then
      match sorted !! Z.to_nat (cardIdx + 1) with
      | Some x => bool_decide (getRankIndex (rank x) = getRankIndex (rank c) + 1)%Z
      | None => false
      end
    else false in
  ((if below then 5 else 0) + (if above then 5 else 0))%Z.

(** [countRemainingSuits(hand, card)[card.suit]]. [chooseMove] passes the
    cards [legalMoves] returns, which are objects of the hand itself, so
    the test [card !== playedCard] skips exactly one card of the hand, of
    the suit of [card]. A suit with no card left has no key: the
    read gives [undefined], here [None]. *)
Definition remainingOfSuit (h : list Card) (playedCard : Card) : option nat :=
  let n := length (filter (fun x => suit x = suit playedCard) h) - 1 in
  if bool_decide (n = 0) then None else Some n.

(** [evaluateMove]. [canWin] has the body of [cardCanWin] of [BotLevel1].
    [undefined <= 1] is false. *)
Definition evaluateMove (self : PlayerId) (state : GameState) (c : Card) : Z :=
  let trick := currentTrick state in
  let h := hand (getP self (players state)) in
  let base :=
    match cards trick with
    | [] =>
        ((if bool_decide (Some (suit c) = trump state) then 10 else 0)
         + getSequenceBonus h c - getRankIndex (rank c) * 2)%Z
    | lead :: _ =>
        let leadCard := card lead in
        let isTrumpInTrick :=
          bool_decide (Exists (fun pc => Some (suit (card pc)) = trump state) (cards trick)) in
        if cardCanWin c leadCard (trump state) isTrumpInTrick trick
        then (20 - getRankIndex (rank c) * 3)%Z
        else ((- getRankIndex (rank c))
              + (if negb isTrumpInTrick && bool_decide (Some (suit c) = trump state)
                 then 5 else 0))%Z
    end in
  let unguards :=
    match remainingOfSuit h c with
    | Some n => bool_decide (n ≤ 1) && bool_decide (Some (suit c) ≠ trump state)
    | None => false
    end in
  (base - (if unguards then 5 else 0))%Z.

Definition getExplanation (state : GameState) (c : Card) : string :=
  let trick := currentTrick state in
  match cards trick with
  | [] => "Leading with " +:+ cardName c +:+ "."
  | lead :: _ =>
      let isTrumpInTrick :=
        bool_decide (Exists (fun pc => Some (suit (card pc)) = trump state) (cards trick)) in
      if cardCanWin c (card lead) (trump state) isTrumpInTrick trick
      then "Playing " +:+ cardName c +:+ " to win the trick!"
      else "Discarding " +:+ cardName c +:+ "."
  end.

(** The loop of [chooseMove] of [BotLevel2]: [bestScore] is [None] for
    [-Infinity], which every score exceeds. *)
Definition chooseStep (self : PlayerId) (state : GameState)
    (acc : Card * option Z * string) (c : Card) : Card * option Z * string :=
  let score := evaluateMove self state c in
  if match acc.1.2 with Some bestScore => bool_decide (score > bestScore)%Z | None => true end
  then (c, Some score, getExplanation state c)
  else acc.

(** [chooseMove] of [BotLevel2]; [None] is a throw. *)
Definition chooseMove2 (self : PlayerId) (state : GameState) : option BotMove :=
  let legal := legalMoves state self in
  match legal with
  | [] => None
  | first :: _ =>
      let fin := foldl (chooseStep self state) (first, None, "") legal in
      Some (mkBotMove fin.1.1 fin.2)
  end.

(** The deal of [dealtGame] under a match target of 100 points, played
    like [scoredState]: the hand is scored and the match is over, and
    north, east and south still hold a card each. *)
Definition shortMatch : GameState :=
  default dealtGame
    (scoredGame (createInitialState keepOrder (mkPartial None None None None None (Some 100%Z)))).

Definition shortMatchOn : GameState :=
  default dealtGame (applyMove shortMatch (mkMove north (mkCard spades RJ)) stamps0).

(** West has bid spades and holds one card only, with no trick played:
    a state the transitions do not reach. *)
Definition lastCardNoTrick : GameState :=
  {| phase := phase spadesBid; deck := deck spadesBid;
     players := setP west (withHand [mkCard clubs R10] (getP west (players spadesBid)))
                     (players spadesBid);
     currentPlayer := currentPlayer spadesBid; declarer := declarer spadesBid;
     trump := trump spadesBid;
     currentTrick := currentTrick spadesBid; tricks := tricks spadesBid;
     currentBid := currentBid spadesBid; bids := bids spadesBid;
     declarations := declarations spadesBid;
     handScores := handScores spadesBid; matchScores := matchScores spadesBid;
     events := events spadesBid; config := config spadesBid;
     dealer := dealer spadesBid; talon := talon spadesBid |}.

(** * Properties *)

(** ** Trick evaluation *)

Section TrickEvaluation.
Variable trump : option Suit.

Lemma evalStep_keeps st cur :
  cardBeats (card cur) (bestCard st) trump (firstTrump st) = false →
  evalStep trump st cur = st.
Proof. intros Hb. unfold evalStep. by rewrite Hb. Qed.

Lemma evalStep_takes st cur :
  cardBeats (card cur) (bestCard st) trump (firstTrump st) = true →
  bestCard (evalStep trump st cur) = card cur ∧
  bestPlayer (evalStep trump st cur) = playerId cur.
Proof. intros Hb. unfold evalStep. by rewrite Hb. Qed.

(** The loop ends either on the card it started with or on one of the
    cards it walked over, and nothing it looked at afterwards beat that
    card with the flag the loop held at that moment. *)
Lemma evalLoop_spec (rest : list Played) (st : Best) :
  let fin := foldl (evalStep trump) st rest in
  (bestCard fin = bestCard st ∧ bestPlayer fin = bestPlayer st ∧
   ∀ j c, rest !! j = Some c →
          cardBeats (card c) (bestCard st) trump
            (firstTrump (foldl (evalStep trump) st (take j rest))) = false)
  ∨ (∃ i w, rest !! i = Some w ∧ bestCard fin = card w ∧ bestPlayer fin = playerId w ∧
     ∀ j c, i < j → rest !! j = Some c →
            cardBeats (card c) (card w) trump
              (firstTrump (foldl (evalStep trump) st (take j rest))) = false).
Proof.
  revert st. induction rest as [|x rest IH]; intros st; simpl.
  - left. repeat split. intros j c Hj. by rewrite lookup_nil in Hj.
  - destruct (cardBeats (card x) (bestCard st) trump (firstTrump st)) eqn:Hb.
    + destruct (evalStep_takes st x Hb) as [Hc Hp].
      right. destruct (IH (evalStep trump st x)) as [(Hfc & Hfp & Hlater)|(i & w & Hi & Hfc & Hfp & Hlater)].
      * exists 0, x. simpl. rewrite Hfc, Hfp. repeat split; try done.
        intros [|j] c Hlt Hj; [lia|]. simpl in *. rewrite <- Hc. by apply Hlater.
      * exists (S i), w. simpl. repeat split; try done.
        intros [|j] c Hlt Hj; [lia|]. simpl in *. apply Hlater; [lia|done].
    + rewrite (evalStep_keeps st x Hb).
      destruct (IH st) as [(Hfc & Hfp & Hlater)|(i & w & Hi & Hfc & Hfp & Hlater)].
      * left. repeat split; try done.
        intros [|j] c Hj; simpl in *.
        -- by injection Hj as <-.
        -- rewrite (evalStep_keeps st x Hb). by apply Hlater.
      * right. exists (S i), w. simpl. repeat split; try done.
        intros [|j] c Hlt Hj; [lia|]. simpl in *.
        rewrite (evalStep_keeps st x Hb). apply Hlater; [lia|done].
Qed.

Lemma evaluateTrick_loop trick lead rest :
  cards trick = lead :: rest →
  evaluateTrick trick trump
  = Some (bestPlayer (foldl (evalStep trump) (evalInit trump lead) rest)).
Proof.
  intros Hc. unfold evaluateTrick. rewrite Hc. by destruct rest.
Qed.

(** For a trick that is not empty, [evaluateTrick] names the seat of one of
    its cards, and no card played after that one beats it. *)
Lemma evaluateTrick_unbeaten_later trick :
  cards trick ≠ [] →
  ∃ k w, cards trick !! k = Some w ∧
         evaluateTrick trick trump = Some (playerId w) ∧
         ∀ j c, k < j → cards trick !! j = Some c →
                cardBeats (card c) (card w) trump (flagAt (cards trick) trump j) = false.
Proof.
  intros Hne. destruct (cards trick) as [|lead rest] eqn:Hc; [done|].
  rewrite (evaluateTrick_loop trick lead rest Hc). unfold flagAt, loopAt.
  destruct (evalLoop_spec rest (evalInit trump lead))
    as [(Hfc & Hfp & Hlater)|(i & w & Hi & Hfc & Hfp & Hlater)].
  - exists 0, lead. simpl. rewrite Hfp. repeat split; try done.
    intros [|j] c Hlt Hj; [lia|]. simpl in *. rewrite Nat.sub_0_r. by apply Hlater.
  - exists (S i), w. simpl. rewrite Hfp. repeat split; try done.
    intros [|j] c Hlt Hj; [lia|]. simpl in *. rewrite Nat.sub_0_r.
    apply Hlater; [lia|done].
Qed.
End TrickEvaluation.

Example scenarioA_winner_and_points :
  evaluateTrick scenarioA (Some spades) = Some west ∧
  scoreTrick scenarioA (Some spades) = 25%Z.
Proof. split; reflexivity. Qed.


(** ** The initial deal *)

Lemma swap_length {A} (i j : nat) (l : list A) : length (swap i j l) = length l.
Proof.
  unfold swap. destruct (l !! i), (l !! j); try done.
  by rewrite !length_insert.
Qed.

Lemma shuffleFrom_length rnd i d : length (shuffleFrom rnd i d) = length d.
Proof.
  revert d. induction i as [|i IH]; intros d; simpl; [done|].
  by rewrite IH, swap_length.
Qed.

Lemma generateDeck_length rnd : length (generateDeck rnd) = 32.
Proof. unfold generateDeck. by rewrite shuffleFrom_length. Qed.

Lemma insertBy_perm {A} (cmp : A → A → Z) x l : insertBy cmp x l ≡ₚ x :: l.
Proof.
  induction l as [|y l IH]; simpl; [done|].
  destruct (decide _); [done|].
  rewrite IH. apply Permutation_swap.
Qed.

Lemma sortBy_perm {A} (cmp : A → A → Z) l : sortBy cmp l ≡ₚ l.
Proof.
  induction l as [|x l IH]; simpl; [done|].
  by rewrite insertBy_perm, IH.
Qed.

Lemma sortBy_length {A} (cmp : A → A → Z) l : length (sortBy cmp l) = length l.
Proof. by rewrite sortBy_perm. Qed.

Lemma elem_of_sortBy {A} (cmp : A → A → Z) l x : x ∈ sortBy cmp l ↔ x ∈ l.
Proof. by rewrite sortBy_perm. Qed.

Lemma getP_mapP {A B} (f : A → B) (r : PerPlayer A) p :
  getP p (mapP f r) = f (getP p r).
Proof. destruct p; reflexivity. Qed.

Lemma dealCards_sorted d p :
  getP p (dealCards d) = sortBy handOrder (getP p (dealtHands d)).
Proof. unfold dealCards, dealtHands. apply getP_mapP. Qed.

(** Two rounds of four cards to four seats take 32 cards: a deck of 32
    gives every seat 8 cards and leaves no card out. *)
Lemma dealtHands_32 (d : list Card) :
  length d = 32 →
  (∀ p, length (getP p (dealtHands d)) = 8) ∧
  (∀ x, x ∈ d → ∃ p, x ∈ getP p (dealtHands d)).
Proof.
  intros Hlen.
  do 32 (destruct d as [|? d]; [discriminate Hlen|]).
  destruct d; [|discriminate Hlen]. clear Hlen.
  vm_compute dealtHands.
  split.
  - intros []; reflexivity.
  - intros x Hx.
    repeat (apply elem_of_cons in Hx as [->|Hx];
            [first [ by (exists north; simpl; rewrite !elem_of_cons; tauto)
                   | by (exists east; simpl; rewrite !elem_of_cons; tauto)
                   | by (exists south; simpl; rewrite !elem_of_cons; tauto)
                   | by (exists west; simpl; rewrite !elem_of_cons; tauto) ]|]).
    by apply elem_of_nil in Hx.
Qed.

Lemma dealCards_length d p : length d = 32 → length (getP p (dealCards d)) = 8.
Proof.
  intros Hlen. rewrite dealCards_sorted, sortBy_length.
  by apply dealtHands_32.
Qed.

Lemma foldl_add_strings (l : list Card) (acc : gset string) s :
  s ∈ foldl (fun acc c => {[cardToString c]} ∪ acc) acc l
  ↔ s ∈ acc ∨ ∃ c, c ∈ l ∧ s = cardToString c.
Proof.
  revert acc. induction l as [|x l IH]; intros acc; simpl.
  - split; [by left|]. intros [|(c & Hc & _)]; [done|]. by apply elem_of_nil in Hc.
  - rewrite IH. rewrite elem_of_union, elem_of_singleton. split.
    + intros [[->|]|(c & Hc & ->)]; [right|by left|right].
      * exists x. split; [by left|done].
      * exists c. split; [by right|done].
    + intros [|(c & Hc & ->)]; [left; by right|].
      apply elem_of_cons in Hc as [->|Hc]; [left; by left|right; by exists c].
Qed.

Lemma elem_of_dealtStrings hands c p :
  c ∈ getP p hands → cardToString c ∈ dealtStrings hands.
Proof.
  intros Hc. unfold dealtStrings, PLAYER_ORDER. simpl.
  rewrite !foldl_add_strings.
  destruct p; simpl in Hc; naive_solver.
Qed.

Lemma filter_none {A} (P : A → Prop) `{∀ x, Decision (P x)} (l : list A) :
  (∀ x, x ∈ l → ¬ P x) → filter P l = [].
Proof.
  induction l as [|x l IH]; intros Hall; [done|].
  rewrite filter_cons_False by (apply Hall; by left).
  apply IH. intros y Hy. apply Hall. by right.
Qed.

(** After a deal of a 32-card deck no card is left for the talon. *)
Lemma remainingDeck_empty (d : list Card) :
  length d = 32 →
  filter (fun c => cardToString c ∉ dealtStrings (dealCards d)) d = [].
Proof.
  intros Hlen. apply filter_none. intros c Hc Hnot. apply Hnot.
  destruct (proj2 (dealtHands_32 d Hlen) c Hc) as [p Hp].
  apply (elem_of_dealtStrings _ c p).
  rewrite dealCards_sorted. by apply elem_of_sortBy.
Qed.

Lemma createInitialState_hand rnd cfg p :
  hand (getP p (players (createInitialState rnd cfg)))
  = getP p (dealCards (generateDeck rnd)).
Proof.
  unfold createInitialState.
  destruct p;
    cbv beta zeta iota delta [players getP at_north at_east at_south at_west hand];
    reflexivity.
Qed.

Lemma createInitialState_talon_slice rnd cfg :
  talon (createInitialState rnd cfg)
  = slice (filter (fun c => cardToString c ∉ dealtStrings (dealCards (generateDeck rnd)))
                  (generateDeck rnd)) (-2) None.
Proof.
  unfold createInitialState. cbv beta zeta iota delta [talon]. reflexivity.
Qed.

Lemma createInitialState_talon rnd cfg : talon (createInitialState rnd cfg) = [].
Proof.
  rewrite createInitialState_talon_slice.
  rewrite remainingDeck_empty by apply generateDeck_length.
  reflexivity.
Qed.

(** C3, what the code does. Whatever the shuffle draws, [createInitialState]
    gives each of the four seats exactly 8 cards, and the talon is empty:
    two rounds of four cards to four seats use all 32 cards of the deck, so
    there are no two undealt cards. The claim's 8 cards per seat hold; its
    talon of length 2 does not. *)
Theorem createInitialState_deals_whole_deck (rnd : nat → nat) (cfg : PartialConfig) :
  (∀ i, rnd i ≤ i) →
  (∀ p, length (hand (getP p (players (createInitialState rnd cfg)))) = 8) ∧
  talon (createInitialState rnd cfg) = [] ∧
  length (talon (createInitialState rnd cfg)) ≠ 2.
Proof.
  intros _. split; [|split].
  - intros p. rewrite createInitialState_hand.
    apply dealCards_length, generateDeck_length.
  - apply createInitialState_talon.
  - by rewrite createInitialState_talon.
Qed.

Lemma createInitialState_deals_whole_deck_witness :
  (∀ i, keepOrder i ≤ i) ∧
  (∀ p, length (hand (getP p (players (createInitialState keepOrder noOverrides)))) = 8) ∧
  talon (createInitialState keepOrder noOverrides) = [] ∧
  length (talon (createInitialState keepOrder noOverrides)) ≠ 2.
Proof.
  split; [intros i; unfold keepOrder; lia|].
  apply (createInitialState_deals_whole_deck keepOrder noOverrides).
  intros i. unfold keepOrder. lia.
Defined.

(** ** End-of-hand scoring *)

(** What [endOfHandScoring] adds to the two pre-bonus totals: team 2 never
    receives anything, and team 1 receives 90 exactly when the declarer's
    team, whichever it is, exceeds 162. *)
Lemma endOfHandScoring_handScores s tr d pts :
  trump s = Some tr → declarer s = Some d → preBonusPoints s = Some pts →
  res_handScores <$> endOfHandScoring s
  = Some (mkScores
            (pts.1 + (if bool_decide ((if decide (getPlayerTeam d = team1) then pts.1 else pts.2) > 162)%Z
                      then 90 else 0))%Z
            pts.2).
Proof.
  intros Htr Hd Hpts. unfold endOfHandScoring. rewrite Htr, Hd, Hpts. simpl.
  destruct (decide (getPlayerTeam d = team1)); simpl;
    case_bool_decide; simpl; do 2 f_equal; lia.
Qed.

(** C2, the code at two failing inputs. In [scoredGame dealtGame] west, of
    team 2, is the declarer and team 2 has 338 points before the bonus, more
    than 162: the 90 points go to team 1 (368 + 90), not to the declarer's
    team. In [scoredGame dealtPlainGame] the declarer's team has 58 points,
    not more than 162: no 90 points are added to either team. *)
Theorem endOfHandScoring_bonus_not_as_claimed :
  (∃ s, scoredGame dealtGame = Some s ∧
        trump s = Some hearts ∧ declarer s = Some west ∧ getPlayerTeam west = team2 ∧
        preBonusPoints s = Some (368, 338)%Z ∧
        res_handScores <$> endOfHandScoring s = Some (mkScores 458 338) ∧
        handScores s = mkScores 458 338) ∧
  (∃ s, scoredGame dealtPlainGame = Some s ∧
        trump s = Some hearts ∧ declarer s = Some west ∧
        preBonusPoints s = Some (68, 58)%Z ∧
        res_handScores <$> endOfHandScoring s = Some (mkScores 68 58) ∧
        contractBonus <$> endOfHandScoring s = Some 0%Z ∧
        handScores s = mkScores 68 58).
Proof.
  split.
  - destruct (scoredGame dealtGame) as [s|] eqn:Hs; [|by vm_compute in Hs].
    exists s. split; [done|].
    vm_compute in Hs. injection Hs as <-. by vm_compute.
  - destruct (scoredGame dealtPlainGame) as [s|] eqn:Hs; [|by vm_compute in Hs].
    exists s. split; [done|].
    vm_compute in Hs. injection Hs as <-. by vm_compute.
Qed.

(** ** The card text encoding *)

(** C10, the code on every card. [stringToCard] gives back the rank, but as
    suit it gives the lower-cased first letter of the suit name, which is
    never the suit name: the round trip does not return the card. *)
Theorem stringToCard_cardToString_loses_suit (c : Card) :
  raw_rank (stringToCard (cardToString c)) = rankName (rank c) ∧
  raw_suit (stringToCard (cardToString c)) = String.substring 0 1 (suitName (suit c)) ∧
  raw_suit (stringToCard (cardToString c)) ≠ suitName (suit c) ∧
  stringToCard (cardToString c) ≠ rawOf c.
Proof.
  destruct c as [[] []]; vm_compute; repeat split; discriminate.
Qed.

(** ** The legal-move oracle *)

Lemma legalMoves_sublist s p : sublist (legalMoves s p) (hand (getP p (players s))).
Proof.
  unfold legalMoves. destruct (trump s) as [tr|]; [|done].
  destruct (cards (currentTrick s)) as [|lead rest]; [done|].
  case_bool_decide; [apply sublist_filter|].
  destruct (_ && _); [|done].
  destruct (overtrumpRequired (config s)); [|apply sublist_filter].
  destruct (highestTrumpLead _ _); [|apply sublist_filter].
  case_bool_decide; [|apply sublist_filter].
  etrans; apply sublist_filter.
Qed.

Lemma length_pos_nonempty {A} (l : list A) : 0 < length l → l ≠ [].
Proof. by destruct l; simpl; [lia|]. Qed.

(** C6. In phase [play], for a seat whose hand is not empty, [legalMoves]
    is not empty and every card in it is a card of the hand. *)
Theorem legalMoves_nonempty_subset (s : GameState) (p : PlayerId) :
  phase s = play →
  hand (getP p (players s)) ≠ [] →
  legalMoves s p ≠ [] ∧
  ∀ c, c ∈ legalMoves s p → c ∈ hand (getP p (players s)).
Proof.
  intros _ Hne. split.
  - unfold legalMoves. destruct (trump s) as [tr|]; [|done].
    destruct (cards (currentTrick s)) as [|lead rest]; [done|].
    case_bool_decide; [by apply length_pos_nonempty|].
    destruct (bool_decide (Exists _ _)); simpl; [|done].
    case_bool_decide as Htr; [|done].
    destruct (overtrumpRequired (config s)); [|by apply length_pos_nonempty].
    destruct (highestTrumpLead _ _); [|by apply length_pos_nonempty].
    case_bool_decide; by apply length_pos_nonempty.
  - intros c Hc. eapply elem_of_sublist; [done|apply legalMoves_sublist].
Qed.

(** C7. With trump fixed and a card led, a seat that holds a card of the
    lead suit may play its cards of the lead suit and nothing else. *)
Theorem legalMoves_follow_suit (s : GameState) (p : PlayerId) (tr : Suit)
    (lead : Played) (rest : list Played) :
  trump s = Some tr →
  cards (currentTrick s) = lead :: rest →
  (∃ c, c ∈ hand (getP p (players s)) ∧ suit c = suit (card lead)) →
  legalMoves s p = filter (fun c => suit c = suit (card lead)) (hand (getP p (players s))) ∧
  ∀ c, c ∈ legalMoves s p ↔ c ∈ hand (getP p (players s)) ∧ suit c = suit (card lead).
Proof.
  intros Htr Hcs (c0 & Hin & Hsuit).
  assert (Heq : legalMoves s p
                = filter (fun c => suit c = suit (card lead)) (hand (getP p (players s)))).
  { unfold legalMoves. rewrite Htr, Hcs. unfold getCardsOfSuit.
    rewrite bool_decide_eq_true_2; [done|].
    assert (c0 ∈ filter (fun c => suit c = suit (card lead)) (hand (getP p (players s))))
      as Hf by (by apply list_elem_of_filter).
    destruct (filter _ _); [by apply elem_of_nil in Hf|simpl; lia]. }
  split; [done|].
  intros c. rewrite Heq, list_elem_of_filter. tauto.
Qed.

Lemma legalMoves_nonempty_subset_witness :
  phase clubLedState = play ∧
  hand (getP south (players clubLedState)) ≠ [] ∧
  legalMoves clubLedState south ≠ [] ∧
  ∀ c, c ∈ legalMoves clubLedState south → c ∈ hand (getP south (players clubLedState)).
Proof.
  split; [by vm_compute|]. split; [by vm_compute|].
  apply (legalMoves_nonempty_subset clubLedState south); by vm_compute.
Defined.

Lemma legalMoves_follow_suit_witness :
  trump clubLedState = Some spades ∧
  cards (currentTrick clubLedState) = [mkPlayed west (mkCard clubs R10)] ∧
  legalMoves clubLedState south
  = [mkCard clubs RA; mkCard clubs RK; mkCard clubs RQ; mkCard clubs RJ].
Proof.
  split; [by vm_compute|]. split; [by vm_compute|].
  etrans.
  - apply (legalMoves_follow_suit clubLedState south spades
             (mkPlayed west (mkCard clubs R10)) []); [by vm_compute|by vm_compute|].
    exists (mkCard clubs RA). split; [|done].
    vm_compute. apply list_elem_of_here.
  - by vm_compute.
Defined.

(** [legalMoves] never reads [config.mustTrumpWhenVoid]. *)
Lemma legalMoves_withMustTrumpWhenVoid b s p :
  legalMoves (withMustTrumpWhenVoid b s) p = legalMoves s p.
Proof. reflexivity. Qed.

(** C8, the code at a failing input. In [eastAfterRuffState] the flag
    [mustTrumpWhenVoid] is false, clubs are led, spades are trump and a
    spade is in the trick; east holds no club, four spades and four
    diamonds. [legalMoves] still allows east the four spades only: the ten
    of diamonds is in the hand and is not legal. *)
Theorem legalMoves_trump_forced_with_flag_off :
  eastAfterRuff = Some eastAfterRuffState ∧
  mustTrumpWhenVoid (config eastAfterRuffState) = false ∧
  trump eastAfterRuffState = Some spades ∧
  cards (currentTrick eastAfterRuffState)
  = [mkPlayed west (mkCard clubs R10); mkPlayed north (mkCard spades RJ)] ∧
  getCardsOfSuit (hand (getP east (players eastAfterRuffState))) clubs = [] ∧
  mkCard diamonds R10 ∈ hand (getP east (players eastAfterRuffState)) ∧
  legalMoves eastAfterRuffState east
  = [mkCard spades R10; mkCard spades R9; mkCard spades R8; mkCard spades R7] ∧
  mkCard diamonds R10 ∉ legalMoves eastAfterRuffState east.
Proof.
  repeat split; try by vm_compute.
  - apply (bool_decide_unpack _). by vm_compute.
  - apply (bool_decide_unpack _). by vm_compute.
Qed.

(** ** Passing *)

Lemma countPasses_snoc_pass es st p d :
  countPasses (es ++ [mkEventAt st ev_pass p d]) = S (countPasses es).
Proof.
  unfold countPasses. rewrite filter_app, length_app.
  rewrite filter_cons_True by done. simpl. lia.
Qed.

Lemma applyPass_events s p st :
  countPasses (events (applyPass s p st)) = S (countPasses (events s)).
Proof. apply countPasses_snoc_pass. Qed.

(** With the talon still there a pass only moves the turn on. *)
Lemma applyPass_talon_present s p st :
  talon s ≠ [] →
  phase (applyPass s p st) = phase s ∧
  currentPlayer (applyPass s p st) = getNextPlayer p.
Proof.
  intros Hne. unfold applyPass. simpl.
  rewrite bool_decide_eq_true_2; [done|].
  destruct (talon s); [done|simpl; lia].
Qed.

(** With no talon and no bid the passes in the event log are counted, the
    one being made included. *)
Lemma applyPass_no_talon_no_bid s p st :
  talon s = [] → currentBid s = None →
  phase (applyPass s p st)
  = (if bool_decide (3 ≤ S (countPasses (events s))) then dealerChoice else phase s) ∧
  currentPlayer (applyPass s p st)
  = (if bool_decide (3 ≤ S (countPasses (events s))) then dealer s else getNextPlayer p).
Proof.
  intros Ht Hb. unfold applyPass. simpl. rewrite Ht, Hb. simpl.
  rewrite countPasses_snoc_pass. by case_bool_decide.
Qed.

Lemma applyPasses_snoc s ps x :
  applyPasses s (ps ++ [x]) = applyPass (applyPasses s ps) x.1 x.2.
Proof. unfold applyPasses. by rewrite foldl_app. Qed.

Lemma applyPasses_talon_present s ps :
  talon s ≠ [] →
  talon (applyPasses s ps) = talon s ∧ phase (applyPasses s ps) = phase s.
Proof.
  intros Hne. induction ps as [|x ps IH] using rev_ind; [done|].
  rewrite applyPasses_snoc. destruct IH as [IHt IHp]. split; [done|].
  rewrite <- IHp. apply applyPass_talon_present. by rewrite IHt.
Qed.

Lemma applyPasses_no_talon_no_bid s ps :
  talon s = [] → currentBid s = None →
  talon (applyPasses s ps) = [] ∧
  currentBid (applyPasses s ps) = None ∧
  players (applyPasses s ps) = players s ∧
  dealer (applyPasses s ps) = dealer s ∧
  countPasses (events (applyPasses s ps)) = countPasses (events s) + length ps ∧
  (ps ≠ [] →
   phase (applyPasses s ps)
   = (if bool_decide (3 ≤ countPasses (events s) + length ps) then dealerChoice else phase s) ∧
   (3 ≤ countPasses (events s) + length ps → currentPlayer (applyPasses s ps) = dealer s)).
Proof.
  intros Ht Hb. induction ps as [|x ps IH] using rev_ind.
  - repeat split; try done; simpl; try lia.
  - destruct IH as (IHt & IHb & IHp & IHd & IHc & IHph).
    rewrite applyPasses_snoc.
    destruct (applyPass_no_talon_no_bid (applyPasses s ps) x.1 x.2 IHt IHb) as [Hph Hcur].
    rewrite IHc in Hph, Hcur. rewrite IHd in Hcur.
    rewrite length_app. simpl length.
    replace (countPasses (events s) + (length ps + 1))
      with (S (countPasses (events s) + length ps)) by lia.
    split; [exact IHt|]. split; [exact IHb|]. split; [exact IHp|].
    split; [exact IHd|].
    split; [by rewrite applyPass_events, IHc|].
    intros _. split.
    + rewrite Hph. case_bool_decide as Hge; [done|].
      destruct (decide (ps = [])) as [->|Hne]; [done|].
      destruct (IHph Hne) as [IHphase _].
      rewrite IHphase. rewrite bool_decide_eq_false_2; [done|lia].
    + intros Hge. rewrite Hcur. by rewrite bool_decide_eq_true_2.
Qed.

(** C4, as amended. From a bidding state with no bid and an empty event
    log: if the talon is empty, the phase is [dealerChoice] exactly when
    three or more passes have been made, fewer than three passes leave the
    phase [bidding], and once it is [dealerChoice] the dealer is the
    current player, the talon is still empty and every seat, the dealer
    included, holds the hand it had; if the talon is not empty, no run of
    passes leaves the phase [bidding]. *)
Theorem applyPasses_dealerChoice (s : GameState) (ps : list (PlayerId * Stamp)) :
  phase s = bidding → currentBid s = None → events s = [] →
  (talon s = [] →
   (phase (applyPasses s ps) = dealerChoice ↔ 3 ≤ length ps) ∧
   (length ps < 3 → phase (applyPasses s ps) = bidding) ∧
   (3 ≤ length ps →
    currentPlayer (applyPasses s ps) = dealer s ∧
    talon (applyPasses s ps) = [] ∧
    players (applyPasses s ps) = players s)) ∧
  (talon s ≠ [] → phase (applyPasses s ps) = bidding).
Proof.
  intros Hph Hb Hev. split.
  - intros Ht.
    destruct (applyPasses_no_talon_no_bid s ps Ht Hb)
      as (Ht' & _ & Hp' & _ & _ & Hrun).
    rewrite Hev in Hrun. simpl in Hrun.
    destruct (decide (ps = [])) as [->|Hne].
    + simpl. rewrite Hph. repeat split; try done; simpl; lia.
    + destruct (Hrun Hne) as [Hphase Hcur]. rewrite Hphase, Hph.
      case_bool_decide as Hge.
      * repeat split; try done; try lia. by apply Hcur.
      * repeat split; try done; try lia.
  - intros Hne. rewrite <- Hph. by apply applyPasses_talon_present.
Qed.

Lemma applyPasses_dealerChoice_witness :
  phase dealtGame = bidding ∧ currentBid dealtGame = None ∧ events dealtGame = [] ∧
  talon dealtGame = [] ∧
  phase (applyPasses dealtGame [(west, stamp0); (north, stamp0); (east, stamp0)])
  = dealerChoice.
Proof.
  split; [by vm_compute|]. split; [by vm_compute|]. split; [by vm_compute|].
  split; [by vm_compute|].
  apply (proj1 (applyPasses_dealerChoice dealtGame
                  [(west, stamp0); (north, stamp0); (east, stamp0)]
                  ltac:(by vm_compute) ltac:(by vm_compute) ltac:(by vm_compute))
               ltac:(by vm_compute)).
  simpl. lia.
Defined.

(** C4 as stated fails. From the initial state of the unshuffled deal,
    west, north and east pass: after these three passes, fewer than four,
    the phase has left [bidding] and is [dealerChoice], south, the dealer,
    is to choose with 8 cards in hand, and the talon has length 0, not 2. *)
Lemma three_passes_leave_bidding :
  phase dealtGame = bidding ∧ events dealtGame = [] ∧ currentBid dealtGame = None ∧
  length [(west, stamp0); (north, stamp0); (east, stamp0)] < 4 ∧
  phase (applyPasses dealtGame [(west, stamp0); (north, stamp0); (east, stamp0)])
  = dealerChoice ∧
  phase (applyPasses dealtGame [(west, stamp0); (north, stamp0); (east, stamp0)])
  ≠ bidding ∧
  currentPlayer (applyPasses dealtGame [(west, stamp0); (north, stamp0); (east, stamp0)])
  = dealer dealtGame ∧
  length (hand (getP (dealer dealtGame)
                  (players (applyPasses dealtGame
                              [(west, stamp0); (north, stamp0); (east, stamp0)])))) = 8 ∧
  length (talon (applyPasses dealtGame [(west, stamp0); (north, stamp0); (east, stamp0)]))
  ≠ 2.
Proof. repeat split; by vm_compute. Qed.

(** ** The invariant of the engine *)

Lemma getP_setP {A} (p q : PlayerId) (x : A) (r : PerPlayer A) :
  getP p (setP q x r) = if decide (p = q) then x else getP p r.
Proof. destruct p, q; reflexivity. Qed.

Lemma scoreTrick_cards t t' tr tr' :
  cards t = cards t' → scoreTrick t tr = scoreTrick t' tr'.
Proof.
  unfold scoreTrick. intros ->. generalize 0%Z.
  induction (cards t') as [|pc l IH]; intros acc; simpl; [done|].
  rewrite IH. by do 2 destruct (bool_decide _).
Qed.

Lemma evaluateTrick_is_Some t tr : cards t ≠ [] → is_Some (evaluateTrick t tr).
Proof.
  intros Hne. unfold evaluateTrick.
  destruct (cards t) as [|lead [|second rest]]; [done|by eexists|by eexists].
Qed.

Lemma playedBy_le p t : playedBy p t ≤ length (cards t).
Proof. unfold playedBy. apply length_filter. Qed.

Lemma engineInv_tricksWellFormed s : engineInv s → tricksWellFormed s.
Proof.
  intros ((Hlen & Hw & Hpts) & Hsettled & _) t [->|Hin].
  - unfold trickWellFormed. rewrite Hw, Hpts.
    split; [lia|]. split; [|split; [lia|done]].
    split; [by intros [? ?]|lia].
  - rewrite Forall_forall in Hsettled.
    destruct (Hsettled t Hin) as (Hlen4 & Hsome & Hscore).
    unfold trickWellFormed. rewrite Hlen4.
    split; [lia|]. split; [done|]. split; [done|lia].
Qed.

(** A transition that leaves the tricks alone and takes no card out of a
    hand keeps the invariant. *)
Lemma engineInv_same_tricks s s' :
  currentTrick s' = currentTrick s →
  tricks s' = tricks s →
  (∀ p, length (hand (getP p (players s))) ≤ length (hand (getP p (players s')))) →
  engineInv s → engineInv s'.
Proof.
  intros Hc Ht Hh (Hopen & Hsettled & Hcount).
  unfold engineInv, seatCards. rewrite Hc, Ht. repeat split; try done; try apply Hopen.
  intros p. specialize (Hcount p). specialize (Hh p). unfold seatCards in Hcount. lia.
Qed.

Lemma withDeclarations_tricks s :
  currentTrick (withDeclarations s) = currentTrick s ∧
  tricks (withDeclarations s) = tricks s ∧
  players (withDeclarations s) = players s.
Proof. unfold withDeclarations. by destruct (declarationsEnabled (config s)). Qed.

Lemma engineInv_applyPass s p st : engineInv s → engineInv (applyPass s p st).
Proof. by apply engineInv_same_tricks. Qed.

Lemma engineInv_applyDealerChoice s su st :
  engineInv s → engineInv (applyDealerChoice s su st).
Proof.
  unfold applyDealerChoice.
  match goal with |- context [withDeclarations ?x] =>
    destruct (withDeclarations_tricks x) as (Hc & Ht & Hp) end.
  apply engineInv_same_tricks; [by rewrite Hc|by rewrite Ht|].
  intros p. rewrite Hp. simpl. rewrite getP_setP.
  by destruct (decide _) as [->|].
Qed.

Lemma engineInv_applyBid s bid st : engineInv s → engineInv (applyBid s bid st).
Proof.
  unfold applyBid.
  match goal with |- context [withDeclarations ?x] =>
    destruct (withDeclarations_tricks x) as (Hc & Ht & Hp) end.
  apply engineInv_same_tricks; [by rewrite Hc|by rewrite Ht|].
  intros p. rewrite Hp. simpl.
  destruct (bool_decide (0 < length (talon s))); rewrite !getP_setP;
    destruct (decide (p = call_playerId bid)) as [->|Hne]; simpl;
    rewrite ?decide_True by done; simpl; rewrite ?length_app; lia.
Qed.

Lemma findCard_Some h c i : findCard h c = Some i → h !! i = Some c.
Proof.
  unfold findCard. intros Hf. apply fmap_Some in Hf as ([j x] & Hfind & ->).
  apply list_find_Some in Hfind as (Hl & [Hs Hr] & _). simpl.
  rewrite Hl. f_equal. destruct x, c; simpl in *; congruence.
Qed.

Lemma findCard_None h c : findCard h c = None ↔ c ∉ h.
Proof.
  unfold findCard. rewrite fmap_None, list_find_None, Forall_forall. split.
  - intros Hall Hin. by apply (Hall c Hin).
  - intros Hnot x Hx [Hs Hr]. apply Hnot.
    replace c with x; [done|]. destruct x, c; simpl in *; congruence.
Qed.

Lemma playedBy_push p t pid c w pts :
  playedBy p (mkTrick (cards t ++ [mkPlayed pid c]) w pts)
  = playedBy p t + (if decide (p = pid) then 1 else 0).
Proof.
  unfold playedBy. simpl. rewrite filter_app, length_app. f_equal.
  destruct (decide (p = pid)) as [->|Hne].
  - by rewrite filter_cons_True.
  - rewrite filter_cons_False; [done|]. simpl. congruence.
Qed.

(** The first half of [applyMove] never throws for a card that was found,
    and keeps the invariant. *)
Lemma afterTrick_inv s move st i :
  engineInv s →
  findCard (hand (getP (move_playerId move) (players s))) (move_card move) = Some i →
  ∃ mid, afterTrick s move st i = Some mid ∧ engineInv mid.
Proof.
  intros ((Hlen & Hw & Hpts) & Hsettled & Hcount) Hfind.
  apply findCard_Some in Hfind.
  assert (Hdel : ∀ p,
    length (hand (getP p (setP (move_playerId move)
              (withHand (delete i (hand (getP (move_playerId move) (players s))))
                        (getP (move_playerId move) (players s))) (players s))))
    + (if decide (p = move_playerId move) then 1 else 0)
    = length (hand (getP p (players s)))).
  { intros p. rewrite getP_setP. destruct (decide _) as [->|]; simpl; [|lia].
    rewrite length_delete by eauto.
    apply lookup_lt_Some in Hfind. lia. }
  unfold afterTrick.
  set (pushed := mkTrick (cards (currentTrick s) ++ [mkPlayed (move_playerId move) (move_card move)])
                         (winner (currentTrick s)) (points (currentTrick s))).
  assert (Hpl : length (cards pushed) = S (length (cards (currentTrick s)))).
  { unfold pushed. simpl. rewrite length_app. simpl. lia. }
  destruct (decide (length (cards pushed) = 4)) as [H4|H4].
  - destruct (evaluateTrick_is_Some pushed (trump s)) as [w Hev].
    { intros Hnil. rewrite Hnil in H4. done. }
    rewrite Hev. simpl. eexists. split; [done|].
    unfold engineInv, seatCards. simpl. split; [|split].
    + unfold trickOpen. simpl. repeat split. lia.
    + apply Forall_app. split; [done|]. apply Forall_singleton.
      unfold trickSettled. simpl. repeat split; [done|by eexists|].
      intros tr. by apply scoreTrick_cards.
    + intros p. specialize (Hcount p). specialize (Hdel p). unfold seatCards in Hcount.
      rewrite sum_list_with_app. simpl.
      rewrite playedBy_push. change (playedBy p emptyTrick) with 0. lia.
  - simpl. eexists. split; [done|].
    unfold engineInv, seatCards. simpl. split; [|split].
    + unfold trickOpen. fold pushed. repeat split; [lia|done|done].
    + done.
    + intros p. specialize (Hcount p). specialize (Hdel p). unfold seatCards in Hcount.
      fold pushed. unfold pushed. rewrite playedBy_push. lia.
Qed.

Lemma sum_list_zero_nil (l : list Trick) p :
  0 < sum_list_with (playedBy p) l → l ≠ [].
Proof. destruct l; simpl; [lia|done]. Qed.

(** The second half: when the hand of the seat that played is empty in
    phase [play], the seat has put at least 8 cards into tricks, so there is
    a finished trick for the last-trick bonus. *)
Lemma afterHand_inv mid move st :
  engineInv mid →
  ∃ s', afterHand mid move st = Some s' ∧ engineInv s'.
Proof.
  intros Hinv. unfold afterHand.
  destruct (bool_decide (length _ = 0) && bool_decide (phase mid = play)) eqn:Hcond;
    [|by eexists].
  apply andb_prop in Hcond as [Hempty _]. apply bool_decide_eq_true in Hempty.
  assert (Hlast : is_Some (last (tricks mid))).
  { destruct Hinv as ((Hlen & _) & _ & Hcount).
    specialize (Hcount (move_playerId move)). unfold seatCards in Hcount.
    pose proof (playedBy_le (move_playerId move) (currentTrick mid)).
    assert (tricks mid ≠ []) as Hne
      by (apply (sum_list_zero_nil _ (move_playerId move)); lia).
    destruct (tricks mid) as [|t l] using rev_ind; [done|].
    rewrite last_snoc. by eexists. }
  assert (Hscore : is_Some (endOfHandScoring (withPhase scoring mid))).
  { unfold endOfHandScoring, preBonusPoints. simpl.
    destruct (trump mid); [|by eexists]. destruct (declarer mid); [|by eexists].
    destruct Hlast as [t ->]. simpl.
    destruct (lastTrickBonus (config mid)); by eexists. }
  destruct Hscore as [scores ->]. simpl. eexists. split; [done|].
  by apply (engineInv_same_tricks mid).
Qed.

Lemma applyMove_inv s move st s' :
  engineInv s → applyMove s move st = Some s' → engineInv s'.
Proof.
  intros Hinv. unfold applyMove.
  destruct (findCard _ _) as [i|] eqn:Hfind; [|done].
  destruct (afterTrick_inv s move st i Hinv Hfind) as (mid & -> & Hmid). simpl.
  destruct (afterHand_inv mid move st Hmid) as (s'' & -> & Hs''). by intros [= <-].
Qed.

Lemma applyMove_is_Some s move st :
  engineInv s →
  move_card move ∈ hand (getP (move_playerId move) (players s)) →
  is_Some (applyMove s move st).
Proof.
  intros Hinv Hin. unfold applyMove.
  destruct (findCard _ _) as [i|] eqn:Hfind; [|by apply findCard_None in Hfind].
  destruct (afterTrick_inv s move st i Hinv Hfind) as (mid & -> & Hmid). simpl.
  destruct (afterHand_inv mid move st Hmid) as (s'' & -> & _). by eexists.
Qed.

Lemma createInitialState_tricks rnd cfg :
  currentTrick (createInitialState rnd cfg) = emptyTrick ∧
  tricks (createInitialState rnd cfg) = [].
Proof.
  unfold createInitialState.
  split; cbv beta zeta iota delta [currentTrick tricks]; reflexivity.
Qed.

Lemma engineInv_init rnd cfg : engineInv (createInitialState rnd cfg).
Proof.
  destruct (createInitialState_tricks rnd cfg) as [Hc Ht].
  unfold engineInv, seatCards. rewrite Hc, Ht. split; [|split].
  - unfold trickOpen. simpl. repeat split. lia.
  - done.
  - intros p. rewrite createInitialState_hand.
    rewrite dealCards_length by apply generateDeck_length.
    unfold playedBy. simpl. lia.
Qed.

Lemma engineInv_transition s s' : engineInv s → transition s s' → engineInv s'.
Proof.
  intros Hinv [move st s'' Hmove|bid st|pid st|su st].
  - by eapply applyMove_inv.
  - by apply engineInv_applyBid.
  - by apply engineInv_applyPass.
  - by apply engineInv_applyDealerChoice.
Qed.

Lemma reachable_engineInv s : reachable s → engineInv s.
Proof.
  induction 1 as [rnd cfg _|s s' _ IH Hstep].
  - apply engineInv_init.
  - by eapply engineInv_transition.
Qed.

Lemma afterTrick_tricks s move st i mid :
  afterTrick s move st i = Some mid →
  tricks mid = tricks s
  ∨ ∃ t, tricks mid = tricks s ++ [t] ∧ length (cards t) = 4 ∧ currentTrick mid = emptyTrick.
Proof.
  unfold afterTrick. destruct (decide _) as [H4|H4].
  - destruct (evaluateTrick _ _) as [w|]; [|done]. simpl. intros [= <-]. simpl.
    right. eexists. split; [done|]. by split.
  - intros [= <-]. by left.
Qed.

Lemma afterHand_tricks mid move st s' :
  afterHand mid move st = Some s' →
  tricks s' = tricks mid ∧ currentTrick s' = currentTrick mid.
Proof.
  unfold afterHand. destruct (_ && _).
  - destruct (endOfHandScoring _); [|done]. simpl. by intros [= <-].
  - by intros [= <-].
Qed.

Lemma transition_tricks s s' :
  transition s s' →
  tricks s' = tricks s
  ∨ ∃ t, tricks s' = tricks s ++ [t] ∧ length (cards t) = 4 ∧ currentTrick s' = emptyTrick.
Proof.
  intros [move st s'' Hmove|bid st|pid st|su st].
  - unfold applyMove in Hmove. destruct (findCard _ _) as [i|]; [|done].
    destruct (afterTrick s move st i) as [mid|] eqn:Hmid; [|done]. simpl in Hmove.
    destruct (afterHand_tricks mid move st s'' Hmove) as [-> ->].
    by apply (afterTrick_tricks s move st i).
  - left. unfold applyBid. by rewrite (proj1 (proj2 (withDeclarations_tricks _))).
  - by left.
  - left. unfold applyDealerChoice. by rewrite (proj1 (proj2 (withDeclarations_tricks _))).
Qed.

(** C9. In every reachable state, and so after every transition from a
    reachable state, every trick of the state, the current one and the
    finished ones, has at most 4 cards, has a winner exactly when it has 4
    cards, carries the points of [scoreTrick] when it has 4 cards and the
    initial 0 otherwise; and a transition either leaves the history of
    finished tricks as it was or appends one 4-card trick to it and leaves
    the current trick empty. *)
Theorem tricks_well_formed_invariant (s : GameState) :
  reachable s →
  tricksWellFormed s ∧
  length (cards (currentTrick s)) ≤ 4 ∧
  ∀ s', transition s s' →
    tricksWellFormed s' ∧
    length (cards (currentTrick s')) ≤ 4 ∧
    (tricks s' = tricks s
     ∨ ∃ t, tricks s' = tricks s ++ [t] ∧ length (cards t) = 4 ∧
            currentTrick s' = emptyTrick).
Proof.
  intros Hreach. pose proof (reachable_engineInv s Hreach) as Hinv.
  split; [by apply engineInv_tricksWellFormed|].
  split; [destruct Hinv as ((Hlen & _) & _); lia|].
  intros s' Hstep.
  pose proof (engineInv_transition s s' Hinv Hstep) as Hinv'.
  split; [by apply engineInv_tricksWellFormed|].
  split; [destruct Hinv' as ((Hlen & _) & _); lia|].
  by apply transition_tricks.
Qed.

Lemma reachable_playCards s ms s' :
  reachable s → playCards s ms = Some s' → reachable s'.
Proof.
  intros Hs. revert s'. induction ms as [|m ms IH] using rev_ind; intros s'.
  - by intros [= <-].
  - unfold playCards. rewrite foldl_app. simpl. fold (playCards s ms).
    destruct (playCards s ms) as [mid|]; [|done]. simpl. intros Hmove.
    apply (reach_step mid); [by apply IH|]. by eapply trans_move.
Qed.

Lemma reachable_dealtGame : reachable dealtGame.
Proof. apply reach_init. intros i. unfold keepOrder. lia. Qed.

Lemma reachable_southToFollowState : reachable southToFollowState.
Proof.
  apply (reachable_playCards spadesBid
           [mkMove west (mkCard clubs R10); mkMove north (mkCard diamonds RA);
            mkMove east (mkCard diamonds R10)]).
  - apply (reach_step dealtGame); [apply reachable_dealtGame|apply trans_bid].
  - by vm_compute.
Qed.

Lemma tricks_well_formed_invariant_witness :
  reachable southToFollowState ∧
  length (cards (currentTrick southToFollowState)) = 3 ∧
  tricksWellFormed southToFollowState ∧
  length (cards (currentTrick southToFollowState)) ≤ 4 ∧
  ∀ s', transition southToFollowState s' →
    tricksWellFormed s' ∧
    length (cards (currentTrick s')) ≤ 4 ∧
    (tricks s' = tricks southToFollowState
     ∨ ∃ t, tricks s' = tricks southToFollowState ++ [t] ∧ length (cards t) = 4 ∧
            currentTrick s' = emptyTrick).
Proof.
  split; [apply reachable_southToFollowState|]. split; [by vm_compute|].
  apply (tricks_well_formed_invariant southToFollowState).
  apply reachable_southToFollowState.
Defined.

(** ** Rejected moves *)

(** C5, as amended. In every reachable state [applyMove] throws exactly
    when the submitted card is not in the hand of the seat that plays it;
    a card of the hand is accepted whether or not [legalMoves] lists it. *)
Theorem applyMove_rejects_iff_not_in_hand (s : GameState) (move : Move) (st : MoveStamps) :
  reachable s →
  (applyMove s move st = None
   ↔ move_card move ∉ hand (getP (move_playerId move) (players s))) ∧
  (move_card move ∈ hand (getP (move_playerId move) (players s)) →
   move_card move ∉ legalMoves s (move_playerId move) →
   is_Some (applyMove s move st)).
Proof.
  intros Hreach. pose proof (reachable_engineInv s Hreach) as Hinv. split.
  - split.
    + intros Hnone Hin.
      destruct (applyMove_is_Some s move st Hinv Hin) as [s' Hs'].
      by rewrite Hs' in Hnone.
    + intros Hnot. unfold applyMove.
      by rewrite (proj2 (findCard_None _ _) Hnot).
  - intros Hin _. by apply applyMove_is_Some.
Qed.

Lemma applyMove_rejects_iff_not_in_hand_witness :
  reachable southToFollowState ∧
  (applyMove southToFollowState (mkMove south (mkCard spades RA)) stamps0 = None
   ↔ mkCard spades RA ∉ hand (getP south (players southToFollowState))) ∧
  (mkCard spades RA ∈ hand (getP south (players southToFollowState)) →
   mkCard spades RA ∉ legalMoves southToFollowState south →
   is_Some (applyMove southToFollowState (mkMove south (mkCard spades RA)) stamps0)).
Proof.
  split; [apply reachable_southToFollowState|].
  apply (applyMove_rejects_iff_not_in_hand southToFollowState
           (mkMove south (mkCard spades RA)) stamps0).
  apply reachable_southToFollowState.
Defined.

(** C5 as stated fails. In [southToFollowState] clubs are led and south
    holds four clubs, so [legalMoves] lists south's clubs only. The ace of
    hearts is in south's hand and not in [legalMoves]; [applyMove] accepts
    it. So rejection is not equivalent to the card being outside
    [legalMoves] or outside the hand. *)
Lemma applyMove_accepts_card_outside_legalMoves :
  legalMoves southToFollowState south
  = [mkCard clubs RA; mkCard clubs RK; mkCard clubs RQ; mkCard clubs RJ] ∧
  mkCard hearts RA ∈ hand (getP south (players southToFollowState)) ∧
  (mkCard hearts RA ∉ legalMoves southToFollowState south) ∧
  is_Some (applyMove southToFollowState (mkMove south (mkCard hearts RA)) stamps0) ∧
  ¬ (applyMove southToFollowState (mkMove south (mkCard hearts RA)) stamps0 = None
     ↔ mkCard hearts RA ∉ legalMoves southToFollowState south
       ∨ mkCard hearts RA ∉ hand (getP south (players southToFollowState))).
Proof.
  assert (Hsome : is_Some (applyMove southToFollowState
                             (mkMove south (mkCard hearts RA)) stamps0)).
  { destruct (applyMove _ _ _) eqn:Hm; [by eexists|by vm_compute in Hm]. }
  assert (Hnot : mkCard hearts RA ∉ legalMoves southToFollowState south)
    by (apply (bool_decide_unpack _); by vm_compute).
  split; [by vm_compute|].
  split; [apply (bool_decide_unpack _); by vm_compute|].
  split; [done|]. split; [done|].
  intros [_ Hback]. destruct Hsome as [s' Hs'].
  pose proof (Hback (or_introl Hnot)) as Hnone. congruence.
Qed.
(** * Further properties of the code *)

(** ** [Array.prototype.sort] as modelled by [sortBy] *)

Section SortByKey.
Context {A : Type} (cmp : A → A → Z) (key : A → Z).
Hypothesis cmp_key : ∀ x y, (cmp x y ≤ 0 ↔ key x ≤ key y)%Z.

Lemma insertBy_sorted x l :
  StronglySorted (fun a b => (key a ≤ key b)%Z) l →
  StronglySorted (fun a b => (key a ≤ key b)%Z) (insertBy cmp x l).
Proof.
  induction 1 as [|y l Hl IH Hall]; simpl.
  - repeat constructor.
  - destruct (decide _) as [Hle|Hgt].
    + apply cmp_key in Hle. constructor; [by constructor|].
      constructor; [done|]. eapply Forall_impl; [exact Hall|]. simpl. intros; lia.
    + assert (key y ≤ key x)%Z by (rewrite cmp_key in Hgt; lia).
      constructor; [done|].
      rewrite insertBy_perm. by constructor.
Qed.

Lemma sortBy_sorted l : StronglySorted (fun a b => (key a ≤ key b)%Z) (sortBy cmp l).
Proof.
  induction l as [|x l IH]; simpl; [constructor|]. by apply insertBy_sorted.
Qed.

(** The first element after sorting is an element of the array with the
    least key. *)
Lemma head_sortBy l x :
  head (sortBy cmp l) = Some x → x ∈ l ∧ ∀ y, y ∈ l → (key x ≤ key y)%Z.
Proof.
  intros Hhead. pose proof (sortBy_sorted l) as Hs.
  destruct (sortBy cmp l) as [|z l'] eqn:Hl; [done|]. injection Hhead as ->.
  assert (Hin : ∀ y, y ∈ l ↔ y ∈ x :: l') by (intros y; by rewrite <- Hl, elem_of_sortBy).
  split; [apply Hin; by left|].
  intros y Hy. apply Hin in Hy. apply StronglySorted_inv in Hs as [_ Hall].
  apply elem_of_cons in Hy as [->|Hy]; [lia|].
  rewrite Forall_forall in Hall. by apply Hall.
Qed.

Lemma head_sortBy_is_Some l : l ≠ [] → is_Some (head (sortBy cmp l)).
Proof.
  intros Hne. destruct (sortBy cmp l) eqn:Hl; [|by eexists].
  apply (f_equal length) in Hl. rewrite sortBy_length in Hl. by destruct l.
Qed.
End SortByKey.

Lemma handOrder_handKey a b : (handOrder a b ≤ 0 ↔ handKey a ≤ handKey b)%Z.
Proof.
  assert (bool_decide (handOrder a b ≤ 0)%Z = bool_decide (handKey a ≤ handKey b)%Z) as Hb
    by (destruct a as [[] []], b as [[] []]; reflexivity).
  split; intros H.
  - apply (bool_decide_unpack _). rewrite <- Hb. by apply bool_decide_pack.
  - apply (bool_decide_unpack _). rewrite Hb. by apply bool_decide_pack.
Qed.

(** X3. Every hand [dealCards] returns is in display order: for any two
    cards of a hand the comparator of the sort puts the earlier one first,
    that is, suits come in alphabetical order of their names and within a
    suit the ranks fall. *)
Theorem dealCards_hands_sorted (d : list Card) (p : PlayerId) :
  StronglySorted (fun a b => (handOrder a b ≤ 0)%Z) (getP p (dealCards d)) ∧
  StronglySorted (fun a b => (handKey a ≤ handKey b)%Z) (getP p (dealCards d)).
Proof.
  assert (Hk : StronglySorted (fun a b => (handKey a ≤ handKey b)%Z) (getP p (dealCards d))).
  { rewrite dealCards_sorted. apply (sortBy_sorted handOrder handKey handOrder_handKey). }
  split; [|done].
  induction Hk as [|x l Hl IH Hall]; constructor; [done|].
  eapply Forall_impl; [exact Hall|]. intros y Hy. by apply handOrder_handKey.
Qed.

(** ** The shuffle and the deal conserve the cards *)

Lemma swap_perm {A} (i j : nat) (l : list A) : swap i j l ≡ₚ l.
Proof.
  unfold swap. destruct (l !! i) as [x|] eqn:Hi; [|done].
  destruct (l !! j) as [y|] eqn:Hj; [|done].
  apply Permutation_inj. split; [by rewrite !length_insert|].
  exists (fun k => if decide (k = j) then i else if decide (k = i) then j else k).
  split.
  - intros a b. repeat case_decide; intros; subst; congruence.
  - intros k. pose proof (lookup_lt_Some _ _ _ Hi). pose proof (lookup_lt_Some _ _ _ Hj).
    destruct (decide (k = j)) as [->|Hkj].
    + rewrite list_lookup_insert_eq by (by rewrite length_insert). done.
    + rewrite list_lookup_insert_ne by done.
      destruct (decide (k = i)) as [->|Hki].
      * by rewrite list_lookup_insert_eq.
      * by rewrite list_lookup_insert_ne.
Qed.

Lemma shuffleFrom_perm rnd i d : shuffleFrom rnd i d ≡ₚ d.
Proof.
  revert d. induction i as [|i IH]; intros d; simpl; [done|].
  by rewrite IH, swap_perm.
Qed.

Lemma orderedDeck_NoDup : NoDup orderedDeck.
Proof. apply (bool_decide_unpack _). by vm_compute. Qed.

Lemma orderedDeck_complete c : c ∈ orderedDeck.
Proof. destruct c as [[] []]; apply (bool_decide_unpack _); by vm_compute. Qed.

(** X1. Whatever the random draws, [generateDeck] returns the 32 cards,
    each suit and rank once: a permutation of the deck as built, without
    repetition and with every card in it. *)
Theorem generateDeck_permutation (rnd : nat → nat) :
  generateDeck rnd ≡ₚ orderedDeck ∧
  NoDup (generateDeck rnd) ∧
  length (generateDeck rnd) = 32 ∧
  ∀ c, c ∈ generateDeck rnd.
Proof.
  assert (Hp : generateDeck rnd ≡ₚ orderedDeck) by apply shuffleFrom_perm.
  split; [done|]. split; [|split].
  - rewrite Hp. apply orderedDeck_NoDup.
  - apply generateDeck_length.
  - intros c. rewrite Hp. apply orderedDeck_complete.
Qed.

Lemma pop_Some {A} (l l' : list A) c : pop l = Some (c, l') → l = l' ++ [c].
Proof.
  unfold pop. destruct (last l) as [x|] eqn:Hlast; [|done]. intros [= <- <-].
  apply last_Some in Hlast as [k ->]. by rewrite removelast_last.
Qed.

Lemma dealOne_perm p st :
  handsCards (dealOne p st).1 ++ (dealOne p st).2 ≡ₚ handsCards st.1 ++ st.2.
Proof.
  unfold dealOne. destruct (pop st.2) as [[c d']|] eqn:Hpop; [|done].
  apply pop_Some in Hpop. rewrite Hpop. simpl. unfold handsCards.
  destruct p; simpl; solve_Permutation.
Qed.

Lemma dealFour_perm st p :
  handsCards (dealFour st p).1 ++ (dealFour st p).2 ≡ₚ handsCards st.1 ++ st.2.
Proof.
  change (dealFour st p) with (dealOne p (dealOne p (dealOne p (dealOne p st)))).
  by rewrite !dealOne_perm.
Qed.

Lemma dealRound_perm st :
  handsCards (dealRound st).1 ++ (dealRound st).2 ≡ₚ handsCards st.1 ++ st.2.
Proof.
  change (dealRound st)
    with (dealFour (dealFour (dealFour (dealFour st north) east) south) west).
  by rewrite !dealFour_perm.
Qed.

Lemma dealtHands_undealt_perm d : handsCards (dealtHands d) ++ undealt d ≡ₚ d.
Proof.
  unfold dealtHands, undealt.
  change (Nat.iter 2 dealRound (mkPerPlayer [] [] [] [], d))
    with (dealRound (dealRound (mkPerPlayer [] [] [] [], d))).
  by rewrite !dealRound_perm.
Qed.

Lemma handsCards_dealCards d : handsCards (dealCards d) ≡ₚ handsCards (dealtHands d).
Proof.
  unfold dealCards, dealtHands, handsCards, mapP.
  cbv beta zeta iota delta [at_north at_east at_south at_west].
  by rewrite !sortBy_perm.
Qed.

Lemma handsCards_length (hs : PerPlayer (list Card)) :
  length (handsCards hs)
  = length (getP north hs) + length (getP east hs)
    + length (getP south hs) + length (getP west hs).
Proof. destruct hs. unfold handsCards. simpl. rewrite !length_app. lia. Qed.

Lemma dealCards_perm_32 (d : list Card) :
  length d = 32 → handsCards (dealCards d) ≡ₚ d.
Proof.
  intros Hlen.
  assert (Hall : handsCards (dealCards d) ++ undealt d ≡ₚ d)
    by (rewrite handsCards_dealCards; apply dealtHands_undealt_perm).
  assert (Hu : undealt d = []).
  { apply length_zero_iff_nil.
    pose proof (Permutation_length Hall) as HL.
    rewrite length_app, handsCards_length in HL.
    rewrite !dealCards_length in HL by done. lia. }
  rewrite Hu in Hall. by rewrite app_nil_r in Hall.
Qed.

(** X2. [dealCards] neither loses nor duplicates a card: the four hands
    together with the cards left unpopped are a permutation of the deck it
    was given, and for a deck of 32 cards the four hands alone are. *)
Theorem dealCards_conserves_cards (d : list Card) :
  handsCards (dealCards d) ++ undealt d ≡ₚ d ∧
  (length d = 32 → handsCards (dealCards d) ≡ₚ d).
Proof.
  split.
  - rewrite handsCards_dealCards. apply dealtHands_undealt_perm.
  - apply dealCards_perm_32.
Qed.

Lemma dealCards_conserves_cards_witness :
  length orderedDeck = 32 ∧ handsCards (dealCards orderedDeck) ≡ₚ orderedDeck.
Proof.
  split; [reflexivity|].
  apply (proj2 (dealCards_conserves_cards orderedDeck)). reflexivity.
Defined.

(** ** Trick points and trick winners *)

Lemma CARD_VALUES_bounds r : (0 ≤ CARD_VALUES r ≤ 11)%Z.
Proof. destruct r; simpl; lia. Qed.

Lemma scoreTrick_sum t tr :
  scoreTrick t tr = foldr (fun pc acc => (CARD_VALUES (rank (card pc)) + acc)%Z) 0%Z (cards t).
Proof.
  unfold scoreTrick.
  assert (Hgen : ∀ l acc,
    foldl (fun pts pc =>
             (pts + (if bool_decide (Some (suit (card pc)) = tr)
                     then CARD_VALUES else CARD_VALUES) (rank (card pc)))%Z) acc l
    = (acc + foldr (fun pc a => (CARD_VALUES (rank (card pc)) + a)%Z) 0%Z l)%Z).
  { induction l as [|pc l IH]; intros acc; simpl; [lia|].
    rewrite IH. destruct (bool_decide _); lia. }
  rewrite Hgen. lia.
Qed.

Lemma scoreTrick_range (t : Trick) (tr : option Suit) :
  (0 ≤ scoreTrick t tr ≤ 11 * Z.of_nat (length (cards t)))%Z.
Proof.
  rewrite scoreTrick_sum. induction (cards t) as [|pc l IH]; simpl; [lia|].
  pose proof (CARD_VALUES_bounds (rank (card pc))). lia.
Qed.

(** X4. The points of a trick do not depend on the trump suit, are never
    negative and are at most 11 per card: at most 44 for a trick of four
    cards. *)
Theorem scoreTrick_bounds (t : Trick) (tr tr' : option Suit) :
  scoreTrick t tr = scoreTrick t tr' ∧
  (0 ≤ scoreTrick t tr ≤ 11 * Z.of_nat (length (cards t)))%Z ∧
  (length (cards t) = 4 → (scoreTrick t tr ≤ 44)%Z).
Proof.
  pose proof (scoreTrick_range t tr) as Hb.
  split; [by rewrite !scoreTrick_sum|]. split; [done|].
  intros H4. rewrite H4 in Hb. lia.
Qed.

Section TrumpInTrick.
Variable tr : Suit.

Lemma cardBeats_trump_always c best flag :
  suit c = tr → (suit best = tr → flag = true) →
  cardBeats c best (Some tr) flag = true.
Proof.
  intros Hc Hflag. unfold cardBeats, isTrump. simpl.
  rewrite (bool_decide_eq_true_2 (Some (suit c) = Some tr)) by congruence.
  destruct (decide (suit best = tr)) as [Hb|Hb].
  - rewrite (bool_decide_eq_true_2 (Some (suit best) = Some tr)) by congruence.
    simpl. by rewrite Hflag.
  - rewrite (bool_decide_eq_false_2 (Some (suit best) = Some tr)) by congruence. done.
Qed.

Lemma cardBeats_plain_never c best flag :
  suit c ≠ tr → suit best = tr → cardBeats c best (Some tr) flag = false.
Proof.
  intros Hc Hb. unfold cardBeats, isTrump. simpl.
  rewrite (bool_decide_eq_false_2 (Some (suit c) = Some tr)) by congruence.
  rewrite (bool_decide_eq_true_2 (Some (suit best) = Some tr)) by congruence. done.
Qed.

Lemma cardBeats_plain c best flag :
  suit c ≠ tr → suit best ≠ tr →
  cardBeats c best (Some tr) flag
  = bool_decide (suit c = suit best)
    && bool_decide (getRankIndex (rank c) > getRankIndex (rank best))%Z.
Proof.
  intros Hc Hb. unfold cardBeats, isTrump. simpl.
  rewrite (bool_decide_eq_false_2 (Some (suit c) = Some tr)) by congruence.
  rewrite (bool_decide_eq_false_2 (Some (suit best) = Some tr)) by congruence.
  simpl. by destruct (bool_decide (suit c = suit best)).
Qed.

Lemma evalStep_trump st cur :
  flagTracksTrump tr st → suit (card cur) = tr →
  evalStep (Some tr) st cur = mkBest (card cur) (playerId cur) true.
Proof.
  intros Hf Hc. unfold evalStep.
  rewrite cardBeats_trump_always; [|done|].
  - rewrite (bool_decide_eq_true_2 (Some (suit (card cur)) = Some tr)) by congruence.
    by destruct (firstTrump st).
  - intros Hb. rewrite Hf. by apply bool_decide_eq_true_2.
Qed.

Lemma evalStep_flagTracksTrump st cur :
  flagTracksTrump tr st → flagTracksTrump tr (evalStep (Some tr) st cur).
Proof.
  intros Hf. destruct (decide (suit (card cur) = tr)) as [Hc|Hc].
  - rewrite evalStep_trump by done. unfold flagTracksTrump. simpl.
    by rewrite bool_decide_eq_true_2.
  - destruct (decide (suit (bestCard st) = tr)) as [Hb|Hb].
    + by rewrite evalStep_keeps by (by apply cardBeats_plain_never).
    + unfold evalStep. destruct (cardBeats _ _ _ _); [|done].
      unfold flagTracksTrump in *. simpl. rewrite Hf.
      rewrite (bool_decide_eq_false_2 (Some (suit (card cur)) = Some tr)) by congruence.
      simpl. by rewrite !bool_decide_eq_false_2 by done.
Qed.

Lemma evalLoop_flagTracksTrump rest st :
  flagTracksTrump tr st → flagTracksTrump tr (foldl (evalStep (Some tr)) st rest).
Proof.
  revert st. induction rest as [|x rest IH]; intros st Hf; simpl; [done|].
  by apply IH, evalStep_flagTracksTrump.
Qed.

Lemma evalLoop_plain_keeps_trump rest st :
  suit (bestCard st) = tr → Forall (fun pc => suit (card pc) ≠ tr) rest →
  foldl (evalStep (Some tr)) st rest = st.
Proof.
  intros Hb Hall. induction Hall as [|x rest Hx _ IH]; simpl; [done|].
  by rewrite evalStep_keeps by (by apply cardBeats_plain_never).
Qed.

Lemma evalLoop_last_trump rest st w :
  flagTracksTrump tr st →
  last (filter (fun pc => suit (card pc) = tr) rest) = Some w →
  foldl (evalStep (Some tr)) st rest = mkBest (card w) (playerId w) true.
Proof.
  intros Hf. induction rest as [|x rest IH] using rev_ind; [done|].
  rewrite filter_app, foldl_app.
  destruct (decide (suit (card x) = tr)) as [Hx|Hx].
  - rewrite filter_cons_True, filter_nil by done. simpl. rewrite last_snoc. intros [= <-].
    apply evalStep_trump; [by apply evalLoop_flagTracksTrump|done].
  - rewrite filter_cons_False, filter_nil by done. simpl. rewrite app_nil_r. intros Hlast.
    rewrite (IH Hlast). apply evalStep_keeps. apply cardBeats_plain_never; [done|].
    simpl. apply last_Some_elem_of in Hlast.
    by apply list_elem_of_filter in Hlast as [? _].
Qed.

(** X5. When a trick holds at least one trump, [evaluateTrick] returns the
    seat that played the last trump of the trick, whatever the ranks: the
    flag, once set, makes every further trump beat the best card. *)
Theorem evaluateTrick_last_trump_wins (trick : Trick) (w : Played) :
  last (filter (fun pc => suit (card pc) = tr) (cards trick)) = Some w →
  evaluateTrick trick (Some tr) = Some (playerId w).
Proof.
  destruct (cards trick) as [|lead rest] eqn:Hc; [done|].
  rewrite (evaluateTrick_loop (Some tr) trick lead rest Hc).
  assert (Hinit : flagTracksTrump tr (evalInit (Some tr) lead)).
  { unfold flagTracksTrump, evalInit. simpl.
    destruct (decide (suit (card lead) = tr)).
    - by rewrite !bool_decide_eq_true_2 by congruence.
    - by rewrite !bool_decide_eq_false_2 by congruence. }
  destruct (last (filter (fun pc => suit (card pc) = tr) rest)) as [w'|] eqn:Hrest.
  - rewrite (evalLoop_last_trump rest _ w' Hinit Hrest).
    destruct (decide (suit (card lead) = tr)) as [Hl|Hl].
    + rewrite filter_cons_True by done.
      rewrite last_cons, Hrest. by intros [= <-].
    + rewrite filter_cons_False by done. rewrite Hrest. by intros [= <-].
  - apply last_None in Hrest.
    destruct (decide (suit (card lead) = tr)) as [Hl|Hl].
    + rewrite filter_cons_True by done. rewrite Hrest. simpl. intros [= <-].
      rewrite evalLoop_plain_keeps_trump; [done|done|].
      apply Forall_forall. intros x Hx Hxt.
      assert (x ∈ filter (fun pc => suit (card pc) = tr) rest)
        by (by apply list_elem_of_filter).
      rewrite Hrest in H. by apply elem_of_nil in H.
    + rewrite filter_cons_False by done. by rewrite Hrest.
Qed.

Lemma evalLoop_plain rest st :
  suit (bestCard st) ≠ tr → Forall (fun pc => suit (card pc) ≠ tr) rest →
  let fin := foldl (evalStep (Some tr)) st rest in
  suit (bestCard fin) = suit (bestCard st) ∧
  (getRankIndex (rank (bestCard st)) ≤ getRankIndex (rank (bestCard fin)))%Z ∧
  (∀ c, c ∈ rest → suit (card c) = suit (bestCard st) →
        (getRankIndex (rank (card c)) ≤ getRankIndex (rank (bestCard fin)))%Z) ∧
  ((bestCard fin = bestCard st ∧ bestPlayer fin = bestPlayer st)
   ∨ ∃ w, w ∈ rest ∧ bestCard fin = card w ∧ bestPlayer fin = playerId w).
Proof.
  intros Hb Hall. revert st Hb.
  induction Hall as [|x rest Hx _ IH]; intros st Hb; simpl.
  - split; [done|]. split; [lia|]. split; [|by left].
    intros c Hc. by apply elem_of_nil in Hc.
  - assert (Hstep : (evalStep (Some tr) st x = st
                     ∧ ¬ (suit (card x) = suit (bestCard st)
                          ∧ getRankIndex (rank (card x)) > getRankIndex (rank (bestCard st)))%Z)
                    ∨ (evalStep (Some tr) st x = mkBest (card x) (playerId x) (firstTrump st)
                       ∧ suit (card x) = suit (bestCard st)
                       ∧ (getRankIndex (rank (card x)) > getRankIndex (rank (bestCard st)))%Z)).
    { unfold evalStep. rewrite cardBeats_plain by done.
      rewrite (bool_decide_eq_false_2 (Some (suit (card x)) = Some tr)) by congruence.
      simpl. do 2 case_bool_decide; simpl; [right; done|left..]; split; try done; tauto. }
    destruct Hstep as [[-> Hno]|(-> & Hs & Hr)].
    + destruct (IH st Hb) as (IHs & IHr & IHall & IHw).
      split; [done|]. split; [done|]. split.
      * intros c Hc Hcs. apply elem_of_cons in Hc as [->|Hc]; [|by apply IHall].
        assert (¬ (getRankIndex (rank (card x)) > getRankIndex (rank (bestCard st)))%Z)
          by tauto. lia.
      * destruct IHw as [?|(w & Hw & ?)]; [by left|right]. exists w. split; [by right|done].
    + destruct (IH (mkBest (card x) (playerId x) (firstTrump st))) as (IHs & IHr & IHall & IHw);
        [simpl; congruence|]. simpl in *.
      split; [congruence|]. split; [lia|]. split.
      * intros c Hc Hcs. apply elem_of_cons in Hc as [->|Hc]; [done|].
        apply IHall; [done|congruence].
      * right. destruct IHw as [[? ?]|(w & Hw & ?)].
        -- exists x. split; [by left|done].
        -- exists w. split; [by right|done].
Qed.

(** X6. When a trick holds no trump, [evaluateTrick] returns the seat of a
    card of the suit led that no card of that suit in the trick outranks;
    cards of other suits never win. *)
Theorem evaluateTrick_no_trump_highest_of_lead (trick : Trick) (lead : Played)
    (rest : list Played) :
  cards trick = lead :: rest →
  Forall (fun pc => suit (card pc) ≠ tr) (cards trick) →
  ∃ w, w ∈ cards trick ∧
       evaluateTrick trick (Some tr) = Some (playerId w) ∧
       suit (card w) = suit (card lead) ∧
       ∀ c, c ∈ cards trick → suit (card c) = suit (card lead) →
            (getRankIndex (rank (card c)) ≤ getRankIndex (rank (card w)))%Z.
Proof.
  intros Hc Hall. rewrite (evaluateTrick_loop (Some tr) trick lead rest Hc).
  rewrite Hc in Hall |- *. apply Forall_cons in Hall as [Hlead Hrest].
  destruct (evalLoop_plain rest (evalInit (Some tr) lead) Hlead Hrest)
    as (Hs & Hr & Hmax & Hw). simpl in *.
  assert (Hrank : ∀ w, bestCard (foldl (evalStep (Some tr)) (evalInit (Some tr) lead) rest) = card w →
            suit (card w) = suit (card lead) ∧
            ∀ c, c ∈ lead :: rest → suit (card c) = suit (card lead) →
                 (getRankIndex (rank (card c)) ≤ getRankIndex (rank (card w)))%Z).
  { intros w Hbw. rewrite <- Hbw. split; [done|].
    intros c Hin Hcs. apply elem_of_cons in Hin as [->|Hin]; [done|by apply Hmax]. }
  destruct Hw as [[Hbc Hbp]|(w & Hin & Hbc & Hbp)].
  - exists lead. split; [by left|]. split; [by rewrite Hbp|]. by apply Hrank.
  - exists w. split; [by right|]. split; [by rewrite Hbp|]. by apply Hrank.
Qed.
End TrumpInTrick.

(** ** The winner against the other cards of the trick *)





Lemma evaluateTrick_last_trump_wins_witness :
  last (filter (fun pc => suit (card pc) = spades) (cards trumpLedTrick))
  = Some (mkPlayed east (mkCard spades R7)) ∧
  evaluateTrick trumpLedTrick (Some spades) = Some east.
Proof.
  split; [reflexivity|].
  apply (evaluateTrick_last_trump_wins spades trumpLedTrick (mkPlayed east (mkCard spades R7))).
  reflexivity.
Defined.

Lemma evaluateTrick_no_trump_highest_of_lead_witness :
  Forall (fun pc => suit (card pc) ≠ diamonds) (cards trumpLedTrick) ∧
  ∃ w, w ∈ cards trumpLedTrick ∧
       evaluateTrick trumpLedTrick (Some diamonds) = Some (playerId w) ∧
       suit (card w) = spades ∧
       ∀ c, c ∈ cards trumpLedTrick → suit (card c) = spades →
            (getRankIndex (rank (card c)) ≤ getRankIndex (rank (card w)))%Z.
Proof.
  assert (Hall : Forall (fun pc => suit (card pc) ≠ diamonds) (cards trumpLedTrick))
    by (repeat constructor; discriminate).
  split; [exact Hall|].
  apply (evaluateTrick_no_trump_highest_of_lead diamonds trumpLedTrick
           (mkPlayed north (mkCard spades RA))
           [mkPlayed east (mkCard spades R7); mkPlayed south (mkCard hearts R7);
            mkPlayed west (mkCard hearts R8)]); [reflexivity|exact Hall].
Defined.

Lemma scoreTrick_bounds_witness :
  length (cards scenarioA) = 4 ∧ (scoreTrick scenarioA (Some spades) ≤ 44)%Z.
Proof.
  split; [reflexivity|].
  apply (proj2 (proj2 (scoreTrick_bounds scenarioA (Some spades) None))). reflexivity.
Defined.

(** ** Card conservation *)

Lemma handsCards_setP (p : PlayerId) (l : list Card) (hs : PerPlayer (list Card)) :
  handsCards (setP p l hs) ++ getP p hs ≡ₚ handsCards hs ++ l.
Proof. destruct hs, p; unfold handsCards; simpl; solve_Permutation. Qed.

Lemma mapP_setP {A B} (f : A → B) p x (r : PerPlayer A) :
  mapP f (setP p x r) = setP p (f x) (mapP f r).
Proof. destruct p; reflexivity. Qed.

Lemma handsCards_play (ps : PerPlayer Player) pid i c :
  hand (getP pid ps) !! i = Some c →
  handsCards (mapP hand (setP pid (withHand (delete i (hand (getP pid ps))) (getP pid ps)) ps))
  ++ [c] ≡ₚ handsCards (mapP hand ps).
Proof.
  intros Hi. rewrite mapP_setP. simpl.
  pose proof (handsCards_setP pid (delete i (hand (getP pid ps))) (mapP hand ps)) as Hp.
  rewrite getP_mapP in Hp.
  apply (Permutation_app_inv_r (delete i (hand (getP pid ps)))).
  rewrite <- Hp. rewrite <- (assoc_L (++)). simpl.
  apply Permutation_app_head. symmetry. by apply delete_Permutation.
Qed.

Lemma allCards_afterTrick s move st i mid :
  hand (getP (move_playerId move) (players s)) !! i = Some (move_card move) →
  afterTrick s move st i = Some mid →
  allCards mid ≡ₚ allCards s.
Proof.
  intros Hi. pose proof (handsCards_play (players s) _ _ _ Hi) as Hp.
  unfold afterTrick. destruct (decide _) as [H4|H4].
  - destruct (evaluateTrick _ _) as [w|]; [|done]. simpl. intros [= <-].
    unfold allCards. simpl. rewrite bind_app. simpl. rewrite fmap_app. simpl.
    rewrite <- Hp. solve_Permutation.
  - intros [= <-]. unfold allCards. simpl. rewrite fmap_app. simpl.
    rewrite <- Hp. solve_Permutation.
Qed.

Lemma allCards_afterHand mid move st s' :
  afterHand mid move st = Some s' → allCards s' = allCards mid.
Proof.
  unfold afterHand. destruct (_ && _).
  - destruct (endOfHandScoring _); [|done]. simpl. by intros [= <-].
  - by intros [= <-].
Qed.

Lemma allCards_withDeclarations s : allCards (withDeclarations s) = allCards s.
Proof. unfold withDeclarations. by destruct (declarationsEnabled (config s)). Qed.

Lemma handsCards_withDeclarer (ps : PerPlayer Player) p :
  handsCards (mapP hand (setP p (withDeclarer (getP p ps)) ps)) = handsCards (mapP hand ps).
Proof. by destruct ps, p. Qed.

Lemma handsCards_takeTalon (ps : PerPlayer Player) p (tl : list Card) :
  handsCards (mapP hand
    (setP p (withHand (hand (getP p (setP p (withDeclarer (getP p ps)) ps)) ++ tl)
                      (getP p (setP p (withDeclarer (getP p ps)) ps)))
          (setP p (withDeclarer (getP p ps)) ps)))
  ≡ₚ handsCards (mapP hand ps) ++ tl.
Proof. destruct ps, p; unfold handsCards; simpl; solve_Permutation. Qed.

Lemma allCards_transition s s' : transition s s' → allCards s' ≡ₚ allCards s.
Proof.
  intros [move st s'' Hmove|bid st|pid st|su st].
  - unfold applyMove in Hmove.
    destruct (findCard _ _) as [i|] eqn:Hfind; [|done]. apply findCard_Some in Hfind.
    destruct (afterTrick s move st i) as [mid|] eqn:Hmid; [|done]. simpl in Hmove.
    rewrite (allCards_afterHand mid move st s'' Hmove).
    by apply (allCards_afterTrick s move st i).
  - unfold applyBid. rewrite allCards_withDeclarations. unfold allCards. simpl.
    destruct (bool_decide (0 < length (talon s))) eqn:Htal.
    + rewrite handsCards_takeTalon. solve_Permutation.
    + by rewrite handsCards_withDeclarer.
  - done.
  - unfold applyDealerChoice. rewrite allCards_withDeclarations. unfold allCards. simpl.
    by rewrite handsCards_withDeclarer.
Qed.

Lemma createInitialState_deck_slice rnd cfg :
  deck (createInitialState rnd cfg)
  = slice (filter (fun c => cardToString c ∉ dealtStrings (dealCards (generateDeck rnd)))
                  (generateDeck rnd)) 0 (Some (-2)%Z).
Proof.
  unfold createInitialState. cbv beta zeta iota delta [deck]. reflexivity.
Qed.

Lemma createInitialState_hands rnd cfg :
  mapP hand (players (createInitialState rnd cfg)) = dealCards (generateDeck rnd).
Proof.
  unfold createInitialState.
  cbv beta zeta iota delta [players mapP at_north at_east at_south at_west hand].
  by destruct (dealCards (generateDeck rnd)).
Qed.

Lemma allCards_fresh s :
  currentTrick s = emptyTrick → tricks s = [] → talon s = [] → deck s = [] →
  allCards s = handsCards (mapP hand (players s)).
Proof.
  intros Hc Ht Htal Hd. unfold allCards. rewrite Hc, Ht, Htal, Hd. simpl.
  by rewrite app_nil_r.
Qed.

Lemma createInitialState_deck rnd cfg : deck (createInitialState rnd cfg) = [].
Proof.
  rewrite createInitialState_deck_slice.
  by rewrite remainingDeck_empty by apply generateDeck_length.
Qed.

Lemma allCards_init rnd cfg : allCards (createInitialState rnd cfg) ≡ₚ orderedDeck.
Proof.
  destruct (createInitialState_tricks rnd cfg) as [Hc Ht].
  rewrite (allCards_fresh _ Hc Ht (createInitialState_talon rnd cfg)
             (createInitialState_deck rnd cfg)).
  rewrite createInitialState_hands.
  rewrite (dealCards_perm_32 _ (generateDeck_length rnd)).
  apply shuffleFrom_perm.
Qed.

Lemma reachable_allCards (s : GameState) : reachable s → allCards s ≡ₚ orderedDeck.
Proof.
  induction 1 as [rnd cfg _|s s' _ IH Hstep].
  - apply allCards_init.
  - by rewrite (allCards_transition s s' Hstep).
Qed.

(** X7. In every reachable state the cards of the four hands, the current
    trick, the finished tricks, the talon and the deck are together the 32
    cards, each exactly once: no transition loses or duplicates a card. *)
Theorem reachable_cards_conserved (s : GameState) :
  reachable s →
  allCards s ≡ₚ orderedDeck ∧ NoDup (allCards s) ∧ length (allCards s) = 32.
Proof.
  intros Hreach.
  pose proof (reachable_allCards s Hreach) as Hp.
  split; [done|]. split.
  - rewrite Hp. apply orderedDeck_NoDup.
  - by rewrite Hp.
Qed.

Lemma reachable_cards_conserved_witness :
  reachable southToFollowState ∧
  allCards southToFollowState ≡ₚ orderedDeck ∧
  NoDup (allCards southToFollowState) ∧ length (allCards southToFollowState) = 32.
Proof.
  split; [apply reachable_southToFollowState|].
  apply (reachable_cards_conserved southToFollowState). apply reachable_southToFollowState.
Defined.

(** ** The event log, the bid and the scores along a run *)

Lemma afterTrick_events s move st i mid :
  afterTrick s move st i = Some mid →
  ∃ new, events mid = events s ++ new ∧ 1 ≤ length new ≤ 2.
Proof.
  unfold afterTrick. destruct (decide _).
  - destruct (evaluateTrick _ _) as [w|]; [|done]. simpl. intros [= <-]. simpl.
    eexists [_; _]. split; [by rewrite <- (assoc_L (++))|simpl; lia].
  - intros [= <-]. simpl. eexists [_]. split; [done|simpl; lia].
Qed.

Lemma afterHand_events mid move st s' :
  afterHand mid move st = Some s' →
  ∃ new, events s' = events mid ++ new ∧ length new ≤ 1.
Proof.
  unfold afterHand. destruct (_ && _).
  - destruct (endOfHandScoring _); [|done]. simpl. intros [= <-]. simpl.
    eexists [_]. split; [done|simpl; lia].
  - intros [= <-]. exists []. split; [by rewrite app_nil_r|simpl; lia].
Qed.

Lemma withDeclarations_events s : events (withDeclarations s) = events s.
Proof. unfold withDeclarations. by destruct (declarationsEnabled (config s)). Qed.

(** X8. The event log only grows: every transition keeps the events it
    found, in order, and appends at least one and at most three events. *)
Theorem transition_events_grow (s s' : GameState) :
  transition s s' →
  ∃ new, events s' = events s ++ new ∧ 1 ≤ length new ≤ 3.
Proof.
  intros [move st s'' Hmove|bid st|pid st|su st].
  - unfold applyMove in Hmove. destruct (findCard _ _) as [i|]; [|done].
    destruct (afterTrick s move st i) as [mid|] eqn:Hmid; [|done]. simpl in Hmove.
    destruct (afterTrick_events s move st i mid Hmid) as (n1 & He1 & Hn1).
    destruct (afterHand_events mid move st s'' Hmove) as (n2 & He2 & Hn2).
    exists (n1 ++ n2). split; [|rewrite length_app; lia].
    by rewrite He2, He1, <- (assoc_L (++)).
  - unfold applyBid. rewrite withDeclarations_events. simpl.
    eexists [_]. split; [done|simpl; lia].
  - eexists [_]. split; [done|simpl; lia].
  - unfold applyDealerChoice. rewrite withDeclarations_events. simpl.
    eexists [_]. split; [done|simpl; lia].
Qed.

Lemma transition_events_grow_witness :
  transition dealtGame (applyPass dealtGame west stamp0) ∧
  ∃ new, events (applyPass dealtGame west stamp0) = events dealtGame ++ new ∧
         1 ≤ length new ≤ 3.
Proof.
  split; [apply trans_pass|].
  apply (transition_events_grow dealtGame (applyPass dealtGame west stamp0)).
  apply trans_pass.
Defined.

Lemma withDeclarations_bid s :
  currentBid (withDeclarations s) = currentBid s ∧
  trump (withDeclarations s) = trump s ∧
  declarer (withDeclarations s) = declarer s ∧
  players (withDeclarations s) = players s.
Proof. unfold withDeclarations. by destruct (declarationsEnabled (config s)). Qed.

Lemma bidConsistent_withDeclarations s : bidConsistent s → bidConsistent (withDeclarations s).
Proof.
  unfold bidConsistent. by destruct (withDeclarations_bid s) as (-> & -> & -> & ->).
Qed.

Lemma isDeclarer_play (ps : PerPlayer Player) pid h p :
  isDeclarer (getP p (setP pid (withHand h (getP pid ps)) ps)) = isDeclarer (getP p ps).
Proof. rewrite getP_setP. by destruct (decide _) as [->|]. Qed.

Lemma bidConsistent_applyMove s move st s' :
  bidConsistent s → applyMove s move st = Some s' → bidConsistent s'.
Proof.
  intros Hb. unfold applyMove. destruct (findCard _ _) as [i|]; [|done].
  assert (Hmid : ∀ mid, afterTrick s move st i = Some mid → bidConsistent mid).
  { intros mid. unfold afterTrick. destruct (decide _).
    - destruct (evaluateTrick _ _); [|done]. simpl. intros [= <-].
      unfold bidConsistent in *. simpl. destruct (currentBid s); [|done].
      by rewrite isDeclarer_play.
    - intros [= <-]. unfold bidConsistent in *. simpl. destruct (currentBid s); [|done].
      by rewrite isDeclarer_play. }
  destruct (afterTrick s move st i) as [mid|]; [|done]. simpl.
  specialize (Hmid mid eq_refl). unfold afterHand. destruct (_ && _).
  - destruct (endOfHandScoring _); [|done]. simpl. by intros [= <-].
  - by intros [= <-].
Qed.

Lemma bidConsistent_transition s s' : bidConsistent s → transition s s' → bidConsistent s'.
Proof.
  intros Hb [move st s'' Hmove|bid st|pid st|su st].
  - by eapply bidConsistent_applyMove.
  - unfold applyBid. apply bidConsistent_withDeclarations. unfold bidConsistent. simpl.
    split; [done|]. split; [done|].
    destruct (bool_decide _); rewrite ?getP_setP, ?decide_True by done; simpl;
      rewrite ?getP_setP, ?decide_True by done; done.
  - done.
  - unfold applyDealerChoice. apply bidConsistent_withDeclarations. unfold bidConsistent. simpl.
    split; [done|]. split; [done|]. by rewrite getP_setP, decide_True.
Qed.

Lemma createInitialState_bid rnd cfg :
  currentBid (createInitialState rnd cfg) = None ∧
  trump (createInitialState rnd cfg) = None ∧
  declarer (createInitialState rnd cfg) = None.
Proof.
  unfold createInitialState.
  repeat split; cbv beta zeta iota delta [currentBid trump declarer]; reflexivity.
Qed.

(** X9. In every reachable state trump and declarer are both unset, with
    no standing bid, or both set, to the suit and the seat of the standing
    bid, and that seat is marked as declarer. *)
Theorem reachable_trump_declarer_together (s : GameState) :
  reachable s →
  (currentBid s = None ∧ trump s = None ∧ declarer s = None)
  ∨ (∃ b, currentBid s = Some b ∧ trump s = Some (call_suit b) ∧
          declarer s = Some (call_playerId b) ∧
          isDeclarer (getP (call_playerId b) (players s)) = true).
Proof.
  intros Hreach.
  assert (Hb : bidConsistent s).
  { induction Hreach as [rnd cfg _|s s' _ IH Hstep].
    - unfold bidConsistent.
      by destruct (createInitialState_bid rnd cfg) as (-> & -> & ->).
    - by eapply bidConsistent_transition. }
  unfold bidConsistent in Hb. destruct (currentBid s) as [b|].
  - right. exists b. by destruct Hb as (? & ? & ?).
  - left. by destruct Hb.
Qed.

Lemma reachable_trump_declarer_together_witness :
  reachable southToFollowState ∧
  ((currentBid southToFollowState = None ∧ trump southToFollowState = None ∧
    declarer southToFollowState = None)
   ∨ (∃ b, currentBid southToFollowState = Some b ∧
           trump southToFollowState = Some (call_suit b) ∧
           declarer southToFollowState = Some (call_playerId b) ∧
           isDeclarer (getP (call_playerId b) (players southToFollowState)) = true)).
Proof.
  split; [apply reachable_southToFollowState|].
  apply (reachable_trump_declarer_together southToFollowState).
  apply reachable_southToFollowState.
Defined.

(** ** Declarations *)

Lemma consecutiveFrom_le l : consecutiveFrom l ≤ Nat.max 1 (length l).
Proof.
  induction l as [|a [|b l] IH]; simpl in *; [lia|lia|].
  destruct (decide _); lia.
Qed.

Lemma sublist_take_elem {A} (l : list A) n x : x ∈ take n l → x ∈ l.
Proof. intros Hx. eapply elem_of_sublist; [done|apply sublist_take]. Qed.

Lemma runDeclaration_spec pid suffix d :
  d ∈ runDeclaration pid suffix →
  decl_playerId d = pid ∧ declarationShape d ∧ decl_type d ≠ bela ∧
  ∀ c, c ∈ decl_cards d → c ∈ suffix.
Proof.
  unfold runDeclaration. pose proof (consecutiveFrom_le suffix) as Hle.
  repeat case_bool_decide; intros Hd; try (by apply elem_of_nil in Hd);
    apply list_elem_of_singleton in Hd as ->; simpl;
    (split; [done|]); (split; [|split; [done|by apply sublist_take_elem]]);
    unfold declarationShape; simpl; rewrite length_take.
  - right; right; right. repeat split. lia.
  - right; right; left. repeat split. lia.
  - right; left. repeat split. lia.
Qed.

Lemma runDeclarations_spec pid l d :
  d ∈ runDeclarations pid l →
  decl_playerId d = pid ∧ declarationShape d ∧ decl_type d ≠ bela ∧
  ∀ c, c ∈ decl_cards d → c ∈ l.
Proof.
  induction l as [|a l IH]; simpl; [by intros ?%elem_of_nil|].
  intros [Hd|Hd]%elem_of_app.
  - by apply runDeclaration_spec in Hd.
  - destruct (IH Hd) as (? & ? & ? & Hin). repeat split; try done.
    intros c Hc. right. by apply Hin.
Qed.

Lemma checkDeclarations_elem (s : GameState) (p : PlayerId) (d : Declaration) :
  d ∈ checkDeclarations s p →
  decl_playerId d = p ∧ declarationShape d ∧
  (∀ c, c ∈ decl_cards d → c ∈ hand (getP p (players s))) ∧
  (∃ su, ∀ c, c ∈ decl_cards d → suit c = su) ∧
  (decl_type d = bela →
   ∀ c, c ∈ decl_cards d → Some (suit c) = trump s ∧ (rank c = RK ∨ rank c = RQ)).
Proof.
  unfold checkDeclarations. destruct (trump s) as [tr|]; [|by intros ?%elem_of_nil].
  destruct (declarationsEnabled (config s)); cbn [negb]; [|by intros ?%elem_of_nil].
  intros [Hd|Hd]%elem_of_app.
  - destruct (_ && _); [|by apply elem_of_nil in Hd].
    apply list_elem_of_singleton in Hd as ->. simpl.
    split; [done|]. split; [by left|].
    assert (Hin : ∀ c, c ∈ filter (fun c => rank c = RK ∨ rank c = RQ)
                            (filter (fun c => suit c = tr) (hand (getP p (players s)))) →
                  c ∈ hand (getP p (players s)) ∧ suit c = tr ∧ (rank c = RK ∨ rank c = RQ)).
    { intros c Hc. apply list_elem_of_filter in Hc as [Hr Hc].
      apply list_elem_of_filter in Hc as [Hs Hc]. done. }
    split; [intros c Hc; by apply Hin|]. split.
    + exists tr. intros c Hc. by apply Hin.
    + intros _ c Hc. destruct (Hin c Hc) as (_ & <- & Hr). done.
  - apply list_elem_of_bind in Hd as (su & Hd & _).
    apply runDeclarations_spec in Hd as (Hp & Hshape & Hnb & Hin).
    split; [done|]. split; [done|].
    assert (Hsub : ∀ c, c ∈ decl_cards d →
              c ∈ hand (getP p (players s)) ∧ suit c = su).
    { intros c Hc. apply Hin in Hc. apply elem_of_sortBy in Hc.
      apply list_elem_of_filter in Hc as [? ?]. done. }
    split; [intros c Hc; by apply Hsub|]. split.
    + exists su. intros c Hc. by apply Hsub.
    + intros Hb. done.
Qed.

(** X10. [checkDeclarations] returns nothing when declarations are switched
    off or trump is not fixed. Every declaration it returns belongs to the
    seat asked about, is a bela worth 20, a tierce of 3 cards worth 20, a
    quarte of 4 cards worth 50 or a quint of 5 cards worth 100, and is made
    of cards of that seat's hand, all of one suit (the trump suit, with
    king or queen, for a bela). *)
Theorem checkDeclarations_sound (s : GameState) (p : PlayerId) :
  (declarationsEnabled (config s) = false ∨ trump s = None → checkDeclarations s p = []) ∧
  ∀ d, d ∈ checkDeclarations s p →
    decl_playerId d = p ∧ declarationShape d ∧
    (∀ c, c ∈ decl_cards d → c ∈ hand (getP p (players s))) ∧
    (∃ su, ∀ c, c ∈ decl_cards d → suit c = su) ∧
    (decl_type d = bela →
     ∀ c, c ∈ decl_cards d → Some (suit c) = trump s ∧ (rank c = RK ∨ rank c = RQ)).
Proof.
  split.
  - unfold checkDeclarations. intros [Hoff| ->]; [|done].
    rewrite Hoff. by destruct (trump s).
  - intros d. apply checkDeclarations_elem.
Qed.

(** ** End-of-hand scoring: edge cases and totals *)

Lemma trickPoints_nonneg ts :
  Forall (fun t => (0 ≤ points t)%Z) ts →
  (0 ≤ (trickPoints ts).1 ∧ 0 ≤ (trickPoints ts).2)%Z.
Proof.
  unfold trickPoints.
  assert (Hgen : ∀ acc : Z * Z, (0 ≤ acc.1 ∧ 0 ≤ acc.2)%Z →
    Forall (fun t => (0 ≤ points t)%Z) ts →
    (0 ≤ (foldl (fun acc t => if decide (getPlayerTeamOf (winner t) = team1)
                             then ((acc.1 + points t)%Z, acc.2)
                             else (acc.1, (acc.2 + points t)%Z)) acc ts).1
     ∧ 0 ≤ (foldl (fun acc t => if decide (getPlayerTeamOf (winner t) = team1)
                               then ((acc.1 + points t)%Z, acc.2)
                               else (acc.1, (acc.2 + points t)%Z)) acc ts).2)%Z).
  { induction ts as [|t ts IH]; intros acc Hacc Hall; simpl; [done|].
    apply Forall_cons in Hall as [Ht Hall]. apply IH; [|done].
    destruct (decide _); simpl; lia. }
  intros Hall. apply Hgen; [simpl; lia|done].
Qed.

Lemma declarationPoints_nonneg ds :
  Forall (fun d => (0 ≤ decl_points d)%Z) ds →
  (0 ≤ (declarationPoints ds).1 ∧ 0 ≤ (declarationPoints ds).2)%Z.
Proof.
  unfold declarationPoints.
  assert (Hgen : ∀ acc : Z * Z, (0 ≤ acc.1 ∧ 0 ≤ acc.2)%Z →
    Forall (fun d => (0 ≤ decl_points d)%Z) ds →
    (0 ≤ (foldl (fun acc d => if decide (getPlayerTeam (decl_playerId d) = team1)
                             then ((acc.1 + decl_points d)%Z, acc.2)
                             else (acc.1, (acc.2 + decl_points d)%Z)) acc ds).1
     ∧ 0 ≤ (foldl (fun acc d => if decide (getPlayerTeam (decl_playerId d) = team1)
                               then ((acc.1 + decl_points d)%Z, acc.2)
                               else (acc.1, (acc.2 + decl_points d)%Z)) acc ds).2)%Z).
  { induction ds as [|d ds IH]; intros acc Hacc Hall; simpl; [done|].
    apply Forall_cons in Hall as [Hd Hall]. apply IH; [|done].
    destruct (decide _); simpl; lia. }
  intros Hall. apply Hgen; [simpl; lia|done].
Qed.

Lemma endOfHandScoring_monotone s r :
  Forall (fun t => (0 ≤ points t)%Z) (tricks s) →
  Forall (fun d => (0 ≤ decl_points d)%Z) (declarations s) →
  endOfHandScoring s = Some r →
  (of_team1 (matchScores s) ≤ of_team1 (res_matchScores r))%Z ∧
  (of_team2 (matchScores s) ≤ of_team2 (res_matchScores r))%Z.
Proof.
  intros Ht Hd. unfold endOfHandScoring, preBonusPoints.
  destruct (trump s); [|intros [= <-]; simpl; lia].
  destruct (declarer s); [|intros [= <-]; simpl; lia].
  pose proof (trickPoints_nonneg _ Ht) as [Ht1 Ht2].
  pose proof (declarationPoints_nonneg _ Hd) as [Hd1 Hd2].
  destruct (lastTrickBonus (config s)).
  - destruct (last (tricks s)); [|done]. simpl. intros [= <-]. simpl.
    destruct (decide (getPlayerTeamOf _ = team1)); simpl;
      destruct (decide (getPlayerTeam _ = team1)); case_bool_decide; simpl; lia.
  - simpl. intros [= <-]. simpl.
    destruct (decide (getPlayerTeam _ = team1)); case_bool_decide; simpl; lia.
Qed.

Lemma declarationShape_nonneg d : declarationShape d → (0 ≤ decl_points d)%Z.
Proof. intros [[_ ->]|[(_ & -> & _)|[(_ & -> & _)|(_ & -> & _)]]]; lia. Qed.

Lemma withDeclarations_nonneg s :
  Forall (fun d => (0 ≤ decl_points d)%Z) (declarations s) →
  Forall (fun d => (0 ≤ decl_points d)%Z) (declarations (withDeclarations s)).
Proof.
  intros Hall. unfold withDeclarations. destruct (declarationsEnabled (config s)); [|done].
  cbn [declarations]. apply Forall_app. split; [done|]. apply Forall_forall. intros d Hd.
  apply list_elem_of_bind in Hd as (p & Hd & _).
  apply declarationShape_nonneg. by apply (checkDeclarations_elem s p).
Qed.

Lemma applyMove_declarations s move st s' :
  applyMove s move st = Some s' → declarations s' = declarations s.
Proof.
  unfold applyMove. destruct (findCard _ _) as [i|]; [|done].
  assert (Hmid : ∀ mid, afterTrick s move st i = Some mid → declarations mid = declarations s).
  { intros mid. unfold afterTrick. destruct (decide _).
    - destruct (evaluateTrick _ _); [|done]. simpl. by intros [= <-].
    - by intros [= <-]. }
  destruct (afterTrick s move st i) as [mid|]; [|done]. simpl.
  rewrite <- (Hmid mid eq_refl). unfold afterHand. destruct (_ && _).
  - destruct (endOfHandScoring _); [|done]. simpl. by intros [= <-].
  - by intros [= <-].
Qed.

Lemma reachable_declarations_nonneg s :
  reachable s → Forall (fun d => (0 ≤ decl_points d)%Z) (declarations s).
Proof.
  induction 1 as [rnd cfg _|s s' _ IH Hstep].
  - unfold createInitialState. cbv beta zeta iota delta [declarations]. constructor.
  - destruct Hstep as [move st s'' Hmove|bid st|pid st|su st].
    + by rewrite (applyMove_declarations s move st s'' Hmove).
    + unfold applyBid. by apply withDeclarations_nonneg.
    + done.
    + unfold applyDealerChoice. by apply withDeclarations_nonneg.
Qed.

Lemma withDeclarations_matchScores s : matchScores (withDeclarations s) = matchScores s.
Proof. unfold withDeclarations. by destruct (declarationsEnabled (config s)). Qed.

(** X12. Along every run of the engine no transition lowers the match
    score of either team. *)
Theorem transition_matchScores_monotone (s s' : GameState) :
  reachable s → transition s s' →
  (of_team1 (matchScores s) ≤ of_team1 (matchScores s'))%Z ∧
  (of_team2 (matchScores s) ≤ of_team2 (matchScores s'))%Z.
Proof.
  intros Hreach Hstep.
  pose proof (reachable_engineInv s Hreach) as Hinv.
  pose proof (reachable_declarations_nonneg s Hreach) as Hdecl.
  destruct Hstep as [move st s'' Hmove|bid st|pid st|su st].
  - unfold applyMove in Hmove. destruct (findCard _ _) as [i|] eqn:Hfind; [|done].
    destruct (afterTrick_inv s move st i Hinv Hfind) as (mid & Hmid & Hinvmid).
    assert (Hsame : matchScores mid = matchScores s ∧ declarations mid = declarations s).
    { revert Hmid. unfold afterTrick. destruct (decide _).
      - destruct (evaluateTrick _ _); [|done]. simpl. by intros [= <-].
      - by intros [= <-]. }
    destruct Hsame as [Hms Hds]. rewrite Hmid in Hmove. simpl in Hmove.
    rewrite <- Hms. revert Hmove. unfold afterHand. destruct (_ && _); [|by intros [= <-]; lia].
    destruct (endOfHandScoring _) as [r|] eqn:Hr; [|done]. simpl. intros [= <-]. simpl.
    apply (endOfHandScoring_monotone (withPhase scoring mid) r); [| |done].
    + simpl. destruct Hinvmid as (_ & Hsettled & _).
      eapply Forall_impl; [exact Hsettled|]. intros t (_ & _ & Hpts).
      rewrite (Hpts None). apply (scoreTrick_range t None).
    + simpl. by rewrite Hds.
  - unfold applyBid. rewrite withDeclarations_matchScores. simpl. lia.
  - simpl. lia.
  - unfold applyDealerChoice. rewrite withDeclarations_matchScores. simpl. lia.
Qed.

Lemma checkDeclarations_sound_witness :
  mkDecl bela north [mkCard spades RK; mkCard spades RQ] 20 ∈ checkDeclarations spadesBid north ∧
  decl_playerId (mkDecl bela north [mkCard spades RK; mkCard spades RQ] 20) = north ∧
  declarationShape (mkDecl bela north [mkCard spades RK; mkCard spades RQ] 20).
Proof.
  assert (Hin : mkDecl bela north [mkCard spades RK; mkCard spades RQ] 20
                ∈ checkDeclarations spadesBid north)
    by (vm_compute; apply list_elem_of_here).
  split; [exact Hin|].
  destruct (proj2 (checkDeclarations_sound spadesBid north) _ Hin) as (Hp & Hs & _).
  by split.
Defined.

Lemma reachable_playOn n s s' : reachable s → playOn n s = Some s' → reachable s'.
Proof.
  revert s. induction n as [|n IH]; intros s Hs; simpl; [by intros [= <-]|].
  unfold playFirstLegal at 1. destruct (head _) as [c|]; [|done]. simpl.
  destruct (applyMove s _ stamps0) as [mid|] eqn:Hmove; [|done]. simpl.
  apply IH. apply (reach_step s); [done|]. by eapply trans_move.
Qed.

Lemma reachable_lastCardState : reachable lastCardState.
Proof.
  apply (reachable_playOn 28 (westBidsHearts dealtGame)).
  - apply (reach_step dealtGame); [apply reachable_dealtGame|apply trans_bid].
  - by vm_compute.
Qed.

Lemma transition_lastCardState : transition lastCardState scoredState.
Proof.
  apply (trans_move _ (mkMove west (mkCard hearts R7)) stamps0). by vm_compute.
Qed.

Lemma transition_matchScores_monotone_witness :
  reachable lastCardState ∧ transition lastCardState scoredState ∧
  matchScores lastCardState = mkScores 0 0 ∧
  matchScores scoredState = mkScores 458 338 ∧
  (of_team1 (matchScores lastCardState) ≤ of_team1 (matchScores scoredState))%Z ∧
  (of_team2 (matchScores lastCardState) ≤ of_team2 (matchScores scoredState))%Z.
Proof.
  split; [apply reachable_lastCardState|]. split; [apply transition_lastCardState|].
  split; [by vm_compute|]. split; [by vm_compute|].
  apply (transition_matchScores_monotone lastCardState scoredState).
  - apply reachable_lastCardState.
  - apply transition_lastCardState.
Defined.

(** ** What one [applyMove] does *)

Lemma afterHand_fields mid move st s' :
  afterHand mid move st = Some s' →
  players s' = players mid ∧ currentPlayer s' = currentPlayer mid ∧
  currentTrick s' = currentTrick mid ∧ tricks s' = tricks mid ∧
  phase s'
  = (if bool_decide (length (hand (getP (move_playerId move) (players mid))) = 0)
        && bool_decide (phase mid = play)
     then scoring else phase mid).
Proof.
  unfold afterHand. destruct (_ && _).
  - destruct (endOfHandScoring _); [|done]. simpl. by intros [= <-].
  - by intros [= <-].
Qed.

Lemma afterTrick_players s move st i mid :
  afterTrick s move st i = Some mid →
  players mid
  = setP (move_playerId move)
      (withHand (delete i (hand (getP (move_playerId move) (players s))))
                (getP (move_playerId move) (players s))) (players s)
  ∧ phase mid = phase s.
Proof.
  unfold afterTrick. destruct (decide _).
  - destruct (evaluateTrick _ _); [|done]. simpl. by intros [= <-].
  - by intros [= <-].
Qed.

(** X13. A successful [applyMove] takes the card out of the hand of the
    seat that plays, at the first position where the hand holds it, and
    leaves the other seats as they were. If the trick then has fewer than
    four cards, the card is added to the current trick and the turn passes
    to the next seat in rotation; if it is the fourth card, the trick goes
    to the history with the winner [evaluateTrick] names and the points of
    [scoreTrick], the current trick is emptied and the winner is to play. *)
Theorem applyMove_plays_the_card (s s' : GameState) (move : Move) (st : MoveStamps) :
  applyMove s move st = Some s' →
  (∃ i, hand (getP (move_playerId move) (players s)) !! i = Some (move_card move) ∧
        (∀ j, j < i → hand (getP (move_playerId move) (players s)) !! j
                      ≠ Some (move_card move)) ∧
        hand (getP (move_playerId move) (players s'))
        = delete i (hand (getP (move_playerId move) (players s)))) ∧
  (∀ p, p ≠ move_playerId move → getP p (players s') = getP p (players s)) ∧
  (length (cards (currentTrick s)) ≠ 3 →
   currentTrick s' = pushedTrick s move ∧ tricks s' = tricks s ∧
   currentPlayer s' = getNextPlayer (move_playerId move)) ∧
  (length (cards (currentTrick s)) = 3 →
   ∃ w, evaluateTrick (pushedTrick s move) (trump s) = Some w ∧
        currentTrick s' = emptyTrick ∧ currentPlayer s' = w ∧
        tricks s' = tricks s ++ [mkTrick (cards (pushedTrick s move)) (Some w)
                                         (scoreTrick (pushedTrick s move) (trump s))]).
Proof.
  unfold applyMove. destruct (findCard _ _) as [i|] eqn:Hfind; [|done].
  destruct (afterTrick s move st i) as [mid|] eqn:Hmid; [|done]. simpl. intros Hhand.
  destruct (afterHand_fields mid move st s' Hhand) as (-> & -> & -> & -> & _).
  assert (Hlen : length (cards (pushedTrick s move)) = S (length (cards (currentTrick s))))
    by (unfold pushedTrick; simpl; rewrite length_app; simpl; lia).
  destruct (afterTrick_players s move st i mid Hmid) as [Hpl _].
  split; [|split; [|split]].
  - exists i. split; [by apply findCard_Some|]. split.
    + intros j Hj Hlook. unfold findCard in Hfind.
      apply fmap_Some in Hfind as ([k x] & Hf & Hk). simpl in Hk. subst k.
      apply list_find_Some in Hf as (_ & _ & Hleast).
      by apply (Hleast j (move_card move)).
    + by rewrite Hpl, getP_setP, decide_True.
  - intros p Hp. by rewrite Hpl, getP_setP, decide_False.
  - intros H3. revert Hmid. unfold afterTrick. fold (pushedTrick s move).
    destruct (decide _) as [H4|H4]; [lia|]. by intros [= <-].
  - intros H3. revert Hmid. unfold afterTrick. fold (pushedTrick s move).
    destruct (decide _) as [H4|H4]; [|lia].
    destruct (evaluateTrick _ _) as [w|]; [|done]. simpl. intros [= <-]. simpl.
    exists w. by repeat split.
Qed.

(** X14. [applyMove] changes the phase in one case only: when the phase is
    [play] and the seat that plays gives its last card, the phase becomes
    [scoring] at once, also when that card opens a trick. In every other
    case the phase stays as it was; cards can be played in any phase. *)
Theorem applyMove_phase (s s' : GameState) (move : Move) (st : MoveStamps) :
  applyMove s move st = Some s' →
  phase s'
  = (if bool_decide (phase s = play
                     ∧ length (hand (getP (move_playerId move) (players s))) = 1)
     then scoring else phase s).
Proof.
  unfold applyMove. destruct (findCard _ _) as [i|] eqn:Hfind; [|done].
  destruct (afterTrick s move st i) as [mid|] eqn:Hmid; [|done]. simpl. intros Hhand.
  destruct (afterHand_fields mid move st s' Hhand) as (_ & _ & _ & _ & ->).
  destruct (afterTrick_players s move st i mid Hmid) as [-> ->].
  rewrite getP_setP, decide_True by done.
  pose proof (findCard_Some _ _ _ Hfind) as Hi.
  change (hand (withHand ?l ?pl)) with l.
  rewrite length_delete by eauto.
  apply lookup_lt_Some in Hi.
  destruct (decide (phase s = play)) as [Hp|Hp];
    destruct (decide (length (hand (getP (move_playerId move) (players s))) = 1)) as [Hl|Hl].
  - rewrite !bool_decide_eq_true_2 by (done || lia). done.
  - rewrite (bool_decide_eq_false_2 (_ = 0)) by lia.
    rewrite (bool_decide_eq_false_2 (_ ∧ _)) by tauto. done.
  - rewrite (bool_decide_eq_false_2 (phase s = play)) by done.
    rewrite (bool_decide_eq_false_2 (_ ∧ _)) by tauto. by rewrite andb_false_r.
  - rewrite (bool_decide_eq_false_2 (phase s = play)) by done.
    rewrite (bool_decide_eq_false_2 (_ ∧ _)) by tauto. by rewrite andb_false_r.
Qed.

Lemma applyMove_plays_the_card_witness :
  applyMove southToFollowState (mkMove south (mkCard clubs RA)) stamps0 = Some firstTrickDone ∧
  length (cards (currentTrick southToFollowState)) = 3 ∧
  ∃ w, evaluateTrick (pushedTrick southToFollowState (mkMove south (mkCard clubs RA)))
                     (trump southToFollowState) = Some w ∧
       currentTrick firstTrickDone = emptyTrick ∧ currentPlayer firstTrickDone = w ∧
       tricks firstTrickDone
       = tricks southToFollowState
         ++ [mkTrick (cards (pushedTrick southToFollowState (mkMove south (mkCard clubs RA))))
                     (Some w)
                     (scoreTrick (pushedTrick southToFollowState (mkMove south (mkCard clubs RA)))
                                 (trump southToFollowState))].
Proof.
  assert (Hm : applyMove southToFollowState (mkMove south (mkCard clubs RA)) stamps0
               = Some firstTrickDone) by (by vm_compute).
  split; [exact Hm|]. split; [by vm_compute|].
  apply (proj2 (proj2 (proj2 (applyMove_plays_the_card southToFollowState firstTrickDone
                                (mkMove south (mkCard clubs RA)) stamps0 Hm)))).
  by vm_compute.
Defined.

Lemma applyMove_phase_witness :
  applyMove lastCardState (mkMove west (mkCard hearts R7)) stamps0 = Some scoredState ∧
  phase lastCardState = play ∧
  length (cards (currentTrick lastCardState)) = 0 ∧
  phase scoredState = scoring.
Proof.
  assert (Hm : applyMove lastCardState (mkMove west (mkCard hearts R7)) stamps0
               = Some scoredState) by (by vm_compute).
  split; [exact Hm|]. split; [by vm_compute|]. split; [by vm_compute|].
  rewrite (applyMove_phase lastCardState scoredState
             (mkMove west (mkCard hearts R7)) stamps0 Hm).
  by vm_compute.
Defined.

(** ** When scoring throws *)

Lemma afterTrick_open s move st i :
  length (cards (currentTrick s)) ≠ 3 →
  ∃ mid, afterTrick s move st i = Some mid ∧
         tricks mid = tricks s ∧ trump mid = trump s ∧ declarer mid = declarer s ∧
         config mid = config s.
Proof.
  intros H3. unfold afterTrick. destruct (decide _) as [H4|H4].
  - simpl in H4. rewrite length_app in H4. simpl in H4. lia.
  - eexists. split; [done|]. done.
Qed.

(** X11. [endOfHandScoring] throws exactly when trump and declarer are set,
    the last-trick bonus is on and no trick is finished; with trump or
    declarer unset it returns the scores of the state and a bonus of 0.
    The throw reaches the caller: in phase [play], with trump and declarer
    set, the bonus on and no trick finished, [applyMove] throws for the
    only card a seat holds when that card does not complete a trick,
    although the card is in the hand. *)
Theorem endOfHandScoring_edge_cases (s : GameState) :
  (endOfHandScoring s = None
   ↔ is_Some (trump s) ∧ is_Some (declarer s) ∧
     lastTrickBonus (config s) = true ∧ tricks s = []) ∧
  (trump s = None ∨ declarer s = None →
   endOfHandScoring s = Some (mkResult (handScores s) (matchScores s) 0)) ∧
  (∀ move st,
     phase s = play →
     hand (getP (move_playerId move) (players s)) = [move_card move] →
     length (cards (currentTrick s)) ≠ 3 →
     is_Some (trump s) → is_Some (declarer s) →
     lastTrickBonus (config s) = true → tricks s = [] →
     applyMove s move st = None).
Proof.
  assert (Hthrow : ∀ s', endOfHandScoring s' = None
            ↔ is_Some (trump s') ∧ is_Some (declarer s') ∧
              lastTrickBonus (config s') = true ∧ tricks s' = []).
  { intros s'. unfold endOfHandScoring, preBonusPoints.
    destruct (trump s') as [tr|], (declarer s') as [dc|];
      try (split; [done|intros ([? ?] & [? ?] & _); done]).
    destruct (lastTrickBonus (config s')).
    + destruct (last (tricks s')) as [t|] eqn:Hlast; simpl.
      * split; [done|]. intros (_ & _ & _ & Hnil). by rewrite Hnil in Hlast.
      * apply last_None in Hlast. split; [|done]. intros _.
        repeat split; try done; by eexists.
    + simpl. split; [done|]. by intros (_ & _ & ? & _). }
  split; [apply Hthrow|]. split.
  - unfold endOfHandScoring. intros [-> | ->]; [done|]. by destruct (trump s).
  - intros move st Hph Hhand H3 Htr Hdc Hbonus Hnil. unfold applyMove.
    assert (Hfind : findCard (hand (getP (move_playerId move) (players s))) (move_card move)
                    = Some 0).
    { rewrite Hhand. unfold findCard. simpl. by rewrite decide_True. }
    rewrite Hfind.
    destruct (afterTrick_open s move st 0 H3) as (mid & Hmid & Hts & Htm & Hdm & Hcm).
    rewrite Hmid. simpl.
    destruct (afterTrick_players s move st 0 mid Hmid) as [Hpl Hphm].
    unfold afterHand. rewrite Hpl, getP_setP, decide_True by done.
    change (hand (withHand ?l ?pl)) with l. rewrite Hhand. simpl.
    rewrite Hphm, Hph. rewrite bool_decide_eq_true_2 by done. simpl.
    assert (Hnone : endOfHandScoring (withPhase scoring mid) = None).
    { apply Hthrow. simpl. by rewrite Htm, Hdm, Hcm, Hts. }
    by rewrite Hnone.
Qed.

Lemma endOfHandScoring_edge_cases_witness :
  endOfHandScoring spadesBid = None ∧
  move_card (mkMove west (mkCard clubs R10))
    ∈ hand (getP west (players lastCardNoTrick)) ∧
  applyMove lastCardNoTrick (mkMove west (mkCard clubs R10)) stamps0 = None.
Proof.
  split; [|split].
  - apply (proj1 (endOfHandScoring_edge_cases spadesBid)).
    repeat split; try (by eexists); by vm_compute.
  - apply (bool_decide_unpack _). vm_compute. reflexivity.
  - apply (proj2 (proj2 (endOfHandScoring_edge_cases lastCardNoTrick))
             (mkMove west (mkCard clubs R10)) stamps0).
    + vm_compute. reflexivity.
    + vm_compute. reflexivity.
    + vm_compute. discriminate.
    + vm_compute. by eexists.
    + vm_compute. by eexists.
    + vm_compute. reflexivity.
    + vm_compute. reflexivity.
Defined.

(** ** Seats, teams and the card text *)

(** X15. [getNextPlayer] walks round the table: four steps lead back to
    the seat they started from, all four seats are met on the way, the next
    seat is always on the other team and the seat after it on the same
    team. *)
Theorem getNextPlayer_rotation (p : PlayerId) :
  getNextPlayer (getNextPlayer (getNextPlayer (getNextPlayer p))) = p ∧
  NoDup [p; getNextPlayer p; getNextPlayer (getNextPlayer p);
         getNextPlayer (getNextPlayer (getNextPlayer p))] ∧
  getPlayerTeam (getNextPlayer p) ≠ getPlayerTeam p ∧
  getPlayerTeam (getNextPlayer (getNextPlayer p)) = getPlayerTeam p.
Proof.
  destruct p; (split; [reflexivity|]); (split; [|split; [discriminate|reflexivity]]);
    apply (bool_decide_unpack _); by vm_compute.
Qed.

(** X16. The text encoding tells cards apart: two cards with the same
    [cardToString] are the same card, and the text is the rank followed by
    one capital letter, so 2 or 3 characters long. *)
Theorem cardToString_injective (a b : Card) :
  (cardToString a = cardToString b → a = b) ∧
  (String.length (cardToString a) = 2 ∨ String.length (cardToString a) = 3) ∧
  strSlice (cardToString a) 0 (Some (-1)%Z) = rankName (rank a).
Proof.
  split; [|split].
  - destruct a as [[] []], b as [[] []]; vm_compute; intros H; first [reflexivity|discriminate H].
  - destruct a as [[] []]; vm_compute; auto.
  - by destruct a as [[] []].
Qed.

Lemma cardToString_injective_witness :
  cardToString (mkCard hearts R10) = cardToString (mkCard hearts R10) ∧
  mkCard hearts R10 = mkCard hearts R10.
Proof.
  split; [reflexivity|].
  apply (proj1 (cardToString_injective (mkCard hearts R10) (mkCard hearts R10))). reflexivity.
Defined.

(** ** Bids on offer *)



(** ** The trick points of a hand *)

Lemma cardPoints_app l1 l2 : cardPoints (l1 ++ l2) = (cardPoints l1 + cardPoints l2)%Z.
Proof. unfold cardPoints. induction l1 as [|c l1 IH]; simpl; [done|]. rewrite IH. lia. Qed.

Lemma cardPoints_nonneg l : (0 ≤ cardPoints l)%Z.
Proof.
  unfold cardPoints. induction l as [|c l IH]; simpl; [done|].
  pose proof (CARD_VALUES_bounds (rank c)). lia.
Qed.

Lemma cardPoints_perm l1 l2 : l1 ≡ₚ l2 → cardPoints l1 = cardPoints l2.
Proof.
  unfold cardPoints. induction 1 as [|x l1 l2 _ IH|x y l|l1 l2 l3 _ IH1 _ IH2]; simpl;
    [done|by rewrite IH|lia|congruence].
Qed.

Lemma scoreTrick_cardPoints t tr : scoreTrick t tr = cardPoints (card <$> cards t).
Proof.
  rewrite scoreTrick_sum. unfold cardPoints.
  induction (cards t) as [|pc l IH]; simpl; [done|]. by rewrite IH.
Qed.

Lemma trickPoints_total ts :
  ((trickPoints ts).1 + (trickPoints ts).2
   = foldr (fun t acc => points t + acc) 0 ts)%Z.
Proof.
  unfold trickPoints.
  assert (Hgen : ∀ acc : Z * Z,
    let fin := foldl (fun acc t => if decide (getPlayerTeamOf (winner t) = team1)
                                   then ((acc.1 + points t)%Z, acc.2)
                                   else (acc.1, (acc.2 + points t)%Z)) acc ts in
    (fin.1 + fin.2 = acc.1 + acc.2 + foldr (fun t a => points t + a) 0 ts)%Z).
  { induction ts as [|t ts IH]; intros acc; simpl; [lia|].
    rewrite IH. destruct (decide _); simpl; lia. }
  rewrite Hgen. simpl. lia.
Qed.

Lemma settled_points_cardPoints ts :
  Forall trickSettled ts →
  foldr (fun t acc => (points t + acc)%Z) 0%Z ts = cardPoints (t ← ts; card <$> cards t).
Proof.
  induction 1 as [|t ts (_ & _ & Hpts) _ IH]; simpl; [done|].
  rewrite cardPoints_app, IH, (Hpts None). by rewrite scoreTrick_cardPoints.
Qed.

(** X18. In every reachable state the trick points the two teams have won
    together are the card points of the cards in the finished tricks, and
    so never more than 120, the card points of the whole deck. *)
Theorem reachable_trick_points_bounded (s : GameState) :
  reachable s →
  ((trickPoints (tricks s)).1 + (trickPoints (tricks s)).2
   = cardPoints (t ← tricks s; card <$> cards t))%Z ∧
  (0 ≤ (trickPoints (tricks s)).1 + (trickPoints (tricks s)).2 ≤ 120)%Z.
Proof.
  intros Hreach.
  destruct (reachable_engineInv s Hreach) as (_ & Hsettled & _).
  pose proof (reachable_allCards s Hreach) as Hperm.
  assert (Hsum : ((trickPoints (tricks s)).1 + (trickPoints (tricks s)).2
                  = cardPoints (t ← tricks s; card <$> cards t))%Z)
    by (by rewrite trickPoints_total, settled_points_cardPoints).
  split; [done|]. rewrite Hsum.
  pose proof (cardPoints_perm _ _ Hperm) as Hall.
  change (cardPoints orderedDeck) with 120%Z in Hall.
  unfold allCards in Hall. rewrite !cardPoints_app in Hall.
  pose proof (cardPoints_nonneg (handsCards (mapP hand (players s)))).
  pose proof (cardPoints_nonneg (card <$> cards (currentTrick s))).
  pose proof (cardPoints_nonneg (t ← tricks s; card <$> cards t)).
  pose proof (cardPoints_nonneg (talon s)).
  pose proof (cardPoints_nonneg (deck s)). lia.
Qed.

Lemma reachable_trick_points_bounded_witness :
  reachable scoredState ∧
  trickPoints (tricks scoredState) = (68, 48)%Z ∧
  (0 ≤ (trickPoints (tricks scoredState)).1 + (trickPoints (tricks scoredState)).2 ≤ 120)%Z.
Proof.
  assert (Hr : reachable scoredState)
    by (apply (reach_step lastCardState);
        [apply reachable_lastCardState|apply transition_lastCardState]).
  split; [exact Hr|]. split; [by vm_compute|].
  apply (proj2 (reachable_trick_points_bounded scoredState Hr)).
Defined.

(** ** Overtrumping *)

(** X19. With [overtrumpRequired] on, for a seat that holds no card of the
    suit led, when a trump is in the trick and the seat holds a trump above
    every trump of the trick, the legal moves are exactly the seat's trumps
    that outrank every trump of the trick. *)
Theorem legalMoves_overtrump (s : GameState) (p : PlayerId) (tr : Suit)
    (lead : Played) (rest : list Played) (high : Card) :
  trump s = Some tr →
  cards (currentTrick s) = lead :: rest →
  overtrumpRequired (config s) = true →
  (∀ c, c ∈ hand (getP p (players s)) → suit c ≠ suit (card lead)) →
  (∃ t, t ∈ cards (currentTrick s) ∧ suit (card t) = tr) →
  high ∈ hand (getP p (players s)) → suit high = tr →
  (∀ t, t ∈ cards (currentTrick s) → suit (card t) = tr →
        (getRankIndex (rank (card t)) < getRankIndex (rank high))%Z) →
  ∀ c, c ∈ legalMoves s p
       ↔ c ∈ hand (getP p (players s)) ∧ suit c = tr ∧
         ∀ t, t ∈ cards (currentTrick s) → suit (card t) = tr →
              (getRankIndex (rank (card t)) < getRankIndex (rank c))%Z.
Proof.
  intros Htr Hcs Hover Hvoid (t0 & Ht0 & Ht0s) Hhigh Hhs Hhr c.
  unfold legalMoves. rewrite Htr, Hcs, Hover. rewrite <- Hcs.
  assert (Hnolead : getCardsOfSuit (hand (getP p (players s))) (suit (card lead)) = []).
  { apply filter_none. intros x Hx. by apply Hvoid. }
  rewrite Hnolead. simpl length.
  rewrite (bool_decide_eq_false_2 (0 < 0)) by lia.
  rewrite (bool_decide_eq_true_2 (Exists _ _)) by (apply Exists_exists; by exists t0).
  assert (Hht : high ∈ getTrumpCards (hand (getP p (players s))) tr)
    by (by apply list_elem_of_filter).
  rewrite (bool_decide_eq_true_2 (0 < length (getTrumpCards _ _)))
    by (destruct (getTrumpCards _ _); [by apply elem_of_nil in Hht|simpl; lia]).
  simpl.
  destruct (head_sortBy_is_Some
              (fun a b => (getRankIndex (rank (card b)) - getRankIndex (rank (card a)))%Z)
              (filter (fun c => suit (card c) = tr) (cards (currentTrick s)))) as [top Htop].
  { intros Hnil. assert (t0 ∈ filter (fun c => suit (card c) = tr) (cards (currentTrick s)))
      as Hin by (by apply list_elem_of_filter).
    rewrite Hnil in Hin. by apply elem_of_nil in Hin. }
  unfold highestTrumpLead. rewrite Htop.
  apply (head_sortBy _ (fun pc => (- getRankIndex (rank (card pc)))%Z)) in Htop as [Htin Htmax];
    [|intros x y; lia].
  apply list_elem_of_filter in Htin as [Hts Htin].
  assert (Habove : ∀ x, (getRankIndex (rank x) > getRankIndex (rank (card top)))%Z
                        ↔ ∀ t, t ∈ cards (currentTrick s) → suit (card t) = tr →
                               (getRankIndex (rank (card t)) < getRankIndex (rank x))%Z).
  { intros x. split.
    - intros Hx t Ht Hsuit.
      assert (t ∈ filter (fun c => suit (card c) = tr) (cards (currentTrick s)))
        as Hin by (by apply list_elem_of_filter).
      specialize (Htmax t Hin). lia.
    - intros Hall. specialize (Hall top Htin Hts). lia. }
  assert (Hhh : high ∈ filter (fun c => (getRankIndex (rank c) > getRankIndex (rank (card top)))%Z)
                              (getTrumpCards (hand (getP p (players s))) tr)).
  { apply list_elem_of_filter. split; [|done]. apply Habove. exact Hhr. }
  rewrite (bool_decide_eq_true_2 (0 < length (filter _ _)))
    by (destruct (filter _ (getTrumpCards _ _)); [by apply elem_of_nil in Hhh|simpl; lia]).
  unfold getTrumpCards. rewrite !list_elem_of_filter, Habove. tauto.
Qed.

Lemma legalMoves_overtrump_witness :
  overtrumpRequired (config overtrumpGame) = true ∧
  cards (currentTrick overtrumpGame)
  = [mkPlayed west (mkCard clubs R10); mkPlayed east (mkCard spades R8)] ∧
  legalMoves overtrumpGame north
  = [mkCard spades RA; mkCard spades RK; mkCard spades RQ; mkCard spades RJ] ∧
  (mkCard spades RK ∈ legalMoves overtrumpGame north
   ↔ mkCard spades RK ∈ hand (getP north (players overtrumpGame)) ∧
     suit (mkCard spades RK) = spades ∧
     ∀ t, t ∈ cards (currentTrick overtrumpGame) → suit (card t) = spades →
          (getRankIndex (rank (card t)) < getRankIndex (rank (mkCard spades RK)))%Z).
Proof.
  assert (Hh : hand (getP north (players overtrumpGame))
        = [mkCard diamonds RA; mkCard diamonds RK; mkCard diamonds RQ; mkCard diamonds RJ;
           mkCard spades RA; mkCard spades RK; mkCard spades RQ; mkCard spades RJ])
    by (vm_compute; reflexivity).
  assert (Hc : cards (currentTrick overtrumpGame)
        = [mkPlayed west (mkCard clubs R10); mkPlayed east (mkCard spades R8)])
    by (vm_compute; reflexivity).
  split; [vm_compute; reflexivity|]. split; [exact Hc|].
  split; [vm_compute; reflexivity|].
  refine (legalMoves_overtrump overtrumpGame north spades
            (mkPlayed west (mkCard clubs R10)) [mkPlayed east (mkCard spades R8)]
            (mkCard spades RA) _ Hc _ _ _ _ _ _ (mkCard spades RK)).
  - vm_compute; reflexivity.
  - vm_compute; reflexivity.
  - intros c Hin. rewrite Hh in Hin.
    repeat (apply elem_of_cons in Hin as [->|Hin]; [simpl; discriminate|]).
    inversion Hin.
  - exists (mkPlayed east (mkCard spades R8)). split; [|reflexivity].
    rewrite Hc. apply list_elem_of_further, list_elem_of_here.
  - rewrite Hh. do 4 apply list_elem_of_further. apply list_elem_of_here.
  - reflexivity.
  - intros t Ht _. rewrite Hc in Ht.
    repeat (apply elem_of_cons in Ht as [->|Ht]; [vm_compute; reflexivity|]).
    inversion Ht.
Defined.

(** * The bots and the hints *)

(** ** Picking the lowest card *)

Lemma byRank_key x y :
  (byRank x y ≤ 0 ↔ getRankIndex (rank x) ≤ getRankIndex (rank y))%Z.
Proof. unfold byRank. lia. Qed.

(** [sorted[0]] after [sort] by rank is a card of the array that no card
    of the array undercuts. *)
Lemma lowest_inv l c :
  sortBy byRank l !! 0 = Some c →
  c ∈ l ∧ ∀ y, y ∈ l → (getRankIndex (rank c) ≤ getRankIndex (rank y))%Z.
Proof.
  rewrite <- head_lookup. intros Hh.
  exact (head_sortBy byRank (fun x => getRankIndex (rank x)) byRank_key l c Hh).
Qed.

Lemma lowest_is_Some l : l ≠ [] → is_Some (sortBy byRank l !! 0).
Proof.
  intros Hne. rewrite <- head_lookup.
  exact (head_sortBy_is_Some byRank l Hne).
Qed.

Lemma length_pos_ne {A} (l : list A) : 0 < length l → l ≠ [].
Proof. destruct l; simpl; [lia|done]. Qed.

Lemma lookup0_filter {A} (P : A → Prop) `{∀ x, Decision (P x)} (l : list A) x :
  filter P l !! 0 = Some x → x ∈ l ∧ P x.
Proof.
  intros Hl. apply list_elem_of_lookup_2 in Hl.
  by apply list_elem_of_filter in Hl as [? ?].
Qed.

(** ** The suit counts of [chooseLead] *)

Lemma countSuit_spec counts su :
  NoDup counts.*1 →
  NoDup (countSuit counts su).*1 ∧
  (countSuit counts su).*1 ≡ₚ (if decide (su ∈ counts.*1) then counts.*1 else su :: counts.*1) ∧
  ∀ k n, (k, n) ∈ countSuit counts su ↔
         (k ≠ su ∧ (k, n) ∈ counts)
         ∨ (k = su ∧ ((∃ m, (su, m) ∈ counts ∧ n = m + 1) ∨ ((su ∉ counts.*1) ∧ n = 1))).
Proof.
  induction counts as [|[k0 n0] counts IH]; intros Hnd.
  - simpl. split; [apply NoDup_singleton|]. split; [done|].
    intros k n. rewrite list_elem_of_singleton. split.
    + intros [= -> ->]. right. split; [done|]. right. split; [|done]. apply not_elem_of_nil.
    + intros [[_ H]|[-> [(m & H & _)|[_ ->]]]]; [by apply elem_of_nil in H| by apply elem_of_nil in H|done].
  - apply NoDup_cons in Hnd as [Hk0 Hnd]. simpl in Hk0.
    destruct (IH Hnd) as (IHnd & IHperm & IHel). clear IH.
    cbn [countSuit]. destruct (decide (k0 = su)) as [->|Hne].
    + split; [by apply NoDup_cons|]. split.
      { cbn [fmap list_fmap fst]. rewrite decide_True by (by left). done. }
      intros k n. rewrite elem_of_cons. split.
      * intros [[= -> ->]|Hin].
        -- right. split; [done|]. left. exists n0. split; [by left|done].
        -- left. split; [|by right]. intros ->. apply Hk0.
           apply list_elem_of_fmap. by exists (su, n).
      * intros [[Hk Hin]|[-> [(m & Hin & ->)|[Hno _]]]].
        -- apply elem_of_cons in Hin as [[= -> ->]|Hin]; [done|by right].
        -- apply elem_of_cons in Hin as [[= ->]|Hin]; [by left|].
           exfalso. apply Hk0. apply list_elem_of_fmap. by exists (su, m).
        -- exfalso. apply Hno. by left.
    + assert (Hk0' : k0 ∉ (countSuit counts su).*1).
      { intros Hin. rewrite IHperm in Hin. destruct (decide (su ∈ counts.*1)); [done|].
        apply elem_of_cons in Hin as [?|?]; done. }
      split; [by apply NoDup_cons|]. split.
      { cbn [fmap list_fmap fst]. fold (fmap (M:=list) fst (countSuit counts su)).
        fold (fmap (M:=list) fst counts). rewrite IHperm.
        destruct (decide (su ∈ counts.*1)) as [Hin|Hin].
        - rewrite decide_True by (by right). done.
        - rewrite decide_False; [apply Permutation_swap|].
          intros [?|?]%elem_of_cons; [congruence|done]. }
      intros k n. rewrite elem_of_cons, IHel. split.
      * intros [[= -> ->]|[[Hk Hin]|[-> [(m & Hin & ->)|[Hno ->]]]]].
        -- left. split; [done|by left].
        -- left. split; [done|by right].
        -- right. split; [done|]. left. exists m. split; [by right|done].
        -- right. split; [done|]. right. split; [|done].
           intros [?|?]%elem_of_cons; [simpl in *; congruence|done].
      * intros [[Hk Hin]|[-> [(m & Hin & ->)|[Hno ->]]]].
        -- apply elem_of_cons in Hin as [[= -> ->]|Hin]; [by left|]. right. left. done.
        -- apply elem_of_cons in Hin as [[= ? ?]|Hin]; [congruence|].
           right. right. split; [done|]. left. by exists m.
        -- right. right. split; [done|]. right. split; [|done].
           intros Hin. apply Hno. by right.
Qed.

(** The number of cards of a suit in an array. *)
Lemma suitCountsOf_spec l :
  NoDup (suitCountsOf l).*1 ∧
  ∀ k n, (k, n) ∈ suitCountsOf l ↔
         n = length (filter (fun c => suit c = k) l) ∧ 0 < n.
Proof.
  unfold suitCountsOf. induction l as [|c l IH] using rev_ind.
  - simpl. split; [apply NoDup_nil_2|]. intros k n. rewrite ?filter_nil. simpl. split.
    + by intros ?%elem_of_nil.
    + lia.
  - destruct IH as [IHnd IHel]. rewrite foldl_app. simpl.
    destruct (countSuit_spec (foldl (fun counts c => countSuit counts (suit c)) [] l)
                (suit c) IHnd) as (Hnd & _ & Hel).
    split; [done|]. intros k n. rewrite Hel, filter_app, length_app.
    destruct (decide (suit c = k)) as [Hk|Hk].
    + rewrite filter_cons_True, filter_nil by done. simpl. split.
      * intros [[Hne _]|[-> [(m & Hm & ->)|[Hno ->]]]]; [congruence| |].
        -- apply IHel in Hm as [-> _]. lia.
        -- split; [|lia].
           destruct (length (filter (fun c0 => suit c0 = suit c) l)) as [|j] eqn:Hlen; [done|].
           exfalso. apply Hno. apply list_elem_of_fmap. exists (suit c, S j).
           split; [done|]. apply IHel. rewrite Hlen. lia.
      * intros [-> _]. right. split; [done|].
        destruct (length (filter (fun c0 => suit c0 = k) l)) as [|j] eqn:Hlen.
        -- right. split; [|done]. intros ((k' & m) & Hkk & Hin)%list_elem_of_fmap.
           simpl in Hkk. subst k'. rewrite Hk in Hin. apply IHel in Hin. lia.
        -- left. exists (S j). split; [|lia]. rewrite Hk. apply IHel. lia.
    + rewrite filter_cons_False, filter_nil by done. simpl. rewrite Nat.add_0_r. split.
      * intros [[_ Hin]|[-> _]]; [by apply IHel|done].
      * intros Hn. left. split; [congruence|by apply IHel].
Qed.

(** The loop over the entries keeps a count that no entry exceeds. *)
Lemma longest_loop (entries : list (Suit * nat)) (init : Suit * nat) :
  let fin := foldl (fun acc e => if bool_decide (acc.2 < e.2) then (e.1, e.2) else acc)
                   init entries in
  (fin = init ∨ fin ∈ entries) ∧ init.2 ≤ fin.2 ∧ ∀ e, e ∈ entries → e.2 ≤ fin.2.
Proof.
  revert init. induction entries as [|[k n] entries IH]; intros init; simpl.
  - split; [by left|]. split; [done|]. by intros e ?%elem_of_nil.
  - case_bool_decide as Hlt.
    + destruct (IH (k, n)) as (Hfin & Hle & Hall). simpl in *.
      split; [right; destruct Hfin as [Heq|?]; [rewrite Heq; by left|by right]|].
      split; [lia|]. intros e' [->|?]%elem_of_cons; [done|by apply Hall].
    + destruct (IH init) as (Hfin & Hle & Hall).
      split; [destruct Hfin as [?|?]; [by left|right; by right]|].
      split; [done|]. intros e' [->|?]%elem_of_cons; [simpl; lia|by apply Hall].
Qed.

(** What [chooseLead] returns for a [legal] that is not empty. *)
Lemma chooseLead_spec legal tr :
  legal ≠ [] →
  ∃ m, chooseLead legal tr = Some m ∧ bot_card m ∈ legal ∧
       (tr = None → legal !! 0 = Some (bot_card m)) ∧
       (∀ t, tr = Some t → (∃ c, c ∈ legal ∧ suit c = t) →
             suit (bot_card m) = t ∧
             ∀ c, c ∈ legal → suit c = t →
                  (getRankIndex (rank (bot_card m)) ≤ getRankIndex (rank c))%Z) ∧
       (∀ t, tr = Some t → (∀ c, c ∈ legal → suit c ≠ t) →
             (∀ su, length (filter (fun c => suit c = su) legal)
                    ≤ length (filter (fun c => suit c = suit (bot_card m)) legal)) ∧
             ∀ c, c ∈ legal → suit c = suit (bot_card m) →
                  (getRankIndex (rank (bot_card m)) ≤ getRankIndex (rank c))%Z).
Proof.
  intros Hne. unfold chooseLead. destruct tr as [t|].
  - case_bool_decide as Htr.
    + destruct (lowest_is_Some _ (length_pos_ne _ Htr)) as [c Hc]. rewrite Hc. simpl.
      destruct (lowest_inv _ _ Hc) as [Hin Hlow].
      apply list_elem_of_filter in Hin as [Hct Hin].
      eexists. split; [done|]. simpl. split; [done|]. split; [done|]. split.
      * intros t' [= <-] _. split; [done|]. intros y Hy Hyt. apply Hlow.
        by apply list_elem_of_filter.
      * intros t' [= <-] Hnone. exfalso. by apply (Hnone c).
    + destruct legal as [|first rest] eqn:Hlegal; [done|]. rewrite <- Hlegal in *.
      assert (Hfirst : legal !! 0 = Some first) by (by rewrite Hlegal).
      rewrite Hfirst. simpl.
      destruct (suitCountsOf_spec legal) as [_ Hcounts].
      destruct (longest_loop (suitCountsOf legal) (suit first, 0)) as (Hfin & _ & Hmax).
      set (fin := foldl _ _ _) in *.
      assert (Hfirst_in : first ∈ legal) by (rewrite Hlegal; by left).
      assert (Hpos : ∀ su, (∃ c, c ∈ legal ∧ suit c = su) →
                0 < length (filter (fun c => suit c = su) legal)).
      { intros su (c & Hc & Hs).
        assert (c ∈ filter (fun c => suit c = su) legal) as Hcf by (by apply list_elem_of_filter).
        destruct (filter (fun c => suit c = su) legal) as [|? ?];
          [by apply elem_of_nil in Hcf|simpl; lia]. }
      assert (Hentry : fin ∈ suitCountsOf legal).
      { destruct Hfin as [Heq|?]; [|done]. exfalso.
        pose proof (Hpos (suit first) (ex_intro _ first (conj Hfirst_in eq_refl))) as Hp.
        assert ((suit first, length (filter (fun c => suit c = suit first) legal))
                ∈ suitCountsOf legal) as Hin by (by apply Hcounts).
        apply Hmax in Hin. rewrite Heq in Hin. simpl in Hin. lia. }
      destruct fin as [lsu ln] eqn:Hfin_eq. simpl.
      apply Hcounts in Hentry as [Hln Hlnpos].
      assert (Hsc : filter (fun c => suit c = lsu) legal ≠ []).
      { apply length_pos_ne. lia. }
      destruct (lowest_is_Some _ Hsc) as [c Hc]. rewrite Hc. simpl.
      destruct (lowest_inv _ _ Hc) as [Hin Hlow].
      apply list_elem_of_filter in Hin as [Hcs Hin].
      eexists. split; [done|]. simpl. split; [done|]. split; [done|]. split.
      * intros t' [= <-] (y & Hy & Hyt). exfalso. apply Htr.
        apply Hpos. by exists y.
      * intros t' [= <-] _. rewrite Hcs. split.
        -- intros su.
           destruct (length (filter (fun c0 => suit c0 = su) legal)) as [|j] eqn:Hj; [lia|].
           assert ((su, S j) ∈ suitCountsOf legal) as Hsu by (apply Hcounts; lia).
           apply Hmax in Hsu. simpl in Hsu. lia.
        -- intros y Hy Hys. apply Hlow. by apply list_elem_of_filter.
  - destruct legal as [|first rest]; [done|]. simpl.
    eexists. split; [done|]. simpl. split; [by left|]. split; [done|].
    split; intros t [=].
Qed.

(** ** A card the bots count as winning does win *)

Lemma higher_than_all (c : Card) (cs : list Played) :
  forallb (fun other => negb (bool_decide (getRankIndex (rank c) ≤ getRankIndex (rank other))%Z))
          (filter (fun o => suit o = suit c) (card <$> cs)) = true →
  ∀ pc, pc ∈ cs → suit (card pc) = suit c →
        (getRankIndex (rank (card pc)) < getRankIndex (rank c))%Z.
Proof.
  rewrite forallb_forall. intros Hall pc Hpc Hs.
  assert (Hin : card pc ∈ filter (fun o => suit o = suit c) (card <$> cs)).
  { apply list_elem_of_filter. split; [done|]. apply list_elem_of_fmap. by exists pc. }
  apply list_elem_of_In, Hall in Hin. apply negb_true_iff in Hin.
  apply bool_decide_eq_false in Hin. lia.
Qed.

(** With no trump fixed the best card of the loop keeps the suit led. *)
Lemma evalLoop_no_trump rest st :
  let fin := foldl (evalStep None) st rest in
  suit (bestCard fin) = suit (bestCard st) ∧
  (bestCard fin = bestCard st ∨ ∃ w, w ∈ rest ∧ bestCard fin = card w).
Proof.
  revert st. induction rest as [|x rest IH]; intros st; simpl; [by split; [|left]|].
  destruct (cardBeats (card x) (bestCard st) None (firstTrump st)) eqn:Hb.
  - assert (Hstep : evalStep None st x = mkBest (card x) (playerId x) (firstTrump st)).
    { unfold evalStep. by rewrite Hb. }
    rewrite Hstep. destruct (IH (mkBest (card x) (playerId x) (firstTrump st))) as [Hs Hw].
    simpl in Hs, Hw. split.
    + rewrite Hs. unfold cardBeats in Hb. simpl in Hb.
      apply andb_true_iff in Hb as [Hb _]. by apply bool_decide_eq_true in Hb.
    + right. destruct Hw as [Hw|(w & Hin & Hw)]; [exists x|exists w];
        (split; [|done]); [by left|by right].
  - rewrite (evalStep_keeps None st x Hb). destruct (IH st) as [Hs Hw].
    split; [done|]. destruct Hw as [?|(w & Hin & ?)]; [by left|right].
    exists w. split; [by right|done].
Qed.

Lemma cardCanWin_wins (tr : option Suit) (trick : Trick) (lead : Played)
    (rest : list Played) (self : PlayerId) (c : Card) (w : option PlayerId) (pts : Z) :
  cards trick = lead :: rest →
  cardCanWin c (card lead) tr
    (bool_decide (Exists (fun pc => Some (suit (card pc)) = tr) (cards trick))) trick = true →
  evaluateTrick (mkTrick (cards trick ++ [mkPlayed self c]) w pts) tr = Some self.
Proof.
  intros Hc Hwin.
  rewrite (evaluateTrick_loop tr _ lead (rest ++ [mkPlayed self c]))
    by (simpl; by rewrite Hc).
  rewrite foldl_app. cbn [foldl]. f_equal.
  set (fin := foldl (evalStep tr) (evalInit tr lead) rest).
  destruct tr as [t|].
  - assert (Hinit : flagTracksTrump t (evalInit (Some t) lead)).
    { unfold flagTracksTrump, evalInit. simpl.
      destruct (decide (suit (card lead) = t)).
      - by rewrite !bool_decide_eq_true_2 by congruence.
      - by rewrite !bool_decide_eq_false_2 by congruence. }
    destruct (decide (suit c = t)) as [Hct|Hct].
    + rewrite (evalStep_trump t fin (mkPlayed self c)); [done| |done].
      by apply evalLoop_flagTracksTrump.
    + unfold cardCanWin in Hwin.
      rewrite (bool_decide_eq_false_2 (Some (suit c) = Some t)) in Hwin by congruence.
      simpl in Hwin. case_bool_decide as Hex; [done|].
      case_bool_decide as Hsuit; [|done].
      pose proof (higher_than_all c (cards trick) Hwin) as Hhigh.
      assert (Hall : Forall (fun pc => suit (card pc) ≠ t) (cards trick)).
      { apply Forall_forall. intros pc Hpc Hpt. apply Hex.
        apply Exists_exists. exists pc. split; [done|congruence]. }
      rewrite Hc in Hall, Hhigh. apply Forall_cons in Hall as [Hlead Hrest].
      destruct (evalLoop_plain t rest (evalInit (Some t) lead) Hlead Hrest)
        as (Hs & _ & _ & Hw). fold fin in Hs, Hw. simpl in Hs, Hw.
      assert (Hlt : (getRankIndex (rank (bestCard fin)) < getRankIndex (rank c))%Z).
      { destruct Hw as [[Hw _]|(x & Hin & Hw & _)]; rewrite Hw in Hs |- *.
        - apply Hhigh; [by left|done].
        - apply Hhigh; [by right|]. simpl in Hs. congruence. }
      unfold evalStep. simpl. rewrite cardBeats_plain; [|done|congruence].
      rewrite bool_decide_eq_true_2 by congruence.
      rewrite bool_decide_eq_true_2 by lia. done.
  - unfold cardCanWin in Hwin.
    rewrite (bool_decide_eq_false_2 (Some (suit c) = None)) in Hwin by done.
    simpl in Hwin. case_bool_decide as Hex.
    { exfalso. apply Exists_exists in Hex as (? & _ & ?). done. }
    case_bool_decide as Hsuit; [|done].
    pose proof (higher_than_all c (cards trick) Hwin) as Hhigh. rewrite Hc in Hhigh.
    destruct (evalLoop_no_trump rest (evalInit None lead)) as [Hs Hw].
    fold fin in Hs, Hw. simpl in Hs, Hw.
    assert (Hlt : (getRankIndex (rank (bestCard fin)) < getRankIndex (rank c))%Z).
    { destruct Hw as [Hw|(x & Hin & Hw)]; rewrite Hw in Hs |- *.
      - apply Hhigh; [by left|done].
      - apply Hhigh; [by right|]. simpl in Hs. congruence. }
    unfold evalStep, cardBeats. simpl.
    rewrite bool_decide_eq_true_2 by congruence.
    rewrite bool_decide_eq_true_2 by lia. done.
Qed.

(** ** The beginner bot *)

(** X20. [chooseMove] of [BotLevel1] throws exactly when the player has no
    legal move, and the card it returns otherwise is one of the legal
    moves. *)
Theorem chooseMove1_legal (self : PlayerId) (s : GameState) :
  (chooseMove1 self s = None ↔ legalMoves s self = []) ∧
  ∀ m, chooseMove1 self s = Some m → bot_card m ∈ legalMoves s self.
Proof.
  assert (Hsome : legalMoves s self ≠ [] →
            ∃ m, chooseMove1 self s = Some m ∧ bot_card m ∈ legalMoves s self).
  { intros Hne. unfold chooseMove1.
    rewrite bool_decide_eq_false_2 by (by destruct (legalMoves s self)).
    destruct (cards (currentTrick s)) as [|lead rest] eqn:Hc.
    { destruct (chooseLead_spec _ (trump s) Hne) as (m & Hm & Hin & _). by exists m. }
    case_bool_decide as Hwin.
    { destruct (lowest_is_Some _ (length_pos_ne _ Hwin)) as [c Hcw]. rewrite Hcw.
      eexists. split; [done|]. simpl. apply lowest_inv in Hcw as [Hin _].
      by apply list_elem_of_filter in Hin as [_ ?]. }
    set (isTrumpInTrick := bool_decide (Exists _ _)).
    destruct (bool_decide (0 < length (filter (fun c => Some (suit c) = trump s)
                                              (sortBy byRank (legalMoves s self))))
              && isTrumpInTrick) eqn:Htr.
    { apply andb_true_iff in Htr as [Htr _]. apply bool_decide_eq_true in Htr.
      destruct (filter (fun c => Some (suit c) = trump s) (sortBy byRank (legalMoves s self)))
        as [|c l] eqn:Hf; [simpl in Htr; lia|].
      eexists. split; [done|]. simpl.
      assert (c ∈ c :: l) as Hin by (by left). rewrite <- Hf in Hin.
      apply list_elem_of_filter in Hin as [_ Hin]. by apply elem_of_sortBy in Hin. }
    clear Htr.
    destruct (decide (0 < length (filter (fun c => Some (suit c) ≠ trump s)
                                         (sortBy byRank (legalMoves s self))))) as [Hnt|Hnt];
      [rewrite bool_decide_eq_true_2 by done|rewrite bool_decide_eq_false_2 by done].
    { destruct (filter (fun c => Some (suit c) ≠ trump s) (sortBy byRank (legalMoves s self)))
        as [|c l] eqn:Hf; [simpl in Hnt; lia|].
      eexists. split; [done|]. simpl.
      assert (c ∈ c :: l) as Hin by (by left). rewrite <- Hf in Hin.
      apply list_elem_of_filter in Hin as [_ Hin]. by apply elem_of_sortBy in Hin. }
    destruct (lowest_is_Some _ Hne) as [c Hcw]. rewrite Hcw.
    eexists. split; [done|]. simpl. by apply lowest_inv in Hcw as [Hin _]. }
  split; [split|].
  - intros Hnone. destruct (decide (legalMoves s self = [])) as [?|Hne]; [done|].
    destruct (Hsome Hne) as (m & Hm & _). congruence.
  - intros Hnil. unfold chooseMove1. by rewrite Hnil.
  - intros m Hm. destruct (decide (legalMoves s self = [])) as [Hnil|Hne].
    + unfold chooseMove1 in Hm. by rewrite Hnil in Hm.
    + destruct (Hsome Hne) as (m' & Hm' & Hin). congruence.
Qed.

(** X21. When [BotLevel1] follows in a trick and one of its legal cards
    passes [cardCanWin], the card it plays is the lowest-ranked legal card
    that passes, it is announced as winning, and [evaluateTrick] on the
    trick with that card added names the bot's seat. *)
Theorem chooseMove1_wins_when_it_can (self : PlayerId) (s : GameState) (lead : Played)
    (rest : list Played) (c : Card) :
  cards (currentTrick s) = lead :: rest →
  c ∈ legalMoves s self →
  cardCanWin c (card lead) (trump s)
    (bool_decide (Exists (fun pc => Some (suit (card pc)) = trump s) (cards (currentTrick s))))
    (currentTrick s) = true →
  ∃ m, chooseMove1 self s = Some m ∧
       explanation m = "Playing " +:+ cardName (bot_card m) +:+ " to win the trick." ∧
       (getRankIndex (rank (bot_card m)) ≤ getRankIndex (rank c))%Z ∧
       evaluateTrick (pushedTrick s (mkMove self (bot_card m))) (trump s) = Some self.
Proof.
  intros Hc Hin Hwin. unfold chooseMove1.
  rewrite bool_decide_eq_false_2
    by (destruct (legalMoves s self); [by apply elem_of_nil in Hin|done]).
  rewrite Hc. rewrite <- Hc.
  set (flag := bool_decide _) in *.
  set (canWin := filter _ (legalMoves s self)).
  assert (Hcw : c ∈ canWin) by (by apply list_elem_of_filter).
  rewrite bool_decide_eq_true_2
    by (destruct canWin; [by apply elem_of_nil in Hcw|simpl; lia]).
  destruct (lowest_is_Some canWin) as [b Hb];
    [by destruct canWin; [apply elem_of_nil in Hcw|]|].
  rewrite Hb. eexists. split; [done|]. simpl. split; [done|].
  apply lowest_inv in Hb as [Hbin Hlow]. split; [by apply Hlow|].
  apply list_elem_of_filter in Hbin as [Hbwin _].
  unfold pushedTrick. simpl. by apply (cardCanWin_wins _ _ lead rest).
Qed.

(** X22. When [BotLevel1] leads with the trump fixed, it leads its
    lowest legal trump if it has one; otherwise it leads the lowest card
    of a suit of which it has the most legal cards. *)
Theorem chooseMove1_lead (self : PlayerId) (s : GameState) (t : Suit) (m : BotMove) :
  cards (currentTrick s) = [] →
  trump s = Some t →
  chooseMove1 self s = Some m →
  let legal := legalMoves s self in
  ((∃ c, c ∈ legal ∧ suit c = t) →
   suit (bot_card m) = t ∧
   ∀ c, c ∈ legal → suit c = t →
        (getRankIndex (rank (bot_card m)) ≤ getRankIndex (rank c))%Z) ∧
  ((∀ c, c ∈ legal → suit c ≠ t) →
   (∀ su, length (filter (fun c => suit c = su) legal)
          ≤ length (filter (fun c => suit c = suit (bot_card m)) legal)) ∧
   ∀ c, c ∈ legal → suit c = suit (bot_card m) →
        (getRankIndex (rank (bot_card m)) ≤ getRankIndex (rank c))%Z).
Proof.
  intros Hc Ht Hm legal. unfold chooseMove1 in Hm. fold legal in Hm.
  case_bool_decide as Hlen; [done|]. rewrite Hc in Hm.
  assert (Hne : legal ≠ []) by (by destruct legal).
  destruct (chooseLead_spec legal (trump s) Hne) as (m' & Hm' & _ & _ & Htrump & Hlong).
  rewrite Hm in Hm'. injection Hm' as <-.
  split; [by apply Htrump|by apply Hlong].
Qed.

(** ** The bids of the beginner bot *)

Lemma getRankIndex_nonneg r : (0 ≤ getRankIndex r ≤ 7)%Z.
Proof. destruct r; vm_compute; split; discriminate. Qed.

Lemma getRankIndex_inj r1 r2 : getRankIndex r1 = getRankIndex r2 → r1 = r2.
Proof. destruct r1, r2; vm_compute; intros H; try reflexivity; discriminate. Qed.

Lemma suitStrength_nonneg h su : (0 ≤ suitStrength h su)%Z.
Proof.
  unfold suitStrength.
  assert (H : ∀ l a, (0 ≤ a → 0 ≤ foldl (fun strength c => strength + getRankIndex (rank c)) a l)%Z).
  { induction l as [|c l IH]; intros a Ha; simpl; [done|].
    apply IH. pose proof (getRankIndex_nonneg (rank c)). lia. }
  by apply H.
Qed.

Lemma elem_of_allSuits su : su ∈ allSuits.
Proof. unfold allSuits. destruct su; rewrite !elem_of_cons; auto. Qed.

(** The loop over the suits keeps the first suit of the greatest strength
    seen so far, if that strength is above the initial one. *)
Lemma strongest_loop {A} (f : Suit → Z) (found : Suit → A) (l : list Suit) (acc : A * Z) :
  let r := foldl (fun acc su => if bool_decide (f su > acc.2)%Z then (found su, f su) else acc)
                 acc l in
  (r = acc ∧ ∀ su, su ∈ l → (f su ≤ acc.2)%Z)
  ∨ ∃ su, su ∈ l ∧ r = (found su, f su) ∧ (acc.2 < f su)%Z ∧
          ∀ su', su' ∈ l → (f su' ≤ f su)%Z.
Proof.
  revert acc. induction l as [|x l IH]; intros acc; simpl.
  - left. split; [done|]. by intros su ?%elem_of_nil.
  - case_bool_decide as Hx.
    + right. destruct (IH (found x, f x)) as [[-> Hall]|(su & Hin & -> & Hlt & Hall)];
        simpl in *.
      * exists x. split; [by left|]. split; [done|]. split; [lia|].
        intros su' [->|?]%elem_of_cons; [lia|by apply Hall].
      * exists su. split; [by right|]. split; [done|]. split; [lia|].
        intros su' [->|?]%elem_of_cons; [lia|by apply Hall].
    + destruct (IH acc) as [[-> Hall]|(su & Hin & -> & Hlt & Hall)].
      * left. split; [done|]. intros su' [->|?]%elem_of_cons; [lia|by apply Hall].
      * right. exists su. split; [by right|]. split; [done|]. split; [done|].
        intros su' [->|?]%elem_of_cons; [lia|by apply Hall].
Qed.

(** The loop over the four suits ends on the initial value when no suit
    has a positive strength, and otherwise on a suit of the greatest
    strength. *)
Lemma strongestSuit_spec {A} (h : list Card) (init : A) (found : Suit → A) :
  let r := strongestSuit h init found in
  (r.1 = init ∧ r.2 = 0%Z ∧ ∀ su, (suitStrength h su ≤ 0)%Z)
  ∨ ∃ su, r.1 = found su ∧ r.2 = suitStrength h su ∧ (0 < r.2)%Z ∧
          ∀ su', (suitStrength h su' ≤ suitStrength h su)%Z.
Proof.
  unfold strongestSuit.
  destruct (strongest_loop (suitStrength h) found allSuits (init, 0%Z))
    as [[-> Hall]|(su & _ & -> & Hlt & Hall)]; simpl in *.
  - left. split; [done|]. split; [done|]. intros su. apply Hall, elem_of_allSuits.
  - right. exists su. split; [done|]. split; [done|]. split; [done|].
    intros su'. apply Hall, elem_of_allSuits.
Qed.

(** X23. A bid of [BotLevel1] is made in its own name at level 1, in a
    suit of which it holds at least three cards, whose rank indices sum to
    at least 10 and to no less than those of any other suit; the bot
    passes when no suit reaches a sum of 10. *)
Theorem chooseBid1_sound (self : PlayerId) (s : GameState) :
  let h := hand (getP self (players s)) in
  (∀ b, chooseBid1 self s = Some b →
        call_playerId b = self ∧ level b = 1%Z ∧
        3 ≤ length (filter (fun c => suit c = call_suit b) h) ∧
        (10 ≤ suitStrength h (call_suit b))%Z ∧
        ∀ su, (suitStrength h su ≤ suitStrength h (call_suit b))%Z) ∧
  ((∀ su, (suitStrength h su < 10)%Z) → chooseBid1 self s = None).
Proof.
  intros h. unfold chooseBid1. fold h.
  pose proof (strongestSuit_spec h None Some) as Hspec.
  destruct (strongestSuit h None Some) as [bestSuit maxStrength]. simpl in Hspec.
  destruct Hspec as [(-> & _ & _)|(su & -> & -> & Hpos & Hmax)].
  - split; [by intros b|done].
  - split.
    + intros b. do 2 case_bool_decide; simpl; [|done..]. intros [= <-]. simpl.
      split; [done|]. split; [done|]. split; [done|]. split; [lia|done].
    + intros Hlow. specialize (Hlow su).
      rewrite (bool_decide_eq_false_2 (suitStrength h su >= 10)%Z) by lia.
      by rewrite andb_false_r.
Qed.

(** X24. The suit [BotLevel1] names as dealer has the greatest sum of
    rank indices in its hand. *)
Theorem chooseDealerChoice1_strongest (self : PlayerId) (s : GameState) (su : Suit) :
  let h := hand (getP self (players s)) in
  (suitStrength h su ≤ suitStrength h (chooseDealerChoice1 self s))%Z.
Proof.
  intros h. unfold chooseDealerChoice1. fold h.
  destruct (strongestSuit_spec h hearts id) as [(-> & _ & Hzero)|(su' & -> & _ & _ & Hmax)].
  - pose proof (suitStrength_nonneg h hearts). specialize (Hzero su). lia.
  - apply Hmax.
Qed.

(** ** Hints *)

Lemma hintCanWin_cardCanWin (s : GameState) (lead : Played) (rest : list Played) (c : Card) :
  cards (currentTrick s) = lead :: rest →
  c ∉ card <$> cards (currentTrick s) →
  hintCanWin s (card lead)
    (bool_decide (Exists (fun pc => Some (suit (card pc)) = trump s) (cards (currentTrick s)))) c
  = true →
  cardCanWin c (card lead) (trump s)
    (bool_decide (Exists (fun pc => Some (suit (card pc)) = trump s) (cards (currentTrick s))))
    (currentTrick s) = true.
Proof.
  intros Hc Hnot. unfold hintCanWin, cardCanWin.
  destruct (bool_decide (Some (suit c) = trump s) && negb _); [done|].
  destruct (negb (bool_decide (Some (suit c) = trump s)) && _); [done|].
  case_bool_decide as Hsuit; simpl; [|done].
  case_bool_decide as Hrank; simpl; [|done].
  intros Hnone. apply bool_decide_eq_true in Hnone.
  apply forallb_forall. intros o Ho. apply list_elem_of_In in Ho.
  apply list_elem_of_filter in Ho as [Hos Ho].
  apply list_elem_of_fmap in Ho as (pc & -> & Hpc).
  apply negb_true_iff, bool_decide_eq_false_2. intros Hle.
  destruct (decide (getRankIndex (rank (card pc)) = getRankIndex (rank c))) as [Heq|Hne].
  - apply Hnot. apply list_elem_of_fmap. exists pc. split; [|done].
    apply getRankIndex_inj in Heq. destruct c, (card pc). simpl in *. congruence.
  - assert (pc ∈ filter (fun pc => (getRankIndex (rank (card pc)) > getRankIndex (rank c))%Z)
                        (filter (fun pc => suit (card pc) = suit c) (cards (currentTrick s))))
      as Hin.
    { apply list_elem_of_filter. split; [lia|]. by apply list_elem_of_filter. }
    destruct (filter _ (filter _ (cards (currentTrick s)))); [by apply elem_of_nil in Hin|done].
Qed.

(** X25. [getHint] throws exactly when the player has no legal move, and
    the card it suggests otherwise is one of the legal moves. When the
    player leads, the suggestion is the lowest legal trump if there is
    one, and the lowest legal card otherwise. *)
Theorem getHint_legal (s : GameState) (p : PlayerId) :
  let legal := legalMoves s p in
  (getHint s p = None ↔ legal = []) ∧
  ∀ m, getHint s p = Some m →
       bot_card m ∈ legal ∧
       (cards (currentTrick s) = [] →
        ((∃ c, c ∈ legal ∧ Some (suit c) = trump s) → Some (suit (bot_card m)) = trump s) ∧
        ∀ c, c ∈ legal →
             Some (suit c) = trump s ∨ Some (suit (bot_card m)) ≠ trump s →
             (getRankIndex (rank (bot_card m)) ≤ getRankIndex (rank c))%Z).
Proof.
  intros legal.
  assert (Hsome : legal ≠ [] →
            ∃ m, getHint s p = Some m ∧ bot_card m ∈ legal ∧
       (cards (currentTrick s) = [] →
        ((∃ c, c ∈ legal ∧ Some (suit c) = trump s) → Some (suit (bot_card m)) = trump s) ∧
        ∀ c, c ∈ legal →
             Some (suit c) = trump s ∨ Some (suit (bot_card m)) ≠ trump s →
             (getRankIndex (rank (bot_card m)) ≤ getRankIndex (rank c))%Z)).
  { intros Hne. unfold getHint. fold legal.
    rewrite bool_decide_eq_false_2 by (by destruct legal).
    destruct (cards (currentTrick s)) as [|lead rest] eqn:Hc.
    - destruct (decide (0 < length (filter (fun c => Some (suit c) = trump s) legal)))
        as [Htr|Htr];
        [rewrite bool_decide_eq_true_2 by done|rewrite bool_decide_eq_false_2 by done].
      + destruct (lowest_is_Some _ (length_pos_ne _ Htr)) as [c Hcw]. rewrite Hcw.
        apply lowest_inv in Hcw as [Hin Hlow].
        apply list_elem_of_filter in Hin as [Hct Hin].
        eexists. split; [done|]. simpl. split; [done|]. intros _. split; [done|].
        intros y Hy [Hyt|Hno]; [|done]. apply Hlow. by apply list_elem_of_filter.
      + destruct (lowest_is_Some _ Hne) as [c Hcw]. rewrite Hcw.
        apply lowest_inv in Hcw as [Hin Hlow].
        eexists. split; [done|]. simpl. split; [done|]. intros _. split.
        * intros (y & Hy & Hyt). exfalso. apply Htr.
          assert (y ∈ filter (fun c => Some (suit c) = trump s) legal) as Hyf
            by (by apply list_elem_of_filter).
          destruct (filter (fun c => Some (suit c) = trump s) legal);
            [by apply elem_of_nil in Hyf|simpl; lia].
        * intros y Hy _. by apply Hlow.
    - destruct (decide (0 < length (filter
          (fun c => hintCanWin s (card lead)
                      (bool_decide (Exists (fun pc => Some (suit (card pc)) = trump s)
                                           (lead :: rest))) c = true) legal)))
        as [Hwin|Hwin];
        [rewrite bool_decide_eq_true_2 by done|rewrite bool_decide_eq_false_2 by done].
      + destruct (lowest_is_Some _ (length_pos_ne _ Hwin)) as [c Hcw]. rewrite Hcw.
        apply lowest_inv in Hcw as [Hin _].
        apply list_elem_of_filter in Hin as [_ Hin].
        eexists. split; [done|]. simpl. split; [done|]. done.
      + destruct (lowest_is_Some _ Hne) as [c Hcw]. rewrite Hcw.
        apply lowest_inv in Hcw as [Hin _].
        eexists. split; [done|]. simpl. split; [done|]. done. }
  split; [split|].
  - intros Hnone. destruct (decide (legal = [])) as [?|Hne]; [done|].
    destruct (Hsome Hne) as (m & Hm & _). congruence.
  - intros Hnil. unfold getHint. fold legal. by rewrite Hnil.
  - intros m Hm. destruct (decide (legal = [])) as [Hnil|Hne].
    + unfold getHint in Hm. fold legal in Hm. by rewrite Hnil in Hm.
    + destruct (Hsome Hne) as (m' & Hm' & Hrest). rewrite Hm in Hm'.
      injection Hm' as <-. exact Hrest.
Qed.

(** X26. When the player follows in a trick, none of the legal cards lies
    in the trick already, and some legal card passes the winning test of
    [getHint], the hint is the lowest-ranked legal card that passes, it
    is announced as winning, and [evaluateTrick] on the trick with that
    card added names the player's seat. *)
Theorem getHint_winning_card_wins (s : GameState) (p : PlayerId) (lead : Played)
    (rest : list Played) (c : Card) :
  cards (currentTrick s) = lead :: rest →
  (∀ x, x ∈ legalMoves s p → x ∉ card <$> cards (currentTrick s)) →
  c ∈ legalMoves s p →
  hintCanWin s (card lead)
    (bool_decide (Exists (fun pc => Some (suit (card pc)) = trump s) (cards (currentTrick s)))) c
  = true →
  ∃ m, getHint s p = Some m ∧
       explanation m = "Play " +:+ rankName (rank (bot_card m)) +:+ " of "
                       +:+ suitName (suit (bot_card m)) +:+ " to win the trick!" ∧
       (getRankIndex (rank (bot_card m)) ≤ getRankIndex (rank c))%Z ∧
       evaluateTrick (pushedTrick s (mkMove p (bot_card m))) (trump s) = Some p.
Proof.
  intros Hc Hfresh Hin Hwin. unfold getHint.
  rewrite bool_decide_eq_false_2
    by (destruct (legalMoves s p); [by apply elem_of_nil in Hin|done]).
  rewrite Hc. rewrite <- Hc.
  set (flag := bool_decide _) in *.
  set (winning := filter _ (legalMoves s p)).
  assert (Hcw : c ∈ winning) by (by apply list_elem_of_filter).
  rewrite bool_decide_eq_true_2
    by (destruct winning; [by apply elem_of_nil in Hcw|simpl; lia]).
  destruct (lowest_is_Some winning) as [b Hb];
    [by destruct winning; [apply elem_of_nil in Hcw|]|].
  rewrite Hb. eexists. split; [done|]. simpl. split; [done|].
  apply lowest_inv in Hb as [Hbin Hlow]. split; [by apply Hlow|].
  apply list_elem_of_filter in Hbin as [Hbwin Hbl].
  unfold pushedTrick. simpl. apply (cardCanWin_wins _ _ lead rest); [done|].
  apply (hintCanWin_cardCanWin s lead rest); [done|by apply Hfresh|done].
Qed.

(** ** Grading *)

Lemma gradeKey_inj a b : gradeKey a = gradeKey b → a = b.
Proof.
  destruct a as [[] []], b as [[] []]; intros H; try reflexivity;
    by (vm_compute in H; discriminate H).
Qed.

Lemma gradeKey_nonempty a : gradeKey a ≠ "".
Proof. by destruct a as [[] []]. Qed.

(** X27. For a decision that plays a card, [gradeDecision] measures it
    against the given reference card or, when none is given, against the
    last legal move. The grade is [best] exactly when the card is the
    reference; it is [ok] only for a card of the suit of the reference
    ranked no more than one step below it; and it is [blunder] only for
    a card whose suit is neither that of the reference nor that of the
    first legal move. *)
Theorem gradeDecision_card (d : GradedInput) (opt : option Card) (c : Card) :
  choice_card (dec_move d) = Some c →
  let ref := match opt with Some o => Some o | None => last (dec_legalMoves d) end in
  let g := (gradeDecision d opt).1 in
  (g = grade_best ↔ ref = Some c) ∧
  (g = grade_ok →
   ∃ o, ref = Some o ∧ suit c = suit o ∧ c ≠ o ∧
        (getRankIndex (rank o) - 1 ≤ getRankIndex (rank c))%Z) ∧
  (g = grade_blunder →
   (∀ o, ref = Some o → suit c ≠ suit o) ∧
   ∀ f, dec_legalMoves d !! 0 = Some f → suit c ≠ suit f).
Proof.
  intros Hcard ref g. unfold g, gradeDecision, determineOptimalMove. fold ref.
  rewrite Hcard.
  destruct (decide (ref = Some c)) as [Href|Href].
  { rewrite Href. simpl. rewrite bool_decide_eq_true_2 by done. simpl.
    split; [done|]. split; intros [=]. }
  rewrite bool_decide_eq_false_2.
  2: { destruct ref as [o|]; simpl.
       - intros Hk. apply gradeKey_inj in Hk. congruence.
       - apply gradeKey_nonempty. }
  split; [split; [|done]|].
  { repeat (case_bool_decide || destruct (_ && _) || destruct (_ || _) || simpl);
      intros [=]. }
  destruct ref as [o|]; simpl.
  - case_bool_decide as Hs; simpl.
    + case_bool_decide as Hr; simpl.
      * split; [|intros [=]]. intros _. exists o. split; [done|].
        split; [congruence|]. split; [congruence|lia].
      * split; intros [=].
    + case_bool_decide as Hf; simpl; (split; [intros [=]|]); [intros [=]|].
      intros _. split.
      * intros o' [= <-]. congruence.
      * intros f Hf'. rewrite Hf' in Hf. simpl in Hf. congruence.
  - case_bool_decide as Hf; simpl; (split; [intros [=]|]); [intros [=]|].
    intros _. split; [by intros o [=]|].
    intros f Hf'. rewrite Hf' in Hf. simpl in Hf. congruence.
Qed.

(** ** The stronger bot *)

(** The loop of [chooseMove] keeps the first card of the greatest score
    seen so far, with that score and its explanation. *)
Lemma chooseLoop_spec (self : PlayerId) (s : GameState) (l : list Card)
    (acc : Card * option Z * string) :
  acc.1.2 = Some (evaluateMove self s acc.1.1) →
  acc.2 = getExplanation s acc.1.1 →
  let fin := foldl (chooseStep self s) acc l in
  (fin.1.1 = acc.1.1 ∨ fin.1.1 ∈ l) ∧
  fin.1.2 = Some (evaluateMove self s fin.1.1) ∧
  fin.2 = getExplanation s fin.1.1 ∧
  (evaluateMove self s acc.1.1 ≤ evaluateMove self s fin.1.1)%Z ∧
  ∀ c, c ∈ l → (evaluateMove self s c ≤ evaluateMove self s fin.1.1)%Z.
Proof.
  revert acc. induction l as [|x l IH]; intros acc Hscore Hexp; cbn [foldl]; cbv zeta.
  - split; [by left|]. split; [done|]. split; [done|]. split; [lia|].
    by intros c ?%elem_of_nil.
  - assert (Hstep : chooseStep self s acc x
                    = if bool_decide (evaluateMove self s x > evaluateMove self s acc.1.1)%Z
                      then (x, Some (evaluateMove self s x), getExplanation s x)
                      else acc).
    { unfold chooseStep. by rewrite Hscore. }
    rewrite Hstep. clear Hstep. case_bool_decide as Hx.
    + destruct (IH (x, Some (evaluateMove self s x), getExplanation s x) eq_refl eq_refl)
        as (Hin & Hs & He & Hle & Hall). cbn [fst snd] in *.
      split; [right; destruct Hin as [Heq|?]; [rewrite Heq; by left|by right]|].
      split; [done|]. split; [done|]. split; [lia|].
      intros c [->|?]%elem_of_cons; [done|by apply Hall].
    + destruct (IH acc Hscore Hexp) as (Hin & Hs & He & Hle & Hall).
      split; [destruct Hin as [?|?]; [by left|right; by right]|].
      split; [done|]. split; [done|]. split; [done|].
      intros c [->|?]%elem_of_cons; [lia|by apply Hall].
Qed.

(** X28. [chooseMove] of [BotLevel2] throws exactly when the player has no
    legal move; otherwise it returns a legal card to which [evaluateMove]
    gives the greatest score of all legal cards, with the explanation
    [getExplanation] gives for that card. *)
Theorem chooseMove2_best_score (self : PlayerId) (s : GameState) :
  (chooseMove2 self s = None ↔ legalMoves s self = []) ∧
  ∀ m, chooseMove2 self s = Some m →
       bot_card m ∈ legalMoves s self ∧
       explanation m = getExplanation s (bot_card m) ∧
       ∀ c, c ∈ legalMoves s self →
            (evaluateMove self s c ≤ evaluateMove self s (bot_card m))%Z.
Proof.
  unfold chooseMove2. destruct (legalMoves s self) as [|first rest] eqn:Hl.
  - split; [done|]. by intros m.
  - split; [split; intros [=]|]. intros m [= <-]. cbn [foldl bot_card explanation].
    change (chooseStep self s (first, None, "") first)
      with (first, Some (evaluateMove self s first), getExplanation s first).
    destruct (chooseLoop_spec self s rest
                (first, Some (evaluateMove self s first), getExplanation s first)
                eq_refl eq_refl) as (Hin & _ & He & Hle & Hall).
    cbn [fst snd] in *.
    split; [destruct Hin as [Heq|?]; [rewrite Heq; by left|by right]|].
    split; [done|]. intros c [->|?]%elem_of_cons; [done|by apply Hall].
Qed.

(** The loop of [findBestSuit] over a list of suits. *)
Lemma findBestSuit_loop (g : Suit → Z) (n : Suit → nat) (l : list Suit)
    (acc : option Suit * Z) :
  let r := foldl (fun acc su =>
                    if bool_decide (g su > acc.2)%Z && bool_decide (3 ≤ n su)
                    then (Some su, g su) else acc) acc l in
  (r = acc ∧ ∀ su, su ∈ l → 3 ≤ n su → (g su ≤ acc.2)%Z)
  ∨ ∃ su, su ∈ l ∧ r = (Some su, g su) ∧ 3 ≤ n su ∧ (acc.2 < g su)%Z ∧
          ∀ su', su' ∈ l → 3 ≤ n su' → (g su' ≤ g su)%Z.
Proof.
  revert acc. induction l as [|x l IH]; intros acc; simpl.
  - left. split; [done|]. by intros su ?%elem_of_nil.
  - destruct (decide ((g x > acc.2)%Z ∧ 3 ≤ n x)) as [[Hx Hn]|Hx].
    + rewrite !bool_decide_eq_true_2 by done. simpl. right.
      destruct (IH (Some x, g x)) as [[-> Hall]|(su & Hin & -> & Hsu & Hlt & Hall)];
        simpl in *.
      * exists x. split; [by left|]. split; [done|]. split; [done|]. split; [lia|].
        intros su' [->|?]%elem_of_cons ?; [lia|by apply Hall].
      * exists su. split; [by right|]. split; [done|]. split; [done|]. split; [lia|].
        intros su' [->|?]%elem_of_cons ?; [lia|by apply Hall].
    + assert (bool_decide (g x > acc.2)%Z && bool_decide (3 ≤ n x) = false) as ->.
      { apply andb_false_iff. destruct (decide (g x > acc.2)%Z).
        - right. apply bool_decide_eq_false_2. tauto.
        - left. by apply bool_decide_eq_false_2. }
      destruct (IH acc) as [[-> Hall]|(su & Hin & -> & Hsu & Hlt & Hall)].
      * left. split; [done|].
        intros su' [->|?]%elem_of_cons ?; [lia|by apply Hall].
      * right. exists su. split; [by right|]. split; [done|]. split; [done|].
        split; [done|]. intros su' [->|?]%elem_of_cons ?; [lia|by apply Hall].
Qed.

Lemma highCardSum_nonneg l :
  (0 ≤ foldl (fun sum c => sum + highCardValue (rank c)) 0 l)%Z.
Proof.
  assert (H : ∀ l a, (0 ≤ a → 0 ≤ foldl (fun sum c => sum + highCardValue (rank c)) a l)%Z).
  { clear l. induction l as [|c l IH]; intros a Ha; simpl; [done|].
    apply IH. destruct (rank c); simpl; lia. }
  by apply H.
Qed.

(** X29. [findBestSuit] returns no suit exactly when the hand has no suit
    of three cards; otherwise it returns a suit of at least three cards
    whose high-card sum is the greatest among the suits of at least
    three cards. As dealer, [BotLevel2] names that suit, and hearts when
    there is none. *)
Theorem findBestSuit_longest_strongest (self : PlayerId) (s : GameState) :
  let h := hand (getP self (players s)) in
  let count := fun su => length (filter (fun c => suit c = su) h) in
  let strength := fun su =>
    foldl (fun sum c => (sum + highCardValue (rank c))%Z) 0%Z
          (filter (fun c => suit c = su) h) in
  (findBestSuit h = None ↔ ∀ su, count su < 3) ∧
  (∀ su, findBestSuit h = Some su →
         3 ≤ count su ∧ ∀ su', 3 ≤ count su' → (strength su' ≤ strength su)%Z) ∧
  (findBestSuit h = None → chooseDealerChoice2 self s = hearts) ∧
  (∀ su, findBestSuit h = Some su → chooseDealerChoice2 self s = su).
Proof.
  intros h count strength. unfold chooseDealerChoice2. fold h.
  assert (Hfb : findBestSuit h
                = (foldl (fun acc su =>
                            if bool_decide (strength su > acc.2)%Z && bool_decide (3 ≤ count su)
                            then (Some su, strength su) else acc)
                         (None, (-1)%Z) allSuits).1) by reflexivity.
  rewrite Hfb. clear Hfb.
  destruct (findBestSuit_loop strength count allSuits (None, (-1)%Z))
    as [[Hr Hall]|(su & _ & Hr & Hsu & Hlt & Hall)]; cbn [fst snd] in Hr, Hall;
    rewrite Hr; cbn [fst snd default from_option].
  - split; [|split; [by intros su|split; [done|by intros su]]].
    split; [|done]. intros _ su.
    destruct (decide (3 ≤ count su)) as [Hc|Hc]; [|unfold count in *; lia].
    pose proof (Hall su (elem_of_allSuits su) Hc) as Hle.
    pose proof (highCardSum_nonneg (filter (fun c => suit c = su) h)).
    unfold strength in Hle. lia.
  - split; [|split; [|split; [done|by intros su' [= <-]]]].
    + split; [done|]. intros Hnone. specialize (Hnone su). unfold count in *. lia.
    + intros su' [= <-]. split; [done|]. intros su' Hc.
      apply Hall; [apply elem_of_allSuits|done].
Qed.

(** ** The end of the match *)

Lemma afterTrick_scores s move st i mid :
  afterTrick s move st i = Some mid →
  matchScores mid = matchScores s ∧ handScores mid = handScores s ∧ config mid = config s.
Proof.
  unfold afterTrick. destruct (decide _).
  - destruct (evaluateTrick _ _); [|done]. simpl. by intros [= <-].
  - by intros [= <-].
Qed.

Lemma afterTrick_is_Some s move st i : is_Some (afterTrick s move st i).
Proof.
  unfold afterTrick. destruct (decide _); [|by eexists].
  destruct (evaluateTrick_is_Some
              (mkTrick (cards (currentTrick s) ++ [mkPlayed (move_playerId move) (move_card move)])
                       (winner (currentTrick s)) (points (currentTrick s)))
              (trump s)) as [w Hw].
  - simpl. by destruct (cards (currentTrick s)).
  - rewrite Hw. by eexists.
Qed.

(** X30. Once [isGameOver] holds, playing cards does not undo it:
    [applyMove] still accepts every card the seat holds and throws for
    any other, and the state it returns is again over, in phase
    [scoring], with the match and hand scores unchanged. *)
Theorem isGameOver_kept_by_applyMove (s : GameState) (move : Move) (st : MoveStamps) :
  isGameOver s = true →
  (applyMove s move st = None
   ↔ move_card move ∉ hand (getP (move_playerId move) (players s))) ∧
  ∀ s', applyMove s move st = Some s' →
        isGameOver s' = true ∧ phase s' = scoring ∧
        matchScores s' = matchScores s ∧ handScores s' = handScores s.
Proof.
  intros Hover.
  assert (Hsc : phase s = scoring).
  { unfold isGameOver in Hover. by case_bool_decide. }
  unfold applyMove. destruct (findCard _ _) as [i|] eqn:Hfind.
  - destruct (afterTrick_is_Some s move st i) as [mid Hmid]. rewrite Hmid. simpl.
    destruct (afterTrick_scores s move st i mid Hmid) as (Hms & Hhs & Hcfg).
    destruct (afterTrick_players s move st i mid Hmid) as [_ Hph].
    unfold afterHand. rewrite Hph, Hsc.
    rewrite (bool_decide_eq_false_2 (scoring = play)) by done. rewrite andb_false_r.
    split.
    + split; [done|]. intros Hnot. exfalso. apply Hnot.
      apply findCard_Some in Hfind. by eapply list_elem_of_lookup_2.
    + intros s' [= <-]. split; [|by rewrite Hph, Hms, Hhs].
      unfold isGameOver in *. by rewrite Hph, Hms, Hcfg.
  - split; [|done]. split; [|done]. intros _. by apply findCard_None.
Qed.

Lemma isGameOver_kept_by_applyMove_witness :
  isGameOver shortMatch = true ∧
  applyMove shortMatch (mkMove north (mkCard spades RJ)) stamps0 = Some shortMatchOn ∧
  isGameOver shortMatchOn = true ∧ phase shortMatchOn = scoring ∧
  matchScores shortMatchOn = matchScores shortMatch ∧
  handScores shortMatchOn = handScores shortMatch.
Proof.
  assert (Hover : isGameOver shortMatch = true) by (vm_compute; reflexivity).
  assert (Hm : applyMove shortMatch (mkMove north (mkCard spades RJ)) stamps0
               = Some shortMatchOn) by (vm_compute; reflexivity).
  split; [exact Hover|]. split; [exact Hm|].
  exact (proj2 (isGameOver_kept_by_applyMove shortMatch
                  (mkMove north (mkCard spades RJ)) stamps0 Hover) shortMatchOn Hm).
Defined.

(** ** The bots and the hints on a deal *)

Lemma chooseMove1_wins_when_it_can_witness :
  ∃ m, chooseMove1 south southToFollowState = Some m ∧
       explanation m = "Playing " +:+ cardName (bot_card m) +:+ " to win the trick." ∧
       (getRankIndex (rank (bot_card m)) ≤ getRankIndex RA)%Z ∧
       evaluateTrick (pushedTrick southToFollowState (mkMove south (bot_card m)))
                     (trump southToFollowState) = Some south.
Proof.
  refine (chooseMove1_wins_when_it_can south southToFollowState
            (mkPlayed west (mkCard clubs R10))
            [mkPlayed north (mkCard diamonds RA); mkPlayed east (mkCard diamonds R10)]
            (mkCard clubs RA) _ _ _).
  - vm_compute. reflexivity.
  - apply (bool_decide_unpack _). vm_compute. reflexivity.
  - vm_compute. reflexivity.
Defined.

Lemma chooseMove1_lead_witness :
  (∀ su, length (filter (fun c => suit c = su) (legalMoves spadesBid west))
         ≤ length (filter (fun c => suit c = clubs) (legalMoves spadesBid west))) ∧
  ∀ c, c ∈ legalMoves spadesBid west → suit c = clubs →
       (getRankIndex R7 ≤ getRankIndex (rank c))%Z.
Proof.
  refine (proj2 (chooseMove1_lead west spadesBid spades
                   (mkBotMove (mkCard clubs R7)
                      "Leading with Seven of clubs from your longest suit.") _ _ _) _).
  - vm_compute. reflexivity.
  - vm_compute. reflexivity.
  - vm_compute. reflexivity.
  - intros c Hc Hs. revert Hc.
    assert (Hl : legalMoves spadesBid west
                 = [mkCard clubs R10; mkCard clubs R9; mkCard clubs R8; mkCard clubs R7;
                    mkCard hearts R10; mkCard hearts R9; mkCard hearts R8; mkCard hearts R7])
      by (vm_compute; reflexivity).
    rewrite Hl, !elem_of_cons, elem_of_nil.
    intros [->|[->|[->|[->|[->|[->|[->|[->|[]]]]]]]]]; discriminate Hs.
Defined.

Lemma getHint_winning_card_wins_witness :
  ∃ m, getHint southToFollowState south = Some m ∧
       explanation m = "Play " +:+ rankName (rank (bot_card m)) +:+ " of "
                       +:+ suitName (suit (bot_card m)) +:+ " to win the trick!" ∧
       (getRankIndex (rank (bot_card m)) ≤ getRankIndex RA)%Z ∧
       evaluateTrick (pushedTrick southToFollowState (mkMove south (bot_card m)))
                     (trump southToFollowState) = Some south.
Proof.
  refine (getHint_winning_card_wins southToFollowState south
            (mkPlayed west (mkCard clubs R10))
            [mkPlayed north (mkCard diamonds RA); mkPlayed east (mkCard diamonds R10)]
            (mkCard clubs RA) _ _ _ _).
  - vm_compute. reflexivity.
  - apply Forall_forall. apply (bool_decide_unpack _). vm_compute. reflexivity.
  - apply (bool_decide_unpack _). vm_compute. reflexivity.
  - vm_compute. reflexivity.
Defined.

Lemma gradeDecision_card_witness :
  let d := mkDecision south (mkChoice (Some (mkCard clubs RK)) None)
                      (legalMoves southToFollowState south) in
  (gradeDecision d None).1 = grade_ok ∧
  ∃ o, last (dec_legalMoves d) = Some o ∧ suit (mkCard clubs RK) = suit o ∧
       mkCard clubs RK ≠ o ∧
       (getRankIndex (rank o) - 1 ≤ getRankIndex RK)%Z.
Proof.
  intros d.
  assert (Hg : (gradeDecision d None).1 = grade_ok) by (vm_compute; reflexivity).
  split; [exact Hg|].
  exact (proj1 (proj2 (gradeDecision_card d None (mkCard clubs RK) eq_refl)) Hg).
Defined.
